(** * ThermoMPNN-D: the mutation-indexing and aggregation logic of
      [thermompnn/model/v2_model.py]

    The development embeds the index, gather, mask and dispatch logic of
    [TransferModelv2] over a small model of torch tensors.

    - A tensor is a shape together with a total index function.  Shape and
      range violations that torch reports by raising are results [Raise _].
    - Integer tensors hold 64-bit integers: arithmetic on them wraps.
    - Floating-point numbers are idealised: exact rationals extended with
      NaN and the two infinities; rounding and signed zeros are not
      modelled.
    - The pretrained backbone and the learned layers (ProteinMPNN, light
      attention, the prediction head, ...) are external collaborators: they
      are the fields of a record [Modules] and are never inspected. *)

From Stdlib Require Import String ZArith QArith Qcanon List Bool Lia PeanoNat.
Import ListNotations.

Set Implicit Arguments.
Local Close Scope Qc_scope.
Local Close Scope Q_scope.
Local Open Scope nat_scope.

(* ================================================================== *)
(** * Exceptions and results *)

Inductive exn : Type :=
| AssertionError
| ValueError (msg : string)
| IndexError
| RuntimeError
| TypeError
| AttributeError
| UnboundLocalError.

Inductive result (A : Type) : Type :=
| Ok (a : A)
| Raise (e : exn).

Arguments Ok {A} a.
Arguments Raise {A} e.

Definition bind {A B} (r : result A) (k : A -> result B) : result B :=
  match r with
  | Ok a => k a
  | Raise e => Raise e
  end.

Notation "x <- c ;; k" := (bind c (fun x => k))
  (at level 61, c at next level, right associativity).
Notation "' pat <- c ;; k" := (bind c (fun x => match x with pat => k end))
  (at level 61, pat pattern, c at next level, right associativity).

Definition guard (b : bool) (e : exn) : result unit :=
  if b then Ok tt else Raise e.

(** A loop body run over a list, left to right, stopping at the first raise. *)
Fixpoint mapM {A B} (f : A -> result B) (l : list A) : result (list B) :=
  match l with
  | [] => Ok []
  | a :: l' => b <- f a ;; bs <- mapM f l' ;; Ok (b :: bs)
  end.

Definition is_ok {A} (r : result A) : bool :=
  match r with Ok _ => true | Raise _ => false end.

(* ================================================================== *)
(** * 64-bit integers *)

Definition wrap64 (z : Z) : Z := ((z + 2 ^ 63) mod 2 ^ 64 - 2 ^ 63)%Z.
Definition add64 (a b : Z) : Z := wrap64 (a + b).
Definition sub64 (a b : Z) : Z := wrap64 (a - b).

(* ================================================================== *)
(** * Idealised floating-point values *)

Inductive float : Type :=
| NaN
| NInf
| PInf
| Fin (q : Qc).

Definition is_nan (x : float) : bool :=
  match x with NaN => true | _ => false end.

Definition Qc_ltb (a b : Qc) : bool :=
  match (a ?= b)%Qc with Lt => true | _ => false end.

Definition Qc_is0 (a : Qc) : bool :=
  match (a ?= 0)%Qc with Eq => true | _ => false end.

Definition fneg (x : float) : float :=
  match x with
  | NaN => NaN
  | NInf => PInf
  | PInf => NInf
  | Fin q => Fin (- q)%Qc
  end.

Definition fadd (x y : float) : float :=
  match x, y with
  | NaN, _ | _, NaN => NaN
  | PInf, NInf | NInf, PInf => NaN
  | PInf, _ | _, PInf => PInf
  | NInf, _ | _, NInf => NInf
  | Fin a, Fin b => Fin (a + b)%Qc
  end.

Definition fsub (x y : float) : float := fadd x (fneg y).

(** The infinity with the sign of [q]; NaN for the product with zero. *)
Definition inf_signed (pos : bool) (q : Qc) : float :=
  if Qc_is0 q then NaN
  else if Qc_ltb q 0 then (if pos then NInf else PInf)
  else (if pos then PInf else NInf).

Definition fmul (x y : float) : float :=
  match x, y with
  | NaN, _ | _, NaN => NaN
  | PInf, PInf | NInf, NInf => PInf
  | PInf, NInf | NInf, PInf => NInf
  | PInf, Fin q | Fin q, PInf => inf_signed true q
  | NInf, Fin q | Fin q, NInf => inf_signed false q
  | Fin a, Fin b => Fin (a * b)%Qc
  end.

Definition fdiv (x y : float) : float :=
  match x, y with
  | NaN, _ | _, NaN => NaN
  | Fin a, Fin b =>
      if Qc_is0 b then inf_signed true a else Fin (a / b)%Qc
  | Fin _, _ => Fin 0%Qc
  | PInf, Fin b => if Qc_ltb b 0 then NInf else PInf
  | NInf, Fin b => if Qc_ltb b 0 then PInf else NInf
  | _, _ => NaN
  end.

(** [torch.max] propagates NaN. *)
Definition fmax (x y : float) : float :=
  match x, y with
  | NaN, _ | _, NaN => NaN
  | PInf, _ | _, PInf => PInf
  | NInf, z | z, NInf => z
  | Fin a, Fin b => if Qc_ltb a b then Fin b else Fin a
  end.

Definition of_nat (n : nat) : float := Fin (Q2Qc (inject_Z (Z.of_nat n))).

(** Largest finite single-precision value, [(2 - 2^-23) * 2^127]. *)
Definition float32_max : Qc :=
  Q2Qc (inject_Z ((2 ^ 24 - 1) * 2 ^ 104)).

(** [torch.nan_to_num(x, nan=0)]: NaN becomes 0, the infinities become the
    extreme finite values of the dtype. *)
Definition nan_to_num (x : float) : float :=
  match x with
  | NaN => Fin 0%Qc
  | PInf => Fin float32_max
  | NInf => Fin (- float32_max)%Qc
  | Fin q => Fin q
  end.

(** ** Reductions over a list of values (one reduced dimension) *)

Definition fsum (l : list float) : float := fold_left fadd l (Fin 0%Qc).
Definition fprod (l : list float) : float := fold_left fmul l (Fin 1%Qc).

(** [torch.max] over a dimension; torch refuses an empty dimension, here the
    empty reduction is NaN and is never reached by a successful call. *)
Definition fmaximum (l : list float) : float :=
  match l with
  | [] => NaN
  | x :: r => fold_left fmax r x
  end.

(** [torch.nanmean]: the sum with NaN read as zero, over the number of
    entries that are not NaN. *)
Definition nansum (l : list float) : float :=
  fsum (map (fun x => if is_nan x then Fin 0%Qc else x) l).

Definition count_not_nan (l : list float) : nat :=
  length (filter (fun x => negb (is_nan x)) l).

Definition nanmean (l : list float) : float :=
  fdiv (nansum l) (of_nat (count_not_nan l)).

(** [torch.mean]. *)
Definition fmean (l : list float) : float :=
  fdiv (fsum l) (of_nat (length l)).

(* ================================================================== *)
(** * Tensors *)

Record tensor (A : Type) : Type := mkT {
  shape : list nat;
  data : list nat -> A
}.

Definition rank {A} (t : tensor A) : nat := length (shape t).

(** [t.size(d)] *)
Definition size {A} (t : tensor A) (d : nat) : nat := nth d (shape t) 0.

(** [t.shape[-1]] *)
Definition last_dim (sh : list nat) : nat := last sh 0.

Definition list_eqb (a b : list nat) : bool :=
  if list_eq_dec Nat.eq_dec a b then true else false.

(** All indices of a shape, in row-major order. *)
Fixpoint indices (sh : list nat) : list (list nat) :=
  match sh with
  | [] => [[]]
  | n :: sh' => flat_map (fun i => map (cons i) (indices sh')) (seq 0 n)
  end.

Definition tmap {A B} (f : A -> B) (t : tensor A) : tensor B :=
  mkT (shape t) (fun ix => f (data t ix)).

Definition set_nth (d : nat) (ix : list nat) (v : nat) : list nat :=
  firstn d ix ++ v :: skipn (S d) ix.

Definition drop_nth (d : nat) (ix : list nat) : list nat :=
  firstn d ix ++ skipn (S d) ix.

Definition insert_nth (d : nat) (ix : list nat) (v : nat) : list nat :=
  firstn d ix ++ v :: skipn d ix.

(** [t[..., k]] *)
Definition index_last {A} (t : tensor A) (k : nat) : result (tensor A) :=
  match shape t with
  | [] => Raise IndexError
  | _ :: _ =>
      if k <? last_dim (shape t)
      then Ok (mkT (removelast (shape t)) (fun ix => data t (ix ++ [k])))
      else Raise IndexError
  end.

(** [t.unsqueeze(-1)], [t[..., None]] *)
Definition unsqueeze_last {A} (t : tensor A) : tensor A :=
  mkT (shape t ++ [1]) (fun ix => data t (removelast ix)).

(** [t.unsqueeze(d)] for [d <= rank t] *)
Definition unsqueeze {A} (t : tensor A) (d : nat) : tensor A :=
  mkT (insert_nth d (shape t) 1) (fun ix => data t (drop_nth d ix)).

(** [torch.squeeze(t, d)]: drops dimension [d] when its size is one. *)
Definition squeeze {A} (t : tensor A) (d : nat) : tensor A :=
  if (d <? rank t) && (size t d =? 1)
  then mkT (drop_nth d (shape t)) (fun ix => data t (insert_nth d ix 0))
  else t.

(** [t[:, ..., i, ...]]: integer index [i] on dimension [d]. *)
Definition select {A} (t : tensor A) (d i : nat) : result (tensor A) :=
  if (d <? rank t) && (i <? size t d)
  then Ok (mkT (drop_nth d (shape t)) (fun ix => data t (insert_nth d ix i)))
  else Raise IndexError.

(** [t[:, ..., i:j, ...]]: a slice on dimension [d]; Python clamps the bounds. *)
Definition slice {A} (t : tensor A) (d i j : nat) : tensor A :=
  let n := size t d in
  let lo := Nat.min i n in
  let hi := Nat.max lo (Nat.min j n) in
  mkT (set_nth d (shape t) (hi - lo))
      (fun ix => data t (set_nth d ix (lo + nth d ix 0))).

(** ** Broadcasting *)

Fixpoint bshape_rev (a b : list nat) : option (list nat) :=
  match a, b with
  | [], _ => Some b
  | _, [] => Some a
  | x :: a', y :: b' =>
      match bshape_rev a' b' with
      | None => None
      | Some r =>
          if x =? y then Some (x :: r)
          else if x =? 1 then Some (y :: r)
          else if y =? 1 then Some (x :: r)
          else None
      end
  end.

Definition broadcast_shape (a b : list nat) : option (list nat) :=
  option_map (@rev nat) (bshape_rev (rev a) (rev b)).

(** The index into an operand of shape [sh] for the index [ix] of the
    broadcast result: trailing dimensions are aligned and a dimension of size
    one is read at zero. *)
Definition bindex (sh ix : list nat) : list nat :=
  map (fun '(s, i) => if s =? 1 then 0 else i)
      (combine sh (skipn (length ix - length sh) ix)).

Definition broadcast2 {A B C} (f : A -> B -> C) (a : tensor A) (b : tensor B)
  : result (tensor C) :=
  match broadcast_shape (shape a) (shape b) with
  | None => Raise RuntimeError
  | Some sh =>
      Ok (mkT sh (fun ix => f (data a (bindex (shape a) ix))
                              (data b (bindex (shape b) ix))))
  end.

(** [t.expand(sizes)]; a size of [-1] keeps the dimension. *)
Fixpoint expand_shape_rev (old : list nat) (sizes : list Z) : option (list nat) :=
  match old, sizes with
  | _, [] => match old with [] => Some [] | _ => None end
  | [], s :: sizes' =>
      if (s <? 0)%Z then None
      else option_map (cons (Z.to_nat s)) (expand_shape_rev [] sizes')
  | o :: old', s :: sizes' =>
      match expand_shape_rev old' sizes' with
      | None => None
      | Some r =>
          if (s =? -1)%Z then Some (o :: r)
          else if (s <? 0)%Z then None
          else if (o =? Z.to_nat s) || (o =? 1) then Some (Z.to_nat s :: r)
          else None
      end
  end.

Definition expand {A} (t : tensor A) (sizes : list Z) : result (tensor A) :=
  match expand_shape_rev (rev (shape t)) (rev sizes) with
  | None => Raise RuntimeError
  | Some r => Ok (mkT (rev r) (fun ix => data t (bindex (shape t) ix)))
  end.

(** [t.repeat(reps)] with as many repetition counts as dimensions. *)
Definition repeat_t {A} (t : tensor A) (reps : list nat) : result (tensor A) :=
  if length reps =? rank t
  then Ok (mkT (map (fun '(s, r) => s * r) (combine (shape t) reps))
               (fun ix => data t (map (fun '(s, i) => i mod s)
                                      (combine (shape t) ix))))
  else Raise RuntimeError.

(** ** Gather and scatter *)

Definition in_range (v : Z) (n : nat) : bool :=
  ((0 <=? v) && (v <? Z.of_nat n))%Z.

(** The shape conditions of [torch.gather(input, dim, index)]: equal ranks and
    [index.size(d) <= input.size(d)] away from [dim].  torch makes them only
    for an index that has elements and returns the empty tensor otherwise;
    [gather] and [scatter] below make them for every index. *)
Fixpoint dims_le (d dim : nat) (idx inp : list nat) : bool :=
  match idx, inp with
  | [], [] => true
  | i :: idx', n :: inp' =>
      ((d =? dim) || (i <=? n)) && dims_le (S d) dim idx' inp'
  | _, _ => false
  end.

Definition gather {A} (input : tensor A) (dim : nat) (index : tensor Z)
  : result (tensor A) :=
  if negb ((dim <? rank input) && dims_le 0 dim (shape index) (shape input))
  then Raise RuntimeError
  else if forallb (fun ix => in_range (data index ix) (size input dim))
                  (indices (shape index))
  then Ok (mkT (shape index)
               (fun ix => data input (set_nth dim ix (Z.to_nat (data index ix)))))
  else Raise RuntimeError.

Definition update {A} (t : tensor A) (jx : list nat) (v : A) : tensor A :=
  mkT (shape t) (fun kx => if list_eqb kx jx then v else data t kx).

(** [input.scatter_(dim, index, src)]: the writes are made in index order. *)
Definition scatter {A} (input : tensor A) (dim : nat) (index : tensor Z)
  (src : tensor A) : result (tensor A) :=
  if negb ((dim <? rank input) && dims_le 0 dim (shape index) (shape input)
           && dims_le 0 (rank src) (shape index) (shape src))
  then Raise RuntimeError
  else if forallb (fun ix => in_range (data index ix) (size input dim))
                  (indices (shape index))
  then Ok (fold_left
             (fun acc ix =>
                update acc (set_nth dim ix (Z.to_nat (data index ix)))
                       (data src ix))
             (indices (shape index)) input)
  else Raise RuntimeError.

(** ** Joining *)

Definition same_shapes {A} (sh : list nat) (l : list (tensor A)) : bool :=
  forallb (fun t => list_eqb (shape t) sh) l.

(** [torch.stack(l, dim=-1)] *)
Definition stack_last {A} (l : list (tensor A)) : result (tensor A) :=
  match l with
  | [] => Raise RuntimeError
  | t0 :: _ =>
      if same_shapes (shape t0) l
      then Ok (mkT (shape t0 ++ [length l])
                   (fun ix => data (nth (last ix 0) l t0) (removelast ix)))
      else Raise RuntimeError
  end.

(** The block and the offset inside it of column [c] of a concatenation whose
    blocks have the widths [ws]. *)
Fixpoint locate (ws : list nat) (c : nat) : nat * nat :=
  match ws with
  | [] => (0, c)
  | w :: ws' =>
      if c <? w then (0, c)
      else let '(k, o) := locate ws' (c - w) in (S k, o)
  end.

(** [torch.cat(l, -1)] *)
Definition cat_last {A} (l : list (tensor A)) : result (tensor A) :=
  match l with
  | [] => Raise RuntimeError
  | t0 :: _ =>
      if negb (rank t0 =? 0) &&
         forallb (fun t => list_eqb (removelast (shape t)) (removelast (shape t0))) l
      then
        let ws := map (fun t => last_dim (shape t)) l in
        Ok (mkT (removelast (shape t0) ++ [list_sum ws])
                (fun ix =>
                   let '(k, o) := locate ws (last ix 0) in
                   data (nth k l t0) (removelast ix ++ [o])))
      else Raise RuntimeError
  end.

(** ** Masks and reductions *)

(** [t[mask] = v] with a boolean mask of the shape of [t]. *)
Definition masked_fill {A} (t : tensor A) (mask : tensor bool) (v : A)
  : result (tensor A) :=
  if list_eqb (shape mask) (shape t)
  then Ok (mkT (shape t) (fun ix => if data mask ix then v else data t ix))
  else Raise IndexError.

(** A reduction over the last dimension. *)
Definition reduce_last {A B} (f : list A -> B) (t : tensor A) : tensor B :=
  mkT (removelast (shape t))
      (fun ix => f (map (fun k => data t (ix ++ [k]))
                        (seq 0 (last_dim (shape t))))).

(** [torch.sum(t)] of an integer tensor. *)
Definition sum64 (t : tensor Z) : Z :=
  fold_left (fun acc ix => add64 acc (data t ix)) (indices (shape t)) 0%Z.

(** [torch.sum(mask)] of a boolean tensor: the number of true entries. *)
Definition count_true (t : tensor bool) : Z :=
  sum64 (tmap (fun b : bool => if b then 1%Z else 0%Z) t).

(** A tensor from nested rows, for concrete inputs. *)
Definition of_rows {A} (d : A) (rows : list (list A)) : tensor A :=
  mkT [length rows; length (hd [] rows)]
      (fun ix => nth (nth 1 ix 0) (nth (nth 0 ix 0) rows []) d).

Definition to_rows {A} (t : tensor A) : list (list A) :=
  map (fun b => map (fun j => data t [b; j]) (seq 0 (size t 1)))
      (seq 0 (size t 0)).

(* ================================================================== *)
(** * [_check_sequence_match] *)

(** One iteration of the loop over [mut_idx].  [S_check] has shape [(B, 1)]
    and [wt[..., mut_idx]] has shape [(B,)], so their difference is broadcast
    to [(B, B)] before it is summed. *)
Definition check_step (S wt pos : tensor Z) (mut_idx : nat)
  : result (tensor Z) :=
  p <- index_last pos mut_idx ;;
  w <- index_last wt mut_idx ;;
  S_check <- gather S (rank S - 1) (unsqueeze_last p) ;;
  diff <- broadcast2 sub64 S_check w ;;
  if (sum64 diff =? 0)%Z then Ok S
  else scatter S 1 (unsqueeze_last p) (unsqueeze_last w).

Fixpoint check_loop (idxs : list nat) (S wt pos : tensor Z)
  : result (tensor Z) :=
  match idxs with
  | [] => Ok S
  | k :: rest => S' <- check_step S wt pos k ;; check_loop rest S' wt pos
  end.

Definition _check_sequence_match (S wt mut pos : tensor Z)
  : result (tensor Z) :=
  check_loop (seq 0 (last_dim (shape wt))) S wt pos.

(** [batched_index_select(input, dim, index)] *)
Definition batched_index_select {A} (input : tensor A) (dim : nat)
  (index : tensor Z) : result (tensor A) :=
  let index :=
    fold_left (fun ix ii => if ii =? dim then ix else unsqueeze ix ii)
              (seq 1 (rank input - 1)) index in
  let expanse := map Z.of_nat (shape input) in
  let expanse := firstn 0 expanse ++ (-1)%Z :: skipn 1 expanse in
  let expanse := firstn dim expanse ++ (-1)%Z :: skipn (S dim) expanse in
  index <- expand index expanse ;;
  gather input dim index.

(* ================================================================== *)
(** * Configuration ([cfg.model]) *)

Record Cfg : Type := {
  aggregation : option string;
  num_final_layers : Z;
  hidden_dims : list Z;
  dropout : option Qc;
  lightattn : bool;
  dist : bool;
  edges : bool;
  mutant_embedding : bool;
  side_chain_module : bool;
  auxiliary_embedding : option string;
  subtract_mut : bool;
  single_target : bool
}.

(** [cfg.model.<field> == name] for a field that may be [None]. *)
Definition is_str (o : option string) (name : string) : bool :=
  match o with
  | Some s => String.eqb s name
  | None => false
  end.

(* ================================================================== *)
(** * [TransferModelv2.__init__] *)

(** [self.multi_mutations] *)
Definition multi_mutations (cfg : Cfg) : bool :=
  match aggregation cfg with
  | Some _ => true
  | None => false
  end.

(** [_set_model_dims]: [(HIDDEN_DIM, EMBED_DIM, VOCAB_DIM)]. *)
Definition _set_model_dims (cfg : Cfg) : Z * Z * Z :=
  let EMBED_DIM := 128%Z in
  let EMBED_DIM :=
    if mutant_embedding cfg then (EMBED_DIM + 128)%Z else EMBED_DIM in
  let EMBED_DIM :=
    if edges cfg then (EMBED_DIM + 128)%Z
    else if dist cfg then (EMBED_DIM + 25)%Z
    else EMBED_DIM in
  let EMBED_DIM :=
    if side_chain_module cfg then (EMBED_DIM + 128)%Z else EMBED_DIM in
  let EMBED_DIM :=
    if is_str (auxiliary_embedding cfg) "globalMPNN" then (EMBED_DIM + 128)%Z
    else if is_str (auxiliary_embedding cfg) "localESM" then (EMBED_DIM + 320)%Z
    else EMBED_DIM in
  let HIDDEN_DIM := 128%Z in
  let VOCAB_DIM := if negb (single_target cfg) then 21%Z else 1%Z in
  (HIDDEN_DIM, EMBED_DIM, VOCAB_DIM).

Definition HIDDEN_DIM (cfg : Cfg) : Z := fst (fst (_set_model_dims cfg)).
Definition EMBED_DIM (cfg : Cfg) : Z := snd (fst (_set_model_dims cfg)).
Definition VOCAB_DIM (cfg : Cfg) : Z := snd (_set_model_dims cfg).

Definition hid_sizes (cfg : Cfg) : list Z :=
  [(HIDDEN_DIM cfg * num_final_layers cfg + EMBED_DIM cfg)%Z]
    ++ hidden_dims cfg ++ [VOCAB_DIM cfg].

(** The layers of an [nn.Sequential]. *)
Inductive layer : Type :=
| LayerNorm (n : Z)
| Dropout (p : Qc)
| ReLU
| Linear (n_in n_out : Z).

(** [self.ddg_out] as built by the constructor. *)
Definition ddg_out_layers (cfg : Cfg) : list layer :=
  (if multi_mutations cfg
   then [LayerNorm (HIDDEN_DIM cfg * num_final_layers cfg + EMBED_DIM cfg)%Z]
   else [])
  ++ flat_map
       (fun '(sz1, sz2) =>
          (match dropout cfg with
           | Some drop => [Dropout drop]
           | None => []
           end) ++ [ReLU; Linear sz1 sz2])
       (combine (hid_sizes cfg) (tl (hid_sizes cfg))).

(** [self.message_size], set when the aggregation is ['mpnn']. *)
Definition message_size (cfg : Cfg) : nat := Z.to_nat (hd 0%Z (hid_sizes cfg)).

(* ================================================================== *)
(** * External collaborators *)

(** The pretrained backbone, the learned layers and the coordinate geometry.
    [structure] stands for the coordinates [X] together with [mask],
    [chain_M], [residue_idx], [chain_encoding_all] and [atom_mask].
    The geometry of [_dist] and [_get_cbeta] and the atom-pair distances of
    the [dist] branch are floating-point computations on [X]; only their
    results enter the index logic, so they are carried here as well. *)
Record Modules (structure : Type) : Type := {
  (** [self.prot_mpnn(...)]: [(all_mpnn_hid, mpnn_embed, mpnn_edges)] *)
  prot_mpnn : structure -> tensor Z ->
              list (tensor float) * tensor float * tensor float;
  (** [torch.nan_to_num(X, nan=0.0)] *)
  nan_to_num_X : structure -> structure;
  (** [X[:, :, :4, :]] *)
  backbone_atoms : structure -> structure;
  _get_cbeta : structure -> structure;
  (** [E_idx] of [_dist(X[:, :, 1, :], mask)] *)
  _dist_E_idx : structure -> tensor Z;
  (** The mean atom-pair distances between the residues at two position
      columns (the body of the [dist] branch for one pair of mutations);
      [None] when a position is outside the structure, for which
      [batched_index_select] raises. *)
  pair_distances : structure -> tensor Z -> tensor Z -> option (tensor float);
  (** [self.prot_mpnn.W_s] *)
  W_s : tensor Z -> tensor float;
  side_chain_features : structure -> tensor Z -> tensor float -> tensor float;
  light_attention : tensor float -> tensor float;
  (** [self.aggregator[0:2]] *)
  aggregator_in : tensor float -> tensor float;
  (** [self.aggregator[-1]] called with a mask, and with the other
      embeddings *)
  aggregator_masked : tensor float -> tensor float -> tensor float -> tensor float;
  aggregator_others : tensor float -> list (tensor float) -> tensor float;
  dist_norm : tensor float -> tensor float;
  ddg_out : tensor float -> tensor float;
  (** The masked mean of [all_mpnn_hid[..., 0:128]] over the residues. *)
  global_embed : tensor float -> tensor float
}.

(** The arguments of [forward] ([mut_ddGs] is not used by it). *)
Record batch (structure : Type) : Type := {
  X : structure;
  S : tensor Z;
  mut_positions : tensor Z;
  mut_wildtype_AAs : tensor Z;
  mut_mutant_AAs : tensor Z;
  esm_emb : option (tensor float)
}.

(* ================================================================== *)
(** * [TransferModelv2.forward] *)

(** [torch.stack(l, dim=0)] *)
Definition stack_first {A} (l : list (tensor A)) : result (tensor A) :=
  match l with
  | [] => Raise RuntimeError
  | t0 :: _ =>
      if same_shapes (shape t0) l
      then Ok (mkT (length l :: shape t0)
                   (fun ix => data (nth (hd 0 ix) l t0) (tl ix)))
      else Raise RuntimeError
  end.

(** [torch.where(mask)]: the indices of the true entries, in order. *)
Definition where_true (mask : tensor bool) : list (list nat) :=
  filter (data mask) (indices (shape mask)).

(** [torch.full([n], v)] *)
Definition full {A} (n : nat) (v : A) : tensor A := mkT [n] (fun _ => v).

(** [(mut_mutant_AAs + mut_wildtype_AAs + mut_positions) == 0] *)
Definition padding_mask (mut wt pos : tensor Z) : result (tensor bool) :=
  s <- broadcast2 add64 mut wt ;;
  s <- broadcast2 add64 s pos ;;
  Ok (tmap (fun z => (z =? 0)%Z) s).

(** [assert(torch.sum(mask[:, 0]) == 0)] *)
Definition assert_first_visible (mask : tensor bool) : result unit :=
  col0 <- select mask 1 0 ;;
  guard (count_true col0 =? 0)%Z AssertionError.

(** [mask.unsqueeze(1).repeat(1, n, 1)] *)
Definition expand_mask (mask : tensor bool) (n : nat) : result (tensor bool) :=
  repeat_t (unsqueeze mask 1) [1; n; 1].

(** The state after the backbone has run. *)
Record backbone_out (structure : Type) : Type := {
  b_X : structure;
  b_S : tensor Z;
  all_mpnn_hid : list (tensor float);
  mpnn_embed : tensor float;
  mpnn_edges : tensor float
}.

(** The local variables of the multi-mutation branch before the gather loop;
    [None] is a name that was never bound. *)
Record feats : Type := {
  f_embed : tensor float;
  f_mut_embed : option (tensor float);
  f_edges : tensor float;
  f_dist : option (tensor float);
  f_side : option (tensor float)
}.

Section Forward.

Variable structure : Type.
Variable M : Modules structure.
Variable cfg : Cfg.

(** Lines 117-129: the sequence check, the backbone and the virtual C-beta. *)
Definition run_backbone (inp : batch structure)
  : result (backbone_out structure) :=
  S' <- (if multi_mutations cfg
         then _check_sequence_match (S inp) (mut_wildtype_AAs inp)
                                    (mut_mutant_AAs inp) (mut_positions inp)
         else Ok (S inp)) ;;
  let X1 := nan_to_num_X M (X inp) in
  let '(hid, emb, edg) :=
    prot_mpnn M (if side_chain_module cfg then backbone_atoms M X1 else X1) S' in
  let X2 := if dist cfg then _get_cbeta M X1 else X1 in
  Ok {| b_X := X2; b_S := S'; all_mpnn_hid := hid;
        mpnn_embed := emb; mpnn_edges := edg |}.

(** [self.side_chain_features(..., all_mpnn_hid[0], atom_mask)] when the
    side-chain module is enabled. *)
Definition side_chain_embeds (bo : backbone_out structure)
  : result (option (tensor float)) :=
  if side_chain_module cfg then
    match all_mpnn_hid bo with
    | [] => Raise IndexError
    | h0 :: _ => Ok (Some (side_chain_features M (b_X bo) (b_S bo) h0))
    end
  else Ok None.

(** [torch.gather(t, 1, cp.unsqueeze(-1).expand(cp.size(0), cp.size(1),
    t.size(2)))] followed by [torch.squeeze(_, 1)]: the rows of [t] at the
    positions [cp]. *)
Definition gather_rows (t : tensor float) (current_positions : tensor Z)
  : result (tensor float) :=
  index <- expand (unsqueeze_last current_positions)
                  (map Z.of_nat [size current_positions 0;
                                 size current_positions 1; size t 2]) ;;
  gathered <- gather t 1 index ;;
  Ok (squeeze gathered 1).

(** Lines 165-179: the edge feature of sample [b] for the mutation
    [n_current], from the neighbour indices [E_idx_tmp] and the edges
    [mpnn_edges_tmp] at its position. *)
Definition sample_edge (pos E_idx_tmp : tensor Z) (mpnn_edges_tmp : tensor float)
  (n_mutations : list nat) (n_current b : nat) : result (tensor float) :=
  let n_other := filter (fun a => negb (a =? n_current)) n_mutations in
  tmp_edges <-
    mapM (fun n_o =>
            nbrs <- select E_idx_tmp 0 b ;;
            prow <- select pos 0 b ;;
            p <- expand (slice prow 0 n_o (n_o + 1))
                        [1%Z; Z.of_nat (last_dim (shape E_idx_tmp))] ;;
            hit <- broadcast2 Z.eqb nbrs p ;;
            match where_true hit with
            | [] => Ok (full (last_dim (shape mpnn_edges_tmp)) NaN)
            | ix :: _ =>
                row <- select mpnn_edges_tmp 0 b ;;
                select row 0 (nth 1 ix 0)
            end)
         n_other ;;
  stacked <- stack_last tmp_edges ;;
  Ok (tmap nan_to_num (reduce_last nanmean stacked)).

(** Lines 155-182: the edge features of every sample for [n_current]. *)
Definition edges_compiled (pos E_idx : tensor Z) (edg : tensor float)
  (n_mutations : list nat) (n_current : nat) : result (tensor float) :=
  let here := slice pos 1 n_current (n_current + 1) in
  sel <- batched_index_select edg 1 here ;;
  let mpnn_edges_tmp := squeeze sel 1 in
  sel <- batched_index_select E_idx 1 here ;;
  let E_idx_tmp := squeeze sel 1 in
  edges <- mapM (sample_edge pos E_idx_tmp mpnn_edges_tmp n_mutations n_current)
                (seq 0 (size E_idx_tmp 0)) ;;
  stack_first edges.

(** Lines 147-184 *)
Definition multi_edges (bo : backbone_out structure) (pos : tensor Z)
  : result (tensor float) :=
  let E_idx := _dist_E_idx M (b_X bo) in
  let n_mutations := seq 0 (last_dim (shape pos)) in
  all_mpnn_edges <-
    mapM (edges_compiled pos E_idx (mpnn_edges bo) n_mutations) n_mutations ;;
  stack_last all_mpnn_edges.

(** Lines 186-212 *)
Definition multi_dist (bo : backbone_out structure) (pos : tensor Z)
  : result (tensor float) :=
  let n_mutations := seq 0 (last_dim (shape pos)) in
  dX_all_agg <-
    mapM (fun '(n_current, n_o) =>
            match pair_distances M (b_X bo)
                                 (slice pos 1 n_current (n_current + 1))
                                 (slice pos 1 n_o (n_o + 1)) with
            | Some dX_all => Ok dX_all
            | None => Raise RuntimeError
            end)
         (flat_map (fun n_current =>
                      map (pair n_current)
                          (filter (fun a => negb (a =? n_current)) n_mutations))
                   n_mutations) ;;
  stack_last dX_all_agg.

(** Lines 132-212 *)
Definition multi_features (bo : backbone_out structure) (inp : batch structure)
  : result feats :=
  side <- side_chain_embeds bo ;;
  if (0 <? num_final_layers cfg)%Z then
    hid <- cat_last (firstn (Z.to_nat (num_final_layers cfg)) (all_mpnn_hid bo)) ;;
    emb <- cat_last [hid; mpnn_embed bo] ;;
    mut_embed <-
      (if mutant_embedding cfg then
         l <- mapM (fun m =>
                      col <- select (mut_mutant_AAs inp) 1 m ;;
                      Ok (unsqueeze_last (W_s M col)))
                   (seq 0 (last_dim (shape (mut_mutant_AAs inp)))) ;;
         r <- cat_last l ;;
         Ok (Some r)
       else Ok None) ;;
    if edges cfg then
      e <- multi_edges bo (mut_positions inp) ;;
      Ok {| f_embed := emb; f_mut_embed := mut_embed; f_edges := e;
            f_dist := None; f_side := side |}
    else if dist cfg then
      d <- multi_dist bo (mut_positions inp) ;;
      Ok {| f_embed := emb; f_mut_embed := mut_embed;
            f_edges := mpnn_edges bo; f_dist := Some d; f_side := side |}
    else
      Ok {| f_embed := emb; f_mut_embed := mut_embed;
            f_edges := mpnn_edges bo; f_dist := None; f_side := side |}
  else
    Ok {| f_embed := mpnn_embed bo; f_mut_embed := None;
          f_edges := mpnn_edges bo; f_dist := None; f_side := side |}.

(** Lines 216-237: the body of the gather loop for mutation slot [i]. *)
Definition slot_embed (f : feats) (pos : tensor Z) (i : nat)
  : result (tensor float) :=
  let current_positions := slice pos 1 i (i + 1) in
  gathered_embed <- gather_rows (f_embed f) current_positions ;;
  gathered_embed <-
    (if mutant_embedding cfg then
       match f_mut_embed f with
       | None => Raise UnboundLocalError
       | Some mut_embed =>
           m <- select mut_embed 2 i ;; cat_last [gathered_embed; m]
       end
     else Ok gathered_embed) ;;
  gathered_embed <-
    (if edges cfg then
       e <- select (f_edges f) 2 i ;; cat_last [gathered_embed; e]
     else if dist cfg then
       match f_dist f with
       | None => Raise UnboundLocalError
       | Some dX_all_agg =>
           d <- select dX_all_agg 2 i ;;
           cat_last [gathered_embed; dist_norm M d]
       end
     else Ok gathered_embed) ;;
  if side_chain_module cfg then
    match f_side f with
    | None => Raise UnboundLocalError
    | Some side =>
        side_chain_gathered <- gather_rows side current_positions ;;
        cat_last [gathered_embed; side_chain_gathered]
    end
  else Ok gathered_embed.

(** Lines 132-237: [all_mpnn_embed] after the gather loop. *)
Definition gathered_embeds (bo : backbone_out structure) (inp : batch structure)
  : result (list (tensor float)) :=
  f <- multi_features bo inp ;;
  mapM (slot_embed f (mut_positions inp))
       (seq 0 (last_dim (shape (mut_mutant_AAs inp)))).

(** Lines 239-270: the learned aggregation.  As the constructor is written
    (lines 82-86) [nn.Sequential] is handed a Python list, which torch
    refuses with a [TypeError], so a model with the aggregation ['mpnn']
    cannot be built by [__init__]: these lines run only on a model whose
    [self.aggregator] was set by other means, which the collaborators
    [aggregator_in], [aggregator_masked] and [aggregator_others] stand
    for. *)
Definition aggregate_mpnn (inp : batch structure)
  (all_mpnn_embed : list (tensor float)) : result (tensor float) :=
  mask <- padding_mask (mut_mutant_AAs inp) (mut_wildtype_AAs inp)
                       (mut_positions inp) ;;
  _ <- assert_first_visible mask ;;
  mask <- expand_mask mask (message_size cfg) ;;
  all_mpnn_embed <-
    (if last_dim (shape mask) =? 1 then
       match all_mpnn_embed with
       | [] => Raise IndexError
       | e0 :: rest =>
           let e0 := aggregator_in M e0 in
           let zeros :=
             tmap (fun _ : bool => Fin 0%Qc) (squeeze mask (rank mask - 1)) in
           Ok (aggregator_masked M e0 e0 zeros :: rest)
       end
     else
       let embs := map (aggregator_in M) all_mpnn_embed in
       Ok (map (fun i =>
                  aggregator_others M
                    (nth i embs (full 0 NaN))
                    (map (fun ia => nth ia embs (full 0 NaN))
                         (filter (fun ia => negb (ia =? i))
                                 (seq 0 (length embs)))))
               (seq 0 (length embs)))) ;;
  stacked <- stack_last all_mpnn_embed ;;
  filled <- masked_fill stacked mask NInf ;;
  Ok (reduce_last fmaximum filled).

(** Lines 274-277: every gathered embedding goes through light attention,
    which exists only when [cfg.model.lightattn] is set. *)
Definition post_light_attention (all_mpnn_embed : list (tensor float))
  : result (list (tensor float)) :=
  mapM (fun emb =>
          if lightattn cfg
          then Ok (light_attention M (unsqueeze_last emb))
          else Raise AttributeError)
       all_mpnn_embed.

(** Lines 279-300: masking and reduction of the stacked embeddings. *)
Definition aggregate_simple (inp : batch structure)
  (all_mpnn_embed : list (tensor float)) : result (tensor float) :=
  stacked <- stack_last all_mpnn_embed ;;
  mask <- padding_mask (mut_mutant_AAs inp) (mut_wildtype_AAs inp)
                       (mut_positions inp) ;;
  _ <- assert_first_visible mask ;;
  mask <- expand_mask mask (size stacked 1) ;;
  if is_str (aggregation cfg) "mean" then
    filled <- masked_fill stacked mask NaN ;;
    Ok (reduce_last nanmean filled)
  else if is_str (aggregation cfg) "sum" then
    filled <- masked_fill stacked mask (Fin 0%Qc) ;;
    Ok (reduce_last fsum filled)
  else if is_str (aggregation cfg) "prod" then
    filled <- masked_fill stacked mask (Fin 1%Qc) ;;
    Ok (reduce_last fprod filled)
  else if is_str (aggregation cfg) "max" then
    filled <- masked_fill stacked mask NInf ;;
    Ok (reduce_last fmaximum filled)
  else Raise (ValueError "Invalid aggregation function selected").

(** Lines 131-300: the multi-mutation branch. *)
Definition forward_multi (bo : backbone_out structure) (inp : batch structure)
  : result (tensor float) :=
  all_mpnn_embed <- gathered_embeds bo inp ;;
  if is_str (aggregation cfg) "mpnn" then aggregate_mpnn inp all_mpnn_embed
  else
    all_mpnn_embed <- post_light_attention all_mpnn_embed ;;
    aggregate_simple inp all_mpnn_embed.

(** Lines 304-325: the per-residue embedding of the single-mutation branch,
    with [all_mpnn_hid] as it is bound afterwards ([None]: still the list). *)
Definition single_embeds (bo : backbone_out structure) (inp : batch structure)
  : result (tensor float * option (tensor float)) :=
  side <- side_chain_embeds bo ;;
  if (0 <? num_final_layers cfg)%Z then
    hid <- cat_last (firstn (Z.to_nat (num_final_layers cfg)) (all_mpnn_hid bo)) ;;
    mut_embed <-
      (if mutant_embedding cfg then
         col <- select (mut_mutant_AAs inp) 1 0 ;; Ok [W_s M col]
       else Ok []) ;;
    self_edges <-
      (if edges cfg then e <- select (mpnn_edges bo) 2 0 ;; Ok [e] else Ok []) ;;
    let side_l := match side with Some s => [s] | None => [] end in
    emb <- cat_last ([hid; mpnn_embed bo] ++ mut_embed ++ self_edges ++ side_l) ;;
    Ok (emb, Some hid)
  else
    emb <- cat_last [mpnn_embed bo] ;;
    Ok (emb, None).

(** Lines 302-344: the single-mutation branch. *)
Definition forward_single (bo : backbone_out structure) (inp : batch structure)
  : result (tensor float) :=
  '(emb, hid) <- single_embeds bo inp ;;
  emb <- gather_rows emb (mut_positions inp) ;;
  emb <-
    (if is_str (auxiliary_embedding cfg) "globalMPNN" then
       match hid with
       | None => Raise TypeError
       | Some h => cat_last [emb; global_embed M h]
       end
     else Ok emb) ;;
  emb <-
    (if is_str (auxiliary_embedding cfg) "localESM" then
       match esm_emb inp with
       | None => Raise AttributeError
       | Some esm =>
           e <- gather_rows esm (mut_positions inp) ;; cat_last [emb; e]
       end
     else Ok emb) ;;
  if lightattn cfg then Ok (light_attention M (unsqueeze_last emb))
  else Ok emb.

(** Lines 117-344: [mpnn_embed] as it is handed to the prediction head. *)
Definition combined_embedding (inp : batch structure) : result (tensor float) :=
  bo <- run_backbone inp ;;
  if multi_mutations cfg then forward_multi bo inp
  else forward_single bo inp.

(** Lines 348-354: the indexing of the head's output. *)
Definition index_ddg (ddg : tensor float) (inp : batch structure)
  : result (tensor float) :=
  if subtract_mut cfg then
    m <- gather ddg 1 (mut_mutant_AAs inp) ;;
    w <- gather ddg 1 (mut_wildtype_AAs inp) ;;
    broadcast2 fsub m w
  else if single_target cfg then Ok ddg
  else gather ddg 1 (mut_mutant_AAs inp).

Definition forward (inp : batch structure) : result (tensor float) :=
  emb <- combined_embedding inp ;;
  index_ddg (ddg_out M emb) inp.

End Forward.

(* ================================================================== *)
(** * Notions used in the statements *)

(** Slot [i] of sample [b] is padding: its three entries sum to zero, the
    sum being taken as the code takes it. *)
Definition slot_masked {structure} (inp : batch structure) (b i : nat) : bool :=
  (add64 (add64 (data (mut_mutant_AAs inp) [b; i])
                (data (mut_wildtype_AAs inp) [b; i]))
         (data (mut_positions inp) [b; i]) =? 0)%Z.

(** The mutation tensors of a batch of [B] samples with [N] slots each. *)
Definition mutations_shaped {structure} (inp : batch structure) (B N : nat) : Prop :=
  shape (mut_positions inp) = [B; N] /\
  shape (mut_wildtype_AAs inp) = [B; N] /\
  shape (mut_mutant_AAs inp) = [B; N].

(** The reduction that an aggregation name selects. *)
Definition reduction (name : string) : list float -> float :=
  if String.eqb name "mean" then nanmean
  else if String.eqb name "sum" then fsum
  else if String.eqb name "prod" then fprod
  else fmaximum.

(** The non-learned aggregations, and all the aggregations of [forward]. *)
Definition simple_aggregation (name : string) : bool :=
  String.eqb name "mean" || String.eqb name "sum"
  || String.eqb name "prod" || String.eqb name "max".

Definition known_aggregation (name : string) : bool :=
  String.eqb name "mpnn" || simple_aggregation name.

(** [g] has the rows of [g0] as the first [E] columns of its rows. *)
Definition starts_with (B E : nat) (g0 g : tensor float) : Prop :=
  exists E', shape g = [B; E'] /\ E <= E' /\
             forall b e, e < E -> data g [b; e] = data g0 [b; e].

(** The first of the [K] neighbours listed for sample [b] in [nbrs] that is
    the position of mutation [n_o]. *)
Definition first_neighbour (nbrs pos : tensor Z) (K b n_o : nat) : option nat :=
  find (fun k => (data nbrs [b; k] =? data pos [b; n_o])%Z) (seq 0 K).

(** The mutations other than [n]. *)
Definition others (N n : nat) : list nat :=
  filter (fun a => negb (a =? n)) (seq 0 N).

(** The first of the [K] nearest neighbours, in [E_idx], of the residue that
    mutation [n] of sample [b] sits on that is the position of mutation
    [n_o]; [None] when that position is not among them. *)
Definition neighbour_slot (E_idx pos : tensor Z) (K b n n_o : nat)
  : option nat :=
  find (fun k => (data E_idx [b; Z.to_nat (data pos [b; n]); k]
                  =? data pos [b; n_o])%Z)
       (seq 0 K).

Definition is_some {A} (o : option A) : bool :=
  match o with
  | Some _ => true
  | None => false
  end.

(** The edge from mutation [n] of sample [b] to mutation [n_o] in channel
    [c], as it is read from the backbone's edge tensor [edg]: NaN when the
    position of [n_o] is not a neighbour. *)
Definition edge_to (E_idx pos : tensor Z) (edg : tensor float)
  (K b n c n_o : nat) : float :=
  match neighbour_slot E_idx pos K b n n_o with
  | Some k => data edg [b; Z.to_nat (data pos [b; n]); k; c]
  | None => NaN
  end.

(** A configuration with both pairwise features switched off. *)
Definition no_pair_features (cfg : Cfg) : Cfg := {|
  aggregation := aggregation cfg;
  num_final_layers := num_final_layers cfg;
  hidden_dims := hidden_dims cfg;
  dropout := dropout cfg;
  lightattn := lightattn cfg;
  dist := false;
  edges := false;
  mutant_embedding := mutant_embedding cfg;
  side_chain_module := side_chain_module cfg;
  auxiliary_embedding := auxiliary_embedding cfg;
  subtract_mut := subtract_mut cfg;
  single_target := single_target cfg
|}.

(** The collaborators with other distance computations. *)
Definition with_distances {structure} (M : Modules structure)
  (pd : structure -> tensor Z -> tensor Z -> option (tensor float))
  (dn : tensor float -> tensor float) : Modules structure := {|
  prot_mpnn := prot_mpnn M;
  nan_to_num_X := nan_to_num_X M;
  backbone_atoms := backbone_atoms M;
  _get_cbeta := _get_cbeta M;
  _dist_E_idx := _dist_E_idx M;
  pair_distances := pd;
  W_s := W_s M;
  side_chain_features := side_chain_features M;
  light_attention := light_attention M;
  aggregator_in := aggregator_in M;
  aggregator_masked := aggregator_masked M;
  aggregator_others := aggregator_others M;
  dist_norm := dn;
  ddg_out := ddg_out M;
  global_embed := global_embed M
|}.

(** The exceptions raised by the tensor library and by Python itself, as
    opposed to the two checks that [forward] makes on its own. *)
Definition library_error (e : exn) : Prop :=
  match e with
  | AssertionError | ValueError _ => False
  | _ => True
  end.

(** A result that, when it raises, raises an exception in [P]. *)
Definition raises_only {A} (P : exn -> Prop) (r : result A) : Prop :=
  match r with
  | Ok _ => True
  | Raise e => P e
  end.

(** The message of the only [ValueError] that [forward] raises itself. *)
Definition invalid_aggregation : string :=
  "Invalid aggregation function selected".

(** An exception that is not a [ValueError], or is the one that rejects an
    aggregation name outside the five known ones. *)
Definition value_error_justified (cfg : Cfg) (e : exn) : Prop :=
  match e with
  | ValueError msg =>
      msg = invalid_aggregation /\
      exists name, aggregation cfg = Some name /\ known_aggregation name = false
  | _ => True
  end.

Section Stages.

Variable structure : Type.
Variable M : Modules structure.
Variable cfg : Cfg.

(** The embeddings of the mutation slots after light attention: lines
    117-277 of [forward] on the non-learned multi-mutation path. *)
Definition post_la_embeds (inp : batch structure)
  : result (list (tensor float)) :=
  bo <- run_backbone M cfg inp ;;
  all_mpnn_embed <- gathered_embeds M cfg bo inp ;;
  post_light_attention M cfg all_mpnn_embed.

(** Everything that the multi-mutation branch does before it reaches the
    assertion on the first slot: up to line 237 when the aggregation is
    ['mpnn'], up to line 279 otherwise. *)
Definition before_assertion (inp : batch structure)
  : result (list (tensor float)) :=
  bo <- run_backbone M cfg inp ;;
  all_mpnn_embed <- gathered_embeds M cfg bo inp ;;
  if is_str (aggregation cfg) "mpnn" then Ok all_mpnn_embed
  else
    all_mpnn_embed <- post_light_attention M cfg all_mpnn_embed ;;
    _ <- stack_last all_mpnn_embed ;;
    Ok all_mpnn_embed.

End Stages.

(** The value of a result that is known to be [Ok]. *)
Definition value {A} (d : A) (r : result A) : A :=
  match r with
  | Ok a => a
  | Raise _ => d
  end.

(** The reduced fraction of a finite value, to read results off. *)
Definition rational (x : float) : option Q :=
  match x with
  | Fin q => Some (this q)
  | _ => None
  end.

(* ================================================================== *)
(** * A small instance, to run the model *)

Definition fin (z : Z) : float := Fin (Q2Qc (inject_Z z)).

(** The decimal number whose digits are the coordinates of an index. *)
Definition tag (ix : list nat) : float :=
  fin (Z.of_nat (fold_left (fun a i => 10 * a + i) ix 0)).

(** Collaborators over structures that only record the batch size and the
    sequence length.  Embeddings have two channels, every residue has three
    neighbours (itself and the next two, cyclically), and an entry of an
    embedding tensor spells out its own index behind a leading digit. *)
Definition toy_modules (vocab : nat) : Modules (nat * nat) := {|
  prot_mpnn := fun '(B, L) _ =>
    ([mkT [B; L; 2] (fun ix => tag (1 :: ix))],
     mkT [B; L; 2] (fun ix => tag (2 :: ix)),
     mkT [B; L; 3; 2] (fun ix => tag (3 :: ix)));
  nan_to_num_X := fun x => x;
  backbone_atoms := fun x => x;
  _get_cbeta := fun x => x;
  _dist_E_idx := fun '(B, L) =>
    mkT [B; L; 3] (fun ix => Z.of_nat ((nth 1 ix 0 + nth 2 ix 0) mod L));
  pair_distances := fun '(B, L) _ _ => Some (mkT [B; 25] (fun _ => fin 1));
  W_s := fun c => mkT (shape c ++ [2]) (fun ix => fin (data c (removelast ix)));
  side_chain_features := fun '(B, L) _ _ =>
    mkT [B; L; 2] (fun ix => tag (4 :: ix));
  light_attention := fun t =>
    mkT (removelast (shape t)) (fun ix => data t (ix ++ [0]));
  aggregator_in := fun t => t;
  aggregator_masked := fun a _ _ => a;
  aggregator_others := fun a _ => a;
  dist_norm := fun t => t;
  ddg_out := fun t =>
    mkT (removelast (shape t) ++ [vocab])
        (fun ix => fadd (data t (removelast ix ++ [0]))
                        (fin (Z.of_nat (last ix 0))));
  global_embed := fun t => mkT [size t 0; 2] (fun _ => fin 0)
|}.

(** A configuration with light attention and nothing else enabled. *)
Definition toy_cfg (agg : option string) : Cfg := {|
  aggregation := agg;
  num_final_layers := 1;
  hidden_dims := [64; 32]%Z;
  dropout := None;
  lightattn := true;
  dist := false;
  edges := false;
  mutant_embedding := false;
  side_chain_module := false;
  auxiliary_embedding := None;
  subtract_mut := false;
  single_target := false
|}.

(** A single-mutation configuration with the two output flags as given. *)
Definition toy_head_cfg (subtract single : bool) : Cfg := {|
  aggregation := None;
  num_final_layers := 1;
  hidden_dims := [64; 32]%Z;
  dropout := None;
  lightattn := true;
  dist := false;
  edges := false;
  mutant_embedding := false;
  side_chain_module := false;
  auxiliary_embedding := None;
  subtract_mut := subtract;
  single_target := single
|}.

(** A multi-mutation configuration with both pairwise features enabled. *)
Definition toy_pair_cfg : Cfg := {|
  aggregation := Some "sum"%string;
  num_final_layers := 1;
  hidden_dims := [64; 32]%Z;
  dropout := None;
  lightattn := true;
  dist := true;
  edges := true;
  mutant_embedding := false;
  side_chain_module := false;
  auxiliary_embedding := None;
  subtract_mut := false;
  single_target := false
|}.

(** Two proteins of four residues; the first carries a double mutation, the
    second a single mutation followed by a padding slot. *)
Definition toy_batch : batch (nat * nat) := {|
  X := (2, 4);
  S := of_rows 0%Z [[1; 2; 3; 4]; [5; 6; 7; 8]]%Z;
  mut_positions := of_rows 0%Z [[1; 2]; [3; 0]]%Z;
  mut_wildtype_AAs := of_rows 0%Z [[2; 3]; [8; 0]]%Z;
  mut_mutant_AAs := of_rows 0%Z [[5; 6]; [7; 0]]%Z;
  esm_emb := None
|}.

(** The same two proteins with one mutation each. *)
Definition toy_single_batch : batch (nat * nat) := {|
  X := (2, 4);
  S := of_rows 0%Z [[1; 2; 3; 4]; [5; 6; 7; 8]]%Z;
  mut_positions := of_rows 0%Z [[1]; [3]]%Z;
  mut_wildtype_AAs := of_rows 0%Z [[2]; [8]]%Z;
  mut_mutant_AAs := of_rows 0%Z [[5]; [7]]%Z;
  esm_emb := None
|}.

(** The first protein now carries a first mutation made of zeros only:
    position 0, wild-type index 0, mutant index 0. *)
Definition toy_zero_first_batch : batch (nat * nat) := {|
  X := (2, 4);
  S := of_rows 0%Z [[0; 2; 3; 4]; [5; 6; 7; 8]]%Z;
  mut_positions := of_rows 0%Z [[0; 2]; [3; 0]]%Z;
  mut_wildtype_AAs := of_rows 0%Z [[0; 3]; [8; 0]]%Z;
  mut_mutant_AAs := of_rows 0%Z [[0; 6]; [7; 0]]%Z;
  esm_emb := None
|}.

(** One protein whose only mutation has wild-type and mutant index 0. *)
Definition toy_alanine_batch : batch (nat * nat) := {|
  X := (1, 4);
  S := of_rows 0%Z [[0; 2; 3; 4]]%Z;
  mut_positions := of_rows 0%Z [[2]]%Z;
  mut_wildtype_AAs := of_rows 0%Z [[0]]%Z;
  mut_mutant_AAs := of_rows 0%Z [[0]]%Z;
  esm_emb := None
|}.

(** The state after the backbone of [toy_modules] has run on [toy_batch]. *)
Definition toy_backbone_out : backbone_out (nat * nat) := {|
  b_X := (2, 4);
  b_S := of_rows 0%Z [[1; 2; 3; 4]; [5; 6; 7; 8]]%Z;
  all_mpnn_hid := [mkT [2; 4; 2] (fun ix => tag (1 :: ix))];
  mpnn_embed := mkT [2; 4; 2] (fun ix => tag (2 :: ix));
  mpnn_edges := mkT [2; 4; 3; 2] (fun ix => tag (3 :: ix))
|}.

(** The backbone state of [toy_backbone_out] with edges of 128 channels. *)
Definition toy_backbone_out_128 : backbone_out (nat * nat) := {|
  b_X := (2, 4);
  b_S := of_rows 0%Z [[1; 2; 3; 4]; [5; 6; 7; 8]]%Z;
  all_mpnn_hid := [mkT [2; 4; 2] (fun ix => tag (1 :: ix))];
  mpnn_embed := mkT [2; 4; 2] (fun ix => tag (2 :: ix));
  mpnn_edges := mkT [2; 4; 3; 128] (fun ix => tag (3 :: ix))
|}.

(** A batch on which the sum test of [_check_sequence_match] is blind: the
    sequences differ from the wild-type entries at both mutated positions
    (7 against 6, 2 against 3) while the differences cancel. *)
Definition cancelling_S : tensor Z := of_rows 0%Z [[3; 7; 5]; [4; 9; 2]]%Z.
Definition cancelling_pos : tensor Z := of_rows 0%Z [[1]; [2]]%Z.
Definition cancelling_wt : tensor Z := of_rows 0%Z [[6]; [3]]%Z.
Definition cancelling_mut : tensor Z := of_rows 0%Z [[8]; [1]]%Z.

(* ================================================================== *)
(** * Notions used in the further properties *)

(** The plain sum of [f] over a list. *)
Definition Zsum {A} (f : A -> Z) (l : list A) : Z :=
  fold_left (fun s a => (s + f a)%Z) l 0%Z.

(** An integer that a 64-bit tensor can hold. *)
Definition int64 (z : Z) : Prop := (- 2 ^ 63 <= z < 2 ^ 63)%Z.

(** Every sample's position for mutation [k] lies inside a sequence of
    length [L]. *)
Definition positions_ok (pos : tensor Z) (L B k : nat) : bool :=
  forallb (fun b => in_range (data pos [b; k]) L) (seq 0 B).

(** What line 48 sums for mutation [k]: the differences between the sequence
    entry at the mutated position of sample [i] and the wild-type entry of
    sample [j], over all pairs [(i, j)] of samples. *)
Definition difference_sum (S wt pos : tensor Z) (B k : nat) : Z :=
  wrap64
    (Zsum (fun ix =>
             Z.sub (data S [nth 0 ix 0; Z.to_nat (data pos [nth 0 ix 0; k])])
                   (data wt [nth 1 ix 0; k]))
          (indices [B; B])).

(** Every position of each of the [N] mutations lies inside the sequence. *)
Definition all_positions_ok (pos : tensor Z) (L B N : nat) : bool :=
  forallb (positions_ok pos L B) (seq 0 N).

(** [S] already holds the wild type at every mutated position. *)
Definition matches_wildtype (S wt pos : tensor Z) (B N : nat) : Prop :=
  forall b k, b < B -> k < N ->
    data S [b; Z.to_nat (data pos [b; k])] = data wt [b; k].

(** Every entry of a [(B, N)] tensor is a 64-bit integer. *)
Definition int64_entries (t : tensor Z) (B N : nat) : Prop :=
  forall b j, b < B -> j < N -> int64 (data t [b; j]).

(** The entry [(b, j)] after the wild type of each mutation in [ks] has been
    written, in order, at its position; [s] is the entry before. *)
Definition wildtype_written (wt pos : tensor Z) (ks : list nat) (b j : nat)
  (s : Z) : Z :=
  fold_left (fun s k => if j =? Z.to_nat (data pos [b; k])
                        then data wt [b; k] else s)
            ks s.

(** One protein of three residues with two mutations; the sequence differs
    from the wild type at the first mutated position only. *)
Definition lone_S : tensor Z := of_rows 0%Z [[3; 7; 5]]%Z.
Definition lone_pos : tensor Z := of_rows 0%Z [[1; 2]]%Z.
Definition lone_wt : tensor Z := of_rows 0%Z [[6; 5]]%Z.
Definition lone_mut : tensor Z := of_rows 0%Z [[8; 1]]%Z.

(** The width that leaves a layer fed with rows of width [w]; [LayerNorm]
    and [Linear] refuse rows of another width than the one they were built
    for. *)
Definition layer_width (w : Z) (l : layer) : option Z :=
  match l with
  | LayerNorm n => if (n =? w)%Z then Some w else None
  | Dropout _ => Some w
  | ReLU => Some w
  | Linear n_in n_out => if (n_in =? w)%Z then Some n_out else None
  end.

(** The width that leaves an [nn.Sequential]. *)
Fixpoint sequential_width (ls : list layer) (w : Z) : option Z :=
  match ls with
  | [] => Some w
  | l :: ls' =>
      match layer_width w l with
      | Some w' => sequential_width ls' w'
      | None => None
      end
  end.

(** A configuration of the small instance with the given switches. *)
Definition toy_flags_cfg (agg : option string) (layers : Z)
  (la mutant edg dst : bool) (aux : option string) : Cfg := {|
  aggregation := agg;
  num_final_layers := layers;
  hidden_dims := [64; 32]%Z;
  dropout := None;
  lightattn := la;
  dist := dst;
  edges := edg;
  mutant_embedding := mutant;
  side_chain_module := false;
  auxiliary_embedding := aux;
  subtract_mut := false;
  single_target := false
|}.

(* ================================================================== *)
(** * [_get_cbeta] over idealised floats *)

(** The coordinate arithmetic of [_get_cbeta] on a coordinate tensor [X] of
    shape [(B, L, A, 3)].  The three coefficients are taken as the decimal
    fractions written in the source. *)
Module Geometry.

(** [X[:, :, k, :]] *)
Definition atom (X : tensor float) (k : nat) : result (tensor float) :=
  if 4 <=? rank X then select X 2 k else Raise IndexError.

(** [torch.cross(a, b, dim=-1)] *)
Definition cross (a b : tensor float) : result (tensor float) :=
  match broadcast_shape (shape a) (shape b) with
  | None => Raise RuntimeError
  | Some sh =>
      if (last_dim (shape a) =? 3) && (last_dim (shape b) =? 3) then
        Ok (mkT sh
              (fun ix =>
                 let u k := data a (bindex (shape a) (removelast ix ++ [k])) in
                 let v k := data b (bindex (shape b) (removelast ix ++ [k])) in
                 match last ix 0 with
                 | 0 => fsub (fmul (u 1) (v 2)) (fmul (u 2) (v 1))
                 | 1 => fsub (fmul (u 2) (v 0)) (fmul (u 0) (v 2))
                 | _ => fsub (fmul (u 0) (v 1)) (fmul (u 1) (v 0))
                 end))
      else Raise RuntimeError
  end.

(** [k * t] for a Python float [k] *)
Definition scale (k : Qc) (t : tensor float) : tensor float :=
  tmap (fmul (Fin k)) t.

(** [torch.cat([a, b], axis=d)] *)
Definition cat_pair {A} (a b : tensor A) (d : nat) : result (tensor A) :=
  if negb (d <? rank a) then Raise IndexError
  else if (rank a =? rank b)
          && list_eqb (drop_nth d (shape a)) (drop_nth d (shape b))
  then Ok (mkT (set_nth d (shape a) (size a d + size b d))
               (fun ix =>
                  if nth d ix 0 <? size a d then data a ix
                  else data b (set_nth d ix (nth d ix 0 - size a d))))
  else Raise RuntimeError.

Definition k_a : Qc := Q2Qc (58273431 # 100000000).
Definition k_b : Qc := Q2Qc (56802827 # 100000000).
Definition k_c : Qc := Q2Qc (54067466 # 100000000).

Definition _get_cbeta (X : tensor float) : result (tensor float) :=
  x1 <- atom X 1 ;;
  x0 <- atom X 0 ;;
  b <- broadcast2 fsub x1 x0 ;;
  x2 <- atom X 2 ;;
  x1 <- atom X 1 ;;
  c <- broadcast2 fsub x2 x1 ;;
  a <- cross b c ;;
  Cb <- broadcast2 fadd (scale (- k_a)%Qc a) (scale k_b b) ;;
  Cb <- broadcast2 fsub Cb (scale k_c c) ;;
  x1 <- atom X 1 ;;
  Cb <- broadcast2 fadd Cb x1 ;;
  let Cb := unsqueeze Cb 2 in
  cat_pair Cb X 2.

End Geometry.

(** The virtual C-beta of one residue from the coordinates [n], [ca] and
    [c] of its first three atoms: coordinate [i] of
    [-0.58273431 * a + 0.56802827 * b - 0.54067466 * c + ca] with
    [b = ca - n], [c = c - ca] and [a = b x c]. *)
Definition virtual_cbeta (n ca c : nat -> float) (i : nat) : float :=
  let b k := fsub (ca k) (n k) in
  let c' k := fsub (c k) (ca k) in
  let a :=
    match i with
    | 0 => fsub (fmul (b 1) (c' 2)) (fmul (b 2) (c' 1))
    | 1 => fsub (fmul (b 2) (c' 0)) (fmul (b 0) (c' 2))
    | _ => fsub (fmul (b 0) (c' 1)) (fmul (b 1) (c' 0))
    end in
  fadd (fsub (fadd (fmul (Fin (- Geometry.k_a)%Qc) a)
                   (fmul (Fin Geometry.k_b) (b i)))
             (fmul (Fin Geometry.k_c) (c' i)))
       (ca i).

(** One residue with the backbone atoms N, CA, C, O. *)
Definition toy_residue : tensor float :=
  mkT [1; 1; 4; 3]
      (fun ix => fin (nth (3 * nth 2 ix 0 + nth 3 ix 0)
                          [0; 0; 0; 1; 0; 0; 1; 1; 0; 2; 1; 0]%Z 0%Z)).


(** Local variables of the multi-mutation branch for [toy_batch]: embeddings
    of four channels and mutant embeddings of 128 channels. *)
Definition toy_feats : feats := {|
  f_embed := mkT [2; 4; 4] (fun ix => tag (1 :: ix));
  f_mut_embed := Some (mkT [2; 128; 2] (fun ix => tag (2 :: ix)));
  f_edges := mpnn_edges toy_backbone_out;
  f_dist := None;
  f_side := None
|}.

(** A backbone state for [toy_single_batch] with embeddings of the widths
    of ProteinMPNN: 128 channels everywhere. *)
Definition toy_backbone_out_wide : backbone_out (nat * nat) := {|
  b_X := (2, 4);
  b_S := of_rows 0%Z [[1; 2; 3; 4]; [5; 6; 7; 8]]%Z;
  all_mpnn_hid := [mkT [2; 4; 128] (fun ix => tag (1 :: ix))];
  mpnn_embed := mkT [2; 4; 128] (fun ix => tag (2 :: ix));
  mpnn_edges := mkT [2; 4; 3; 128] (fun ix => tag (3 :: ix))
|}.



Unset Implicit Arguments.

(* ================================================================== *)
(** * Facts about the tensor operations *)

Lemma bind_ok {A B} (r : result A) (k : A -> result B) (b : B) :
  bind r k = Ok b -> exists a, r = Ok a /\ k a = Ok b.
Proof.
  destruct r as [a|e]; simpl; intros H; [eauto | discriminate].
Qed.

Lemma list_eqb_true (a b : list nat) : list_eqb a b = true <-> a = b.
Proof.
  unfold list_eqb. destruct (list_eq_dec Nat.eq_dec a b); split; congruence.
Qed.

Lemma list_eqb_refl (a : list nat) : list_eqb a a = true.
Proof. now apply list_eqb_true. Qed.

Lemma indices_spec (sh ix : list nat) :
  In ix (indices sh) <-> Forall2 lt ix sh.
Proof.
  revert ix. induction sh as [|n sh IH]; intros ix; simpl.
  - split.
    + intros [<-|[]]. constructor.
    + intros H. inversion H. now left.
  - rewrite in_flat_map. split.
    + intros (i & Hi & Hin). apply in_map_iff in Hin.
      destruct Hin as (ix' & <- & Hin). apply in_seq in Hi.
      constructor; [lia | now apply IH].
    + intros H. inversion H as [|i n' ix' sh' Hlt Hrest]; subst.
      exists i. split; [apply in_seq; lia |].
      apply in_map. now apply IH.
Qed.

Lemma bindex_in_shape (sh ix : list nat) :
  Forall2 lt ix sh -> bindex sh ix = ix.
Proof.
  intros H. unfold bindex.
  rewrite (Forall2_length H), Nat.sub_diag. simpl.
  induction H as [|i n ix sh Hlt _ IH]; simpl; [reflexivity|].
  rewrite IH. destruct (Nat.eqb_spec n 1); [f_equal; lia | reflexivity].
Qed.

Lemma bshape_rev_same (l : list nat) : bshape_rev l l = Some l.
Proof.
  induction l as [|x l IH]; simpl; [reflexivity|].
  now rewrite IH, Nat.eqb_refl.
Qed.

Lemma broadcast_shape_same (sh : list nat) : broadcast_shape sh sh = Some sh.
Proof.
  unfold broadcast_shape. rewrite bshape_rev_same. simpl.
  now rewrite rev_involutive.
Qed.

Lemma forallb_indices (P : list nat -> bool) (sh : list nat) :
  forallb P (indices sh) = true <-> (forall ix, Forall2 lt ix sh -> P ix = true).
Proof.
  rewrite forallb_forall. split; intros H ix Hix; apply H; now apply indices_spec.
Qed.

(** [gather] succeeds exactly on a well-shaped index whose entries are in
    range, and then reads [input] along [dim] at the indexed place. *)
Lemma gather_ok {A} (input : tensor A) (dim : nat) (index : tensor Z) :
  dim < rank input ->
  dims_le 0 dim (shape index) (shape input) = true ->
  (forall ix, Forall2 lt ix (shape index) ->
              in_range (data index ix) (size input dim) = true) ->
  gather input dim index =
  Ok (mkT (shape index)
          (fun ix => data input (set_nth dim ix (Z.to_nat (data index ix))))).
Proof.
  intros Hd Hs Hr. unfold gather.
  apply Nat.ltb_lt in Hd. rewrite Hd, Hs. simpl.
  apply forallb_indices in Hr. now rewrite Hr.
Qed.

Lemma gather_inv {A} (input : tensor A) (dim : nat) (index : tensor Z) g :
  gather input dim index = Ok g ->
  g = mkT (shape index)
          (fun ix => data input (set_nth dim ix (Z.to_nat (data index ix)))) /\
  (forall ix, Forall2 lt ix (shape index) ->
              in_range (data index ix) (size input dim) = true).
Proof.
  unfold gather. destruct (negb _); [discriminate|].
  destruct (forallb _ _) eqn:Hf; [|discriminate].
  intros H. injection H as <-. split; [reflexivity|].
  now apply forallb_indices.
Qed.

Lemma expand_shape_rev_ok (old new : list nat) :
  Forall2 (fun o n => o = n \/ o = 1) old new ->
  expand_shape_rev old (map Z.of_nat new) = Some new.
Proof.
  induction 1 as [|o n old new Hon _ IH]; simpl; [reflexivity|].
  rewrite IH.
  destruct (Z.eqb_spec (Z.of_nat n) (-1)); [lia|].
  destruct (Z.ltb_spec (Z.of_nat n) 0); [lia|].
  rewrite Nat2Z.id.
  destruct Hon as [->| ->]; [now rewrite Nat.eqb_refl | now rewrite orb_true_r].
Qed.

Lemma Forall2_rev' {A B} (R : A -> B -> Prop) (l : list A) (l' : list B) :
  Forall2 R l l' -> Forall2 R (rev l) (rev l').
Proof.
  induction 1; simpl; [constructor|].
  apply Forall2_app; [assumption | now repeat constructor].
Qed.

Lemma expand_ok {A} (t : tensor A) (new : list nat) :
  Forall2 (fun o n => o = n \/ o = 1) (shape t) new ->
  expand t (map Z.of_nat new) =
  Ok (mkT new (fun ix => data t (bindex (shape t) ix))).
Proof.
  intros H. unfold expand.
  rewrite <- map_rev, (expand_shape_rev_ok _ _ (Forall2_rev' _ _ _ H)).
  now rewrite rev_involutive.
Qed.

Lemma in_shape2 (b i B N : nat) : b < B -> i < N -> Forall2 lt [b; i] [B; N].
Proof. repeat constructor; assumption. Qed.

Lemma in_shape3 (b j e B N E : nat) :
  b < B -> j < N -> e < E -> Forall2 lt [b; j; e] [B; N; E].
Proof. repeat constructor; assumption. Qed.

Lemma in_shape2_inv (ix : list nat) (B N : nat) :
  Forall2 lt ix [B; N] -> exists b i, ix = [b; i] /\ b < B /\ i < N.
Proof.
  intros H. inversion H as [|b ? ix1 ? Hb H1]; subst.
  inversion H1 as [|i ? ix2 ? Hi H2]; subst. inversion H2; subst. eauto.
Qed.

Lemma in_shape3_inv (ix : list nat) (B N E : nat) :
  Forall2 lt ix [B; N; E] ->
  exists b i e, ix = [b; i; e] /\ b < B /\ i < N /\ e < E.
Proof.
  intros H. inversion H as [|b ? ix1 ? Hb H1]; subst.
  apply in_shape2_inv in H1. destruct H1 as (i & e & -> & Hi & He).
  exists b, i, e. auto.
Qed.

Lemma bindex_B11 (B b j e : nat) :
  b < B -> bindex [B; 1; 1] [b; j; e] = [b; 0; 0].
Proof.
  intros Hb. unfold bindex. simpl.
  destruct (Nat.eqb_spec B 1); [f_equal; lia | reflexivity].
Qed.

(** The rows gathered by [gather_rows]: row [b] of the result is the row of
    [t] at the position that [cp] holds for sample [b]. *)
Lemma gather_rows_spec (t : tensor float) (cp : tensor Z) (B L E : nat) :
  shape t = [B; L; E] ->
  shape cp = [B; 1] ->
  (forall b, b < B -> in_range (data cp [b; 0]) L = true) ->
  exists g,
    gather_rows t cp = Ok g /\ shape g = [B; E] /\
    forall b e, b < B -> e < E ->
      data g [b; e] = data t [b; Z.to_nat (data cp [b; 0]); e].
Proof.
  intros Ht Hcp Hr. unfold gather_rows, size. rewrite Ht, Hcp. simpl nth.
  rewrite expand_ok.
  2:{ simpl. rewrite Hcp. simpl.
      constructor; [now left|]. constructor; [now left|].
      constructor; [now right | constructor]. }
  simpl bind. rewrite gather_ok.
  - simpl bind. eexists. split; [reflexivity|]. split; [reflexivity|].
    intros b e Hb He. unfold squeeze, unsqueeze_last, set_nth, insert_nth.
    cbn -[bindex]. rewrite Hcp. cbn -[bindex].
    rewrite bindex_B11 by assumption. reflexivity.
  - unfold rank. rewrite Ht. simpl. lia.
  - rewrite Ht. simpl. now rewrite !Nat.leb_refl.
  - intros ix Hix. simpl in Hix. apply in_shape3_inv in Hix.
    destruct Hix as (b & j & e & -> & Hb & Hj & He).
    unfold size, unsqueeze_last. rewrite Ht.
    cbn -[bindex in_range]. rewrite Hcp. cbn -[bindex in_range].
    rewrite bindex_B11 by assumption. now apply Hr.
Qed.

Lemma gather_rows_inv (t : tensor float) (cp : tensor Z) (B L E : nat) g :
  shape t = [B; L; E] ->
  shape cp = [B; 1] ->
  gather_rows t cp = Ok g ->
  shape g = [B; E] /\
  forall b e, b < B -> e < E ->
    in_range (data cp [b; 0]) L = true /\
    data g [b; e] = data t [b; Z.to_nat (data cp [b; 0]); e].
Proof.
  intros Ht Hcp. unfold gather_rows, size. rewrite Ht, Hcp. simpl nth.
  rewrite expand_ok.
  2:{ simpl. rewrite Hcp. simpl.
      constructor; [now left|]. constructor; [now left|].
      constructor; [now right | constructor]. }
  simpl bind. intros H. apply bind_ok in H. destruct H as (g0 & Hg & H).
  injection H as <-. apply gather_inv in Hg. destruct Hg as [-> Hr].
  split; [reflexivity|]. intros b e Hb He.
  specialize (Hr [b; 0; e] (in_shape3 _ _ _ _ _ _ Hb Nat.lt_0_1 He)).
  revert Hr. unfold squeeze, unsqueeze_last, set_nth, insert_nth, size.
  rewrite Ht. cbn -[bindex in_range]. rewrite Hcp. cbn -[bindex in_range].
  rewrite bindex_B11 by assumption. auto.
Qed.

Lemma slice_column (pos : tensor Z) (B N i : nat) :
  shape pos = [B; N] -> i < N ->
  shape (slice pos 1 i (i + 1)) = [B; 1] /\
  forall b, data (slice pos 1 i (i + 1)) [b; 0] = data pos [b; i].
Proof.
  intros Hp Hi. unfold slice, size, set_nth. rewrite Hp. cbn.
  replace (Nat.min i N) with i by lia.
  replace (Nat.max i (Nat.min (i + 1) N) - i) with 1 by lia.
  split; [reflexivity|]. intros b. now rewrite Nat.add_0_r.
Qed.

(** A concatenation keeps its first block in place. *)
Lemma cat_last_first (g : tensor float) (rest : list (tensor float)) r (B E : nat) :
  shape g = [B; E] ->
  cat_last (g :: rest) = Ok r ->
  shape r = [B; E + list_sum (map (fun t => last_dim (shape t)) rest)] /\
  forall b e, e < E -> data r [b; e] = data g [b; e].
Proof.
  intros Hg. unfold cat_last. destruct (_ && _); [|discriminate].
  intros H. injection H as <-. cbn [shape data map list_sum].
  rewrite Hg. split; [reflexivity|].
  intros b e He. cbn [last removelast last_dim].
  apply Nat.ltb_lt in He. now rewrite He.
Qed.

Lemma mapM_ok {A B} (f : A -> result B) (l : list A) (r : list B) :
  mapM f l = Ok r -> Forall2 (fun a b => f a = Ok b) l r.
Proof.
  revert r. induction l as [|a l IH]; simpl; intros r H.
  - injection H as <-. constructor.
  - apply bind_ok in H. destruct H as (b & Hb & H).
    apply bind_ok in H. destruct H as (bs & Hbs & H).
    injection H as <-. constructor; auto.
Qed.

Lemma Forall2_nth_seq {B} (P : nat -> B -> Prop) (s n : nat) (r : list B) :
  Forall2 P (seq s n) r ->
  length r = n /\ forall i d, i < n -> P (s + i) (nth i r d).
Proof.
  revert s r. induction n as [|n IH]; simpl; intros s r H.
  - inversion H. split; [reflexivity | intros; lia].
  - inversion H as [|? b ? r' Hb Hr]; subst.
    destruct (IH _ _ Hr) as [Hlen Hnth]. split; [simpl; lia|].
    intros [|i] d Hi; simpl.
    + now rewrite Nat.add_0_r.
    + replace (s + Datatypes.S i) with (Datatypes.S s + i) by lia.
      apply Hnth. lia.
Qed.

Lemma mapM_seq {B} (f : nat -> result B) (n : nat) (r : list B) :
  mapM f (seq 0 n) = Ok r ->
  length r = n /\ forall i d, i < n -> f i = Ok (nth i r d).
Proof.
  intros H. apply mapM_ok in H.
  apply (Forall2_nth_seq (fun a b => f a = Ok b)) in H. exact H.
Qed.

Lemma starts_with_refl (B E : nat) (g : tensor float) :
  shape g = [B; E] -> starts_with B E g g.
Proof. intros H. exists E. auto. Qed.

Lemma starts_with_cat (B E : nat) (g0 g x r : tensor float) :
  starts_with B E g0 g -> cat_last [g; x] = Ok r -> starts_with B E g0 r.
Proof.
  intros (E' & Hs & Hle & Hd) H.
  destruct (@cat_last_first g [x] r B E' Hs H) as [Hr Hp].
  eexists. split; [exact Hr|]. split; [lia|].
  intros b e He. rewrite Hp by lia. now apply Hd.
Qed.

Section SlotEmbed.

Variable structure : Type.
Variable M : Modules structure.
Variable cfg : Cfg.

Lemma slot_embed_starts_with (f : feats) (pos : tensor Z) (i B L E N : nat) g :
  shape (f_embed f) = [B; L; E] ->
  shape pos = [B; N] ->
  i < N ->
  slot_embed M cfg f pos i = Ok g ->
  exists g0,
    gather_rows (f_embed f) (slice pos 1 i (i + 1)) = Ok g0 /\
    starts_with B E g0 g.
Proof.
  intros Hf Hp Hi H. unfold slot_embed in H.
  apply bind_ok in H. destruct H as (g0 & Hg0 & H).
  exists g0. split; [exact Hg0|].
  destruct (@slice_column pos B N i Hp Hi) as [Hsl _].
  destruct (@gather_rows_inv _ _ B L E g0 Hf Hsl Hg0) as [Hs0 _].
  apply bind_ok in H. destruct H as (g1 & Hg1 & H).
  apply bind_ok in H. destruct H as (g2 & Hg2 & H).
  assert (H1 : starts_with B E g0 g1).
  { destruct (mutant_embedding cfg).
    - destruct (f_mut_embed f); [|discriminate].
      apply bind_ok in Hg1. destruct Hg1 as (m & _ & Hg1).
      eapply starts_with_cat; [|exact Hg1]. now apply starts_with_refl.
    - injection Hg1 as <-. now apply starts_with_refl. }
  assert (H2 : starts_with B E g0 g2).
  { destruct (edges cfg).
    - apply bind_ok in Hg2. destruct Hg2 as (m & _ & Hg2).
      eapply starts_with_cat; eassumption.
    - destruct (dist cfg).
      + destruct (f_dist f); [|discriminate].
        apply bind_ok in Hg2. destruct Hg2 as (m & _ & Hg2).
        eapply starts_with_cat; eassumption.
      + now injection Hg2 as <-. }
  destruct (side_chain_module cfg).
  - destruct (f_side f); [|discriminate].
    apply bind_ok in H. destruct H as (m & _ & H).
    eapply starts_with_cat; eassumption.
  - now injection H as <-.
Qed.

End SlotEmbed.
(** ** Neutral values of the reductions *)

Lemma fadd_0_r (x : float) : fadd x (Fin 0%Qc) = x.
Proof. destruct x; simpl; try reflexivity. now rewrite Qcplus_0_r. Qed.

Lemma fmul_1_r (x : float) : fmul x (Fin 1%Qc) = x.
Proof. destruct x; simpl; try reflexivity. now rewrite Qcmult_1_r. Qed.

Lemma fmax_NInf_r (x : float) : fmax x NInf = x.
Proof. destruct x; reflexivity. Qed.

Section MaskedReductions.

Variable m : nat -> bool.
Variable g : nat -> float.

Let kept (l : list nat) : list float :=
  map g (filter (fun k => negb (m k)) l).

Lemma fold_masked (op : float -> float -> float) (v : float) :
  (forall x, op x v = x) ->
  forall l acc,
    fold_left op (map (fun k => if m k then v else g k) l) acc =
    fold_left op (kept l) acc.
Proof.
  intros Hv. unfold kept. induction l as [|k l IH]; intros acc; simpl; [reflexivity|].
  destruct (m k); simpl; [rewrite Hv|]; apply IH.
Qed.

Lemma fsum_masked (l : list nat) :
  fsum (map (fun k => if m k then Fin 0%Qc else g k) l) = fsum (kept l).
Proof. apply fold_masked, fadd_0_r. Qed.

Lemma fprod_masked (l : list nat) :
  fprod (map (fun k => if m k then Fin 1%Qc else g k) l) = fprod (kept l).
Proof. apply fold_masked, fmul_1_r. Qed.

Lemma fmaximum_masked (k0 : nat) (l : list nat) :
  m k0 = false ->
  fmaximum (map (fun k => if m k then NInf else g k) (k0 :: l)) =
  fmaximum (kept (k0 :: l)).
Proof.
  intros H0. unfold kept. simpl. rewrite H0. simpl.
  apply fold_masked, fmax_NInf_r.
Qed.

Lemma nansum_masked (l : list nat) :
  nansum (map (fun k => if m k then NaN else g k) l) = nansum (kept l).
Proof.
  unfold nansum, kept, fsum. generalize (Fin 0%Qc) at 2 4.
  induction l as [|k l IH]; intros acc; simpl; [reflexivity|].
  destruct (m k); simpl; [rewrite fadd_0_r|]; apply IH.
Qed.

Lemma count_not_nan_masked (l : list nat) :
  count_not_nan (map (fun k => if m k then NaN else g k) l) =
  count_not_nan (kept l).
Proof.
  unfold count_not_nan, kept. induction l as [|k l IH]; simpl; [reflexivity|].
  destruct (m k); simpl; [exact IH|].
  destruct (is_nan (g k)); simpl; now rewrite IH.
Qed.

Lemma nanmean_masked (l : list nat) :
  nanmean (map (fun k => if m k then NaN else g k) l) = nanmean (kept l).
Proof. unfold nanmean. now rewrite nansum_masked, count_not_nan_masked. Qed.

End MaskedReductions.

Lemma nanmean_no_nan (l : list float) :
  Forall (fun x => is_nan x = false) l -> nanmean l = fmean l.
Proof.
  intros H. unfold nanmean, fmean, nansum, count_not_nan.
  replace (map (fun x => if is_nan x then Fin 0%Qc else x) l) with l.
  - f_equal. f_equal. induction H as [|x l Hx _ IH]; simpl; [reflexivity|].
    rewrite Hx. simpl. now rewrite IH.
  - induction H as [|x l Hx _ IH]; simpl; [reflexivity|].
    now rewrite Hx, <- IH.
Qed.

(** ** Counting the true entries of a mask *)

Lemma wrap64_small (z : Z) : (- 2 ^ 63 <= z < 2 ^ 63)%Z -> wrap64 z = z.
Proof. intros H. unfold wrap64. rewrite Z.mod_small; lia. Qed.

(** The wrapped sum of three entries does not depend on the order in which
    they are added. *)
Lemma add64_three (a b c : Z) : add64 (add64 a b) c = wrap64 (c + b + a).
Proof.
  unfold add64, wrap64. f_equal.
  replace ((a + b + 2 ^ 63) mod 2 ^ 64 - 2 ^ 63 + c + 2 ^ 63)%Z
    with ((a + b + 2 ^ 63) mod 2 ^ 64 + c)%Z by lia.
  rewrite Zplus_mod_idemp_l. f_equal. lia.
Qed.

Lemma slot_masked_sum {structure} (inp : batch structure) (b i : nat) :
  slot_masked inp b i =
  (wrap64 (data (mut_positions inp) [b; i]
           + data (mut_wildtype_AAs inp) [b; i]
           + data (mut_mutant_AAs inp) [b; i]) =? 0)%Z.
Proof. unfold slot_masked. now rewrite add64_three. Qed.

Lemma indices_1 (n : nat) : indices [n] = map (fun i => [i]) (seq 0 n).
Proof.
  simpl. induction (seq 0 n) as [|i l IH]; simpl; [reflexivity|]. now rewrite IH.
Qed.

Lemma count_fold (f : list nat -> bool) (l : list (list nat)) (acc : Z) :
  (0 <= acc)%Z ->
  (acc + Z.of_nat (length l) < 2 ^ 63)%Z ->
  fold_left (fun a ix => add64 a (if f ix then 1 else 0)%Z) l acc =
  (acc + Z.of_nat (length (filter f l)))%Z.
Proof.
  revert acc. induction l as [|ix l IH]; intros acc H0 Hb; simpl in *; [lia|].
  assert (Hlen : length (filter f l) <= length l) by apply filter_length_le.
  unfold add64 at 2. destruct (f ix); simpl.
  - rewrite wrap64_small by lia. rewrite IH by lia. lia.
  - rewrite wrap64_small by lia. rewrite IH by lia. lia.
Qed.

Lemma filter_nil_iff {A} (f : A -> bool) (l : list A) :
  filter f l = [] <-> forall a, In a l -> f a = false.
Proof.
  induction l as [|a l IH]; simpl.
  - split; [intros _ a [] | reflexivity].
  - destruct (f a) eqn:E.
    + split; [discriminate|]. intros H. rewrite (H a) in E; [discriminate | now left].
    + rewrite IH. split.
      * intros H x [<-|Hx]; auto.
      * intros H x Hx. apply H. now right.
Qed.

Lemma count_true_zero (t : tensor bool) (B : nat) :
  shape t = [B] ->
  (Z.of_nat B < 2 ^ 63)%Z ->
  ((count_true t =? 0)%Z = true <-> forall b, b < B -> data t [b] = false).
Proof.
  intros Hs HB. unfold count_true, sum64, tmap. cbn [shape data]. rewrite Hs, indices_1.
  rewrite (count_fold (data t)).
  2: lia.
  2:{ rewrite length_map, length_seq. lia. }
  rewrite Z.eqb_eq, Z.add_0_l.
  rewrite <- Nat2Z.inj_0, Nat2Z.inj_iff, length_zero_iff_nil, filter_nil_iff.
  split.
  - intros H b Hb. apply H, in_map_iff. exists b.
    split; [reflexivity | apply in_seq; lia].
  - intros H ix Hix. apply in_map_iff in Hix. destruct Hix as (b & <- & Hb).
    apply H. apply in_seq in Hb. lia.
Qed.

(** ** The padding mask *)

Section Mask.

Variable structure : Type.
Variable inp : batch structure.
Variables B N : nat.
Hypothesis Hshape : mutations_shaped inp B N.

Lemma padding_mask_spec :
  exists mask,
    padding_mask (mut_mutant_AAs inp) (mut_wildtype_AAs inp) (mut_positions inp)
    = Ok mask /\
    shape mask = [B; N] /\
    forall b i, b < B -> i < N -> data mask [b; i] = slot_masked inp b i.
Proof.
  destruct Hshape as (Hp & Hw & Hm).
  unfold padding_mask, broadcast2. rewrite Hm, Hw, broadcast_shape_same.
  cbn [bind shape]. rewrite Hp, broadcast_shape_same. cbn [bind].
  eexists. split; [reflexivity|]. split; [reflexivity|].
  intros b i Hb Hi. unfold slot_masked, tmap. cbn [data].
  now rewrite !(bindex_in_shape _ _ (in_shape2 _ _ _ _ Hb Hi)).
Qed.

Lemma assert_first_visible_spec (mask : tensor bool) :
  shape mask = [B; N] ->
  0 < N ->
  (Z.of_nat B < 2 ^ 63)%Z ->
  (assert_first_visible mask = Ok tt <->
   forall b, b < B -> data mask [b; 0] = false) /\
  (assert_first_visible mask = Raise AssertionError <->
   exists b, b < B /\ data mask [b; 0] = true).
Proof.
  intros Hs HN HB. unfold assert_first_visible, select, rank, size.
  rewrite Hs. cbn [length nth]. apply Nat.ltb_lt in HN. rewrite HN.
  cbn [andb Nat.ltb Nat.leb bind drop_nth firstn skipn app].
  set (col0 := mkT [B] _).
  assert (Hc : (count_true col0 =? 0)%Z = true <->
               forall b, b < B -> data mask [b; 0] = false).
  { rewrite (count_true_zero col0 B eq_refl HB). reflexivity. }
  destruct (count_true col0 =? 0)%Z; simpl; split.
  - split; [intros _; now apply Hc | reflexivity].
  - split; [discriminate|]. intros (b & Hb & Ht).
    rewrite (proj1 Hc eq_refl b Hb) in Ht. discriminate.
  - split; [discriminate|]. intros H. apply Hc in H. discriminate.
  - split; [intros _ | reflexivity].
    destruct (existsb (fun b => data mask [b; 0]) (seq 0 B)) eqn:E.
    + apply existsb_exists in E. destruct E as (b & Hb & Ht).
      apply in_seq in Hb. exists b. split; [lia | exact Ht].
    + assert (forall b, b < B -> data mask [b; 0] = false) as Hall.
      { intros b Hb. destruct (data mask [b; 0]) eqn:Eb; [|reflexivity].
        assert (existsb (fun b => data mask [b; 0]) (seq 0 B) = true).
        { apply existsb_exists. exists b. split; [apply in_seq; lia | exact Eb]. }
        congruence. }
      apply Hc in Hall. discriminate.
Qed.

Lemma expand_mask_spec (mask : tensor bool) (E : nat) :
  shape mask = [B; N] ->
  exists mask',
    expand_mask mask E = Ok mask' /\
    shape mask' = [B; E; N] /\
    forall b e i, b < B -> e < E -> i < N ->
      data mask' [b; e; i] = data mask [b; i].
Proof.
  intros Hs. unfold expand_mask, repeat_t, unsqueeze, rank, insert_nth.
  cbn [shape data]. rewrite Hs. cbn [firstn skipn app length Nat.eqb map combine].
  eexists. split; [reflexivity|]. cbn [shape data]. split.
  - now rewrite !Nat.mul_1_r, Nat.mul_1_l.
  - intros b e i Hb He Hi. unfold drop_nth. cbn [firstn skipn app map combine].
    now rewrite (Nat.mod_small b B), (Nat.mod_small i N) by assumption.
Qed.

End Mask.

Lemma stack_last_spec (l : list (tensor float)) (t0 : tensor float) (sh : list nat) :
  l <> [] ->
  Forall (fun t => shape t = sh) l ->
  exists st,
    stack_last l = Ok st /\
    shape st = sh ++ [length l] /\
    forall ix, last ix 0 < length l ->
      data st ix = data (nth (last ix 0) l t0) (removelast ix).
Proof.
  intros Hne Hall. destruct l as [|t1 l]; [congruence|].
  unfold stack_last.
  assert (Hs1 : shape t1 = sh) by now inversion Hall.
  assert (Hsame : same_shapes (shape t1) (t1 :: l) = true).
  { apply forallb_forall. intros t Ht. apply list_eqb_true.
    rewrite Forall_forall in Hall. rewrite (Hall t Ht). now symmetry. }
  rewrite Hsame. eexists. split; [reflexivity|]. cbn [shape data].
  split; [now rewrite Hs1|].
  intros ix Hix. f_equal. now apply nth_indep.
Qed.

Lemma masked_fill_ok {A} (t : tensor A) (mask : tensor bool) (v : A) :
  shape mask = shape t ->
  masked_fill t mask v =
  Ok (mkT (shape t) (fun ix => if data mask ix then v else data t ix)).
Proof. intros H. unfold masked_fill. now rewrite H, list_eqb_refl. Qed.

(** ** The non-learned aggregations *)

Section AggregateSimple.

Variable structure : Type.
Variable cfg : Cfg.
Variable inp : batch structure.
Variables B N E : nat.
Variable embs : list (tensor float).
Variable d : tensor float.

Hypothesis Hshape : mutations_shaped inp B N.
Hypothesis HN : 0 < N.
Hypothesis HB : (Z.of_nat B < 2 ^ 63)%Z.
Hypothesis Hlen : length embs = N.
Hypothesis Hembs : Forall (fun t => shape t = [B; E]) embs.

(** The values of the unmasked slots of sample [b] in channel [e]. *)
Let visible (b e : nat) : list float :=
  map (fun i => data (nth i embs d) [b; e])
      (filter (fun i => negb (slot_masked inp b i)) (seq 0 N)).

Lemma reduce_filled (f : list float -> float) (v : float)
  (st : tensor float) (mask' : tensor bool) :
  shape st = [B; E; N] ->
  (forall ix, last ix 0 < length embs ->
              data st ix = data (nth (last ix 0) embs d) (removelast ix)) ->
  shape mask' = [B; E; N] ->
  (forall b e i, b < B -> e < E -> i < N ->
                 data mask' [b; e; i] = slot_masked inp b i) ->
  exists filled,
    masked_fill st mask' v = Ok filled /\
    shape (reduce_last f filled) = [B; E] /\
    forall b e, b < B -> e < E ->
      data (reduce_last f filled) [b; e] =
      f (map (fun k => if slot_masked inp b k then v
                       else data (nth k embs d) [b; e]) (seq 0 N)).
Proof.
  intros Hst Hd Hm Hmd. rewrite masked_fill_ok by congruence.
  eexists. split; [reflexivity|]. unfold reduce_last. cbn [shape data].
  rewrite Hst. split; [reflexivity|].
  intros b e Hb He. cbn [last_dim last]. f_equal.
  apply map_ext_in. intros k Hk. apply in_seq in Hk. cbn [app].
  rewrite Hmd by lia. rewrite Hd by (cbn [last]; lia). reflexivity.
Qed.

Lemma aggregate_simple_spec (name : string) :
  aggregation cfg = Some name ->
  simple_aggregation name = true ->
  (forall b, b < B -> slot_masked inp b 0 = false) ->
  exists out,
    aggregate_simple cfg inp embs = Ok out /\
    shape out = [B; E] /\
    forall b e, b < B -> e < E ->
      data out [b; e] = reduction name (visible b e).
Proof.
  intros Hagg Hname Hvis. unfold aggregate_simple.
  assert (Hne : embs <> []) by (intros ->; simpl in Hlen; lia).
  destruct (stack_last_spec _ d _ Hne Hembs) as (st & -> & Hst & Hd).
  cbn [bind]. rewrite Hlen in Hst. cbn [app] in Hst.
  destruct (padding_mask_spec _ _ _ _ Hshape) as (mask & -> & Hms & Hmd).
  cbn [bind].
  destruct (@assert_first_visible_spec B N mask Hms HN HB) as [[_ Hok] _].
  rewrite Hok by (intros b Hb; rewrite Hmd by assumption; now apply Hvis).
  cbn [bind]. unfold size. rewrite Hst. cbn [nth].
  destruct (@expand_mask_spec B N mask E Hms) as (mask' & -> & Hms' & Hmd').
  cbn [bind].
  assert (Hmd'' : forall b e i, b < B -> e < E -> i < N ->
                                data mask' [b; e; i] = slot_masked inp b i).
  { intros. rewrite Hmd' by assumption. now apply Hmd. }
  unfold is_str. rewrite Hagg. unfold reduction, visible.
  unfold simple_aggregation in Hname.
  destruct (String.eqb name "mean").
  { destruct (reduce_filled nanmean NaN _ _ Hst Hd Hms' Hmd'') as (fl & -> & Hs & Hv).
    cbn [bind]. eexists. split; [reflexivity|]. split; [exact Hs|].
    intros b e Hb He. rewrite Hv by assumption. apply nanmean_masked. }
  destruct (String.eqb name "sum").
  { destruct (reduce_filled fsum (Fin 0%Qc) _ _ Hst Hd Hms' Hmd'') as (fl & -> & Hs & Hv).
    cbn [bind]. eexists. split; [reflexivity|]. split; [exact Hs|].
    intros b e Hb He. rewrite Hv by assumption. apply fsum_masked. }
  destruct (String.eqb name "prod").
  { destruct (reduce_filled fprod (Fin 1%Qc) _ _ Hst Hd Hms' Hmd'') as (fl & -> & Hs & Hv).
    cbn [bind]. eexists. split; [reflexivity|]. split; [exact Hs|].
    intros b e Hb He. rewrite Hv by assumption. apply fprod_masked. }
  destruct (String.eqb name "max"); [|discriminate].
  destruct (reduce_filled fmaximum NInf _ _ Hst Hd Hms' Hmd'') as (fl & -> & Hs & Hv).
  cbn [bind]. eexists. split; [reflexivity|]. split; [exact Hs|].
  intros b e Hb He. rewrite Hv by assumption.
  destruct N as [|n]; [lia|]. cbn [seq].
  apply fmaximum_masked. now apply Hvis.
Qed.

End AggregateSimple.

(** ** Which exceptions a step can raise *)

Lemma raises_bind {A B} (P : exn -> Prop) (r : result A) (k : A -> result B) :
  raises_only P r -> (forall a, raises_only P (k a)) -> raises_only P (bind r k).
Proof. destruct r; simpl; auto. Qed.

Lemma raises_mapM {A B} (P : exn -> Prop) (f : A -> result B) (l : list A) :
  (forall a, raises_only P (f a)) -> raises_only P (mapM f l).
Proof.
  intros H. induction l as [|a l IH]; simpl; [exact I|].
  apply raises_bind; [apply H|]. intros b.
  apply raises_bind; [exact IH|]. intros bs. exact I.
Qed.

Lemma raises_weaken {A} (P Q : exn -> Prop) (r : result A) :
  (forall e, P e -> Q e) -> raises_only P r -> raises_only Q r.
Proof. destruct r; simpl; auto. Qed.

Create HintDb raises.

Ltac raises_step :=
  match goal with
  | |- raises_only _ (Ok _) => exact I
  | |- raises_only _ (Raise _) => exact I
  | |- raises_only _ (bind _ _) => apply raises_bind; [|intros]
  | |- raises_only _ (mapM _ _) => apply raises_mapM; intros
  | |- raises_only _ (if ?b then _ else _) => destruct b
  | |- raises_only _ (match ?x with _ => _ end) => destruct x
  end.

Ltac raises := repeat (raises_step || (progress auto with raises)).

Lemma raises_index_last {A} (t : tensor A) k :
  raises_only library_error (index_last t k).
Proof. unfold index_last. raises. Qed.

Lemma raises_select {A} (t : tensor A) d i :
  raises_only library_error (select t d i).
Proof. unfold select. raises. Qed.

Lemma raises_broadcast2 {A B C} (f : A -> B -> C) a b :
  raises_only library_error (broadcast2 f a b).
Proof. unfold broadcast2. raises. Qed.

Lemma raises_expand {A} (t : tensor A) sizes :
  raises_only library_error (expand t sizes).
Proof. unfold expand. raises. Qed.

Lemma raises_repeat_t {A} (t : tensor A) reps :
  raises_only library_error (repeat_t t reps).
Proof. unfold repeat_t. raises. Qed.

Lemma raises_gather {A} (t : tensor A) d index :
  raises_only library_error (gather t d index).
Proof. unfold gather. raises. Qed.

Lemma raises_scatter {A} (t : tensor A) d index src :
  raises_only library_error (scatter t d index src).
Proof. unfold scatter. raises. Qed.

Lemma raises_stack_last {A} (l : list (tensor A)) :
  raises_only library_error (stack_last l).
Proof. unfold stack_last. raises. Qed.

Lemma raises_stack_first {A} (l : list (tensor A)) :
  raises_only library_error (stack_first l).
Proof. unfold stack_first. raises. Qed.

Lemma raises_cat_last {A} (l : list (tensor A)) :
  raises_only library_error (cat_last l).
Proof. unfold cat_last. raises. Qed.

Lemma raises_masked_fill {A} (t : tensor A) mask v :
  raises_only library_error (masked_fill t mask v).
Proof. unfold masked_fill. raises. Qed.

#[export] Hint Resolve raises_index_last raises_select raises_broadcast2
  raises_expand raises_repeat_t raises_gather raises_scatter raises_stack_last
  raises_stack_first raises_cat_last raises_masked_fill : raises.

Lemma raises_batched_index_select {A} (t : tensor A) d index :
  raises_only library_error (batched_index_select t d index).
Proof. unfold batched_index_select. raises. Qed.

Lemma raises_gather_rows t cp : raises_only library_error (gather_rows t cp).
Proof. unfold gather_rows. raises. Qed.

Lemma raises_padding_mask mut wt pos :
  raises_only library_error (padding_mask mut wt pos).
Proof. unfold padding_mask. raises. Qed.

Lemma raises_expand_mask mask n : raises_only library_error (expand_mask mask n).
Proof. unfold expand_mask. raises. Qed.

#[export] Hint Resolve raises_batched_index_select raises_gather_rows
  raises_padding_mask raises_expand_mask : raises.

Lemma raises_check_sequence_match S wt mut pos :
  raises_only library_error (_check_sequence_match S wt mut pos).
Proof.
  unfold _check_sequence_match. generalize (seq 0 (last_dim (shape wt))).
  intros l. revert S. induction l as [|k l IH]; intros S; simpl; [exact I|].
  apply raises_bind; [|intros; apply IH].
  unfold check_step. raises.
Qed.

#[export] Hint Resolve raises_check_sequence_match : raises.

Section Raises.

Variable structure : Type.
Variable M : Modules structure.
Variable cfg : Cfg.

Lemma raises_run_backbone inp :
  raises_only library_error (run_backbone M cfg inp).
Proof.
  unfold run_backbone. raises.
Qed.

Lemma raises_side_chain_embeds bo :
  raises_only library_error (side_chain_embeds M cfg bo).
Proof. unfold side_chain_embeds. raises. Qed.

Lemma raises_sample_edge pos E_idx_tmp tmp n_mutations n_current b :
  raises_only library_error
    (sample_edge pos E_idx_tmp tmp n_mutations n_current b).
Proof. unfold sample_edge. raises. Qed.

Hint Resolve raises_side_chain_embeds raises_sample_edge : raises.

Lemma raises_edges_compiled pos E_idx edg n_mutations n_current :
  raises_only library_error
    (edges_compiled pos E_idx edg n_mutations n_current).
Proof. unfold edges_compiled. raises. Qed.

Hint Resolve raises_edges_compiled : raises.

Lemma raises_multi_edges bo pos :
  raises_only library_error (multi_edges M bo pos).
Proof. unfold multi_edges. raises. Qed.

Lemma raises_multi_dist bo pos :
  raises_only library_error (multi_dist M bo pos).
Proof. unfold multi_dist. raises. Qed.

Hint Resolve raises_multi_edges raises_multi_dist : raises.

Lemma raises_multi_features bo inp :
  raises_only library_error (multi_features M cfg bo inp).
Proof. unfold multi_features. raises. Qed.

Lemma raises_slot_embed f pos i :
  raises_only library_error (slot_embed M cfg f pos i).
Proof. unfold slot_embed. raises. Qed.

Hint Resolve raises_multi_features raises_slot_embed : raises.

Lemma raises_gathered_embeds bo inp :
  raises_only library_error (gathered_embeds M cfg bo inp).
Proof. unfold gathered_embeds. raises. Qed.

Lemma raises_post_light_attention l :
  raises_only library_error (post_light_attention M cfg l).
Proof. unfold post_light_attention. raises. Qed.

Lemma raises_single_embeds bo inp :
  raises_only library_error (single_embeds M cfg bo inp).
Proof. unfold single_embeds. raises. Qed.

Hint Resolve raises_single_embeds : raises.

Lemma raises_forward_single bo inp :
  raises_only library_error (forward_single M cfg bo inp).
Proof. unfold forward_single. raises. Qed.

Lemma raises_index_ddg ddg (inp : batch structure) :
  raises_only library_error (index_ddg cfg ddg inp).
Proof. unfold index_ddg. raises. Qed.

End Raises.

#[export] Hint Resolve raises_run_backbone raises_gathered_embeds
  raises_post_light_attention raises_forward_single raises_index_ddg : raises.

(** ** The two checks of the multi-mutation branch *)

Lemma library_error_justified (cfg : Cfg) (e : exn) :
  library_error e -> value_error_justified cfg e.
Proof. destruct e; simpl; tauto. Qed.

Lemma library_error_not_assertion (e : exn) :
  library_error e -> e <> AssertionError.
Proof. destruct e; simpl; intros H; [contradiction | discriminate ..]. Qed.

(** A step of the tensor library, seen from a weaker postcondition. *)
Ltac raises_lib :=
  eapply raises_weaken; [| solve [auto with raises]];
  first [ apply library_error_justified | apply library_error_not_assertion ].

Lemma mapM_length {A B} (f : A -> result B) (l : list A) (r : list B) :
  mapM f l = Ok r -> length r = length l.
Proof. intros H. apply mapM_ok in H. symmetry. exact (Forall2_length H). Qed.

Lemma simple_not_mpnn (name : string) :
  simple_aggregation name = true -> String.eqb name "mpnn" = false.
Proof.
  unfold simple_aggregation. intros H.
  apply orb_true_iff in H. destruct H as [H|H].
  2:{ apply String.eqb_eq in H. now subst. }
  apply orb_true_iff in H. destruct H as [H|H].
  2:{ apply String.eqb_eq in H. now subst. }
  apply orb_true_iff in H. destruct H as [H|H];
    apply String.eqb_eq in H; now subst.
Qed.

Section Checks.

Variable structure : Type.
Variable M : Modules structure.
Variable cfg : Cfg.
Variable inp : batch structure.

Lemma combined_multi (name : string) :
  aggregation cfg = Some name ->
  combined_embedding M cfg inp =
  (embs <- before_assertion M cfg inp ;;
   if String.eqb name "mpnn" then aggregate_mpnn M cfg inp embs
   else aggregate_simple cfg inp embs).
Proof.
  intros Hagg. unfold combined_embedding, before_assertion, forward_multi,
    multi_mutations, is_str. rewrite Hagg.
  destruct (run_backbone M cfg inp) as [bo|e]; [|reflexivity]. cbn [bind].
  destruct (gathered_embeds M cfg bo inp) as [raw|e]; [|reflexivity]. cbn [bind].
  destruct (String.eqb name "mpnn"); [reflexivity|].
  destruct (post_light_attention M cfg raw) as [embs|e]; [|reflexivity].
  cbn [bind]. unfold aggregate_simple.
  destruct (stack_last embs) eqn:Hst; cbn [bind]; rewrite ?Hst; reflexivity.
Qed.

Lemma combined_multi_simple (name : string) :
  aggregation cfg = Some name ->
  String.eqb name "mpnn" = false ->
  combined_embedding M cfg inp =
  (embs <- post_la_embeds M cfg inp ;; aggregate_simple cfg inp embs).
Proof.
  intros Hagg Hn. unfold combined_embedding, post_la_embeds, forward_multi,
    multi_mutations, is_str. rewrite Hagg, Hn.
  destruct (run_backbone M cfg inp) as [bo|e]; [|reflexivity]. cbn [bind].
  destruct (gathered_embeds M cfg bo inp) as [raw|e]; reflexivity.
Qed.

Lemma post_la_embeds_length (embs : list (tensor float)) :
  post_la_embeds M cfg inp = Ok embs ->
  length embs = last_dim (shape (mut_mutant_AAs inp)).
Proof.
  unfold post_la_embeds, gathered_embeds, post_light_attention. intros H.
  apply bind_ok in H. destruct H as (bo & _ & H).
  apply bind_ok in H. destruct H as (raw & Hraw & H).
  apply bind_ok in Hraw. destruct Hraw as (f & _ & Hraw).
  apply mapM_length in H. apply mapM_length in Hraw.
  rewrite H, Hraw. apply length_seq.
Qed.

Variables B N : nat.
Hypothesis Hshape : mutations_shaped inp B N.
Hypothesis HN : 0 < N.
Hypothesis HB : (Z.of_nat B < 2 ^ 63)%Z.

(** With a padded first slot the assertion stops both aggregation paths. *)
Lemma aggregate_simple_asserts (embs : list (tensor float)) st :
  stack_last embs = Ok st ->
  (exists b, b < B /\ slot_masked inp b 0 = true) ->
  aggregate_simple cfg inp embs = Raise AssertionError.
Proof.
  intros Hst (b & Hb & Hm). unfold aggregate_simple. rewrite Hst. cbn [bind].
  destruct (padding_mask_spec _ _ _ _ Hshape) as (mask & -> & Hms & Hmd).
  cbn [bind].
  destruct (assert_first_visible_spec B N mask Hms HN HB) as [_ [_ Hno]].
  rewrite Hno; [reflexivity|].
  exists b. split; [assumption|]. now rewrite Hmd.
Qed.

Lemma aggregate_mpnn_asserts (embs : list (tensor float)) :
  (exists b, b < B /\ slot_masked inp b 0 = true) ->
  aggregate_mpnn M cfg inp embs = Raise AssertionError.
Proof.
  intros (b & Hb & Hm). unfold aggregate_mpnn.
  destruct (padding_mask_spec _ _ _ _ Hshape) as (mask & -> & Hms & Hmd).
  cbn [bind].
  destruct (assert_first_visible_spec B N mask Hms HN HB) as [_ [_ Hno]].
  rewrite Hno; [reflexivity|].
  exists b. split; [assumption|]. now rewrite Hmd.
Qed.

Hypothesis Hvis : forall b, b < B -> slot_masked inp b 0 = false.

(** With every first slot visible neither aggregation path raises
    [AssertionError]. *)
Lemma aggregate_simple_passes (embs : list (tensor float)) :
  raises_only (fun e => e <> AssertionError) (aggregate_simple cfg inp embs).
Proof.
  unfold aggregate_simple.
  apply raises_bind; [raises_lib|]. intros st.
  destruct (padding_mask_spec _ _ _ _ Hshape) as (mask & -> & Hms & Hmd).
  cbn [bind].
  destruct (assert_first_visible_spec B N mask Hms HN HB) as [[_ Hok] _].
  rewrite Hok by (intros b Hb; rewrite Hmd by assumption; now apply Hvis).
  cbn [bind].
  apply raises_bind; [raises_lib|]. intros mask'.
  repeat match goal with
         | |- raises_only _ (if ?c then _ else _) => destruct c
         | |- raises_only _ (bind _ _) => apply raises_bind; [raises_lib|intros]
         | |- raises_only _ (Ok _) => exact I
         end.
  simpl. discriminate.
Qed.

Lemma aggregate_mpnn_passes (embs : list (tensor float)) :
  raises_only (fun e => e <> AssertionError) (aggregate_mpnn M cfg inp embs).
Proof.
  unfold aggregate_mpnn.
  destruct (padding_mask_spec _ _ _ _ Hshape) as (mask & -> & Hms & Hmd).
  cbn [bind].
  destruct (assert_first_visible_spec B N mask Hms HN HB) as [[_ Hok] _].
  rewrite Hok by (intros b Hb; rewrite Hmd by assumption; now apply Hvis).
  cbn [bind].
  apply raises_bind; [raises_lib|]. intros mask'.
  apply raises_bind.
  - destruct (last_dim (shape mask') =? 1); [|exact I].
    destruct embs; simpl; [discriminate | exact I].
  - intros l. apply raises_bind; [raises_lib|]. intros st.
    apply raises_bind; [raises_lib|]. intros fl. exact I.
Qed.

(** After the assertion an unknown aggregation name ends in the
    [ValueError]. *)
Lemma aggregate_simple_rejects (name : string) (embs : list (tensor float)) st :
  aggregation cfg = Some name ->
  known_aggregation name = false ->
  stack_last embs = Ok st ->
  aggregate_simple cfg inp embs = Raise (ValueError invalid_aggregation).
Proof.
  intros Hagg Hname Hst. unfold aggregate_simple. rewrite Hst. cbn [bind].
  destruct (padding_mask_spec _ _ _ _ Hshape) as (mask & -> & Hms & Hmd).
  cbn [bind].
  destruct (assert_first_visible_spec B N mask Hms HN HB) as [[_ Hok] _].
  rewrite Hok by (intros b Hb; rewrite Hmd by assumption; now apply Hvis).
  cbn [bind].
  destruct (expand_mask_spec B N mask (size st 1) Hms) as (mask' & -> & _).
  cbn [bind]. unfold is_str. rewrite Hagg.
  unfold known_aggregation, simple_aggregation in Hname.
  apply orb_false_iff in Hname. destruct Hname as [_ Hname].
  apply orb_false_iff in Hname. destruct Hname as [Hname Hmax].
  apply orb_false_iff in Hname. destruct Hname as [Hname Hprod].
  apply orb_false_iff in Hname. destruct Hname as [Hmean Hsum].
  now rewrite Hmean, Hsum, Hprod, Hmax.
Qed.

End Checks.

Ltac raises_any :=
  repeat match goal with
         | |- raises_only _ (Ok _) => exact I
         | |- raises_only _ (bind _ _) =>
             apply raises_bind; [try raises_lib | intros]
         | |- raises_only _ (guard _ _) => unfold guard
         | |- raises_only _ (assert_first_visible _) =>
             unfold assert_first_visible
         | |- raises_only _ (if ?c then _ else _) => destruct c eqn:?
         | |- raises_only _ (match ?x with _ => _ end) => destruct x eqn:?
         end.

Section ValueError.

Variable structure : Type.
Variable M : Modules structure.
Variable cfg : Cfg.
Variable inp : batch structure.

Lemma aggregate_mpnn_raises (embs : list (tensor float)) :
  raises_only (value_error_justified cfg) (aggregate_mpnn M cfg inp embs).
Proof. unfold aggregate_mpnn. raises_any; exact I. Qed.

Lemma aggregate_simple_raises (name : string) (embs : list (tensor float)) :
  aggregation cfg = Some name ->
  String.eqb name "mpnn" = false ->
  raises_only (value_error_justified cfg) (aggregate_simple cfg inp embs).
Proof.
  intros Hagg Hn. unfold aggregate_simple, is_str. rewrite Hagg.
  raises_any; try exact I.
  simpl. split; [reflexivity|]. exists name. split; [assumption|].
  unfold known_aggregation, simple_aggregation.
  repeat match goal with H : String.eqb _ _ = false |- _ => rewrite H; clear H end.
  reflexivity.
Qed.

(** [forward] raises a [ValueError] only to reject an aggregation name. *)
Lemma forward_raises :
  raises_only (value_error_justified cfg) (forward M cfg inp).
Proof.
  unfold forward. apply raises_bind; [|intros; raises_lib].
  unfold combined_embedding, multi_mutations.
  apply raises_bind; [raises_lib|]. intros bo.
  destruct (aggregation cfg) as [name|] eqn:Hagg; [|raises_lib].
  unfold forward_multi, is_str. rewrite Hagg.
  apply raises_bind; [raises_lib|]. intros raw.
  destruct (String.eqb name "mpnn") eqn:Hn.
  - apply aggregate_mpnn_raises.
  - apply raises_bind; [raises_lib|]. intros embs.
    now apply aggregate_simple_raises with name.
Qed.

End ValueError.

(** ** The edges between mutated residues *)

Lemma expand_keep_113 {A} (t : tensor A) (B X K : nat) :
  shape t = [B; X; 1] ->
  expand t [(-1)%Z; (-1)%Z; Z.of_nat K] =
  Ok (mkT [B; X; K] (fun ix => data t (bindex [B; X; 1] ix))).
Proof.
  intros Hs. unfold expand. rewrite Hs. cbn [rev app expand_shape_rev].
  destruct (Z.eqb_spec (Z.of_nat K) (-1)); [lia|].
  destruct (Z.ltb_spec (Z.of_nat K) 0); [lia|].
  rewrite Nat2Z.id, orb_true_r. reflexivity.
Qed.

Lemma expand_keep_1134 {A} (t : tensor A) (B X K C : nat) :
  shape t = [B; X; 1; 1] ->
  expand t [(-1)%Z; (-1)%Z; Z.of_nat K; Z.of_nat C] =
  Ok (mkT [B; X; K; C] (fun ix => data t (bindex [B; X; 1; 1] ix))).
Proof.
  intros Hs. unfold expand. rewrite Hs. cbn [rev app expand_shape_rev].
  destruct (Z.eqb_spec (Z.of_nat K) (-1)); [lia|].
  destruct (Z.ltb_spec (Z.of_nat K) 0); [lia|].
  destruct (Z.eqb_spec (Z.of_nat C) (-1)); [lia|].
  destruct (Z.ltb_spec (Z.of_nat C) 0); [lia|].
  rewrite !Nat2Z.id, !orb_true_r. reflexivity.
Qed.

Lemma bindex_B111 (B b j k c : nat) :
  b < B -> bindex [B; 1; 1; 1] [b; j; k; c] = [b; 0; 0; 0].
Proof.
  intros Hb. unfold bindex. simpl.
  destruct (Nat.eqb_spec B 1); [f_equal; lia | reflexivity].
Qed.

(** [batched_index_select] on dimension 1 of a rank-3 tensor, squeezed. *)
Lemma select_rows3 {A} (t : tensor A) (idx : tensor Z) (B L K : nat) :
  shape t = [B; L; K] ->
  shape idx = [B; 1] ->
  (forall b, b < B -> in_range (data idx [b; 0]) L = true) ->
  exists sel,
    batched_index_select t 1 idx = Ok sel /\
    shape (squeeze sel 1) = [B; K] /\
    forall b k, b < B -> k < K ->
      data (squeeze sel 1) [b; k] = data t [b; Z.to_nat (data idx [b; 0]); k].
Proof.
  intros Ht Hi Hr. unfold batched_index_select, rank. rewrite Ht.
  cbn [length Nat.sub seq fold_left Nat.eqb map firstn skipn app].
  rewrite (expand_keep_113 _ B 1 K).
  2:{ unfold unsqueeze, insert_nth. cbn [shape]. now rewrite Hi. }
  cbn [bind]. rewrite gather_ok.
  - eexists. split; [reflexivity|]. unfold squeeze, rank, size.
    cbn -[bindex]. split; [reflexivity|].
    intros b k Hb Hk. unfold set_nth, insert_nth, drop_nth. cbn -[bindex].
    rewrite bindex_B11 by assumption. reflexivity.
  - unfold rank. rewrite Ht. simpl. lia.
  - rewrite Ht. cbn [shape dims_le Nat.eqb orb andb]. now rewrite !Nat.leb_refl.
  - intros ix Hix. cbn [shape] in Hix. apply in_shape3_inv in Hix.
    destruct Hix as (b & j & k & -> & Hb & Hj & Hk).
    unfold size, unsqueeze, drop_nth. rewrite Ht. cbn -[bindex in_range].
    rewrite bindex_B11 by assumption. cbn -[in_range]. now apply Hr.
Qed.

Lemma in_shape4_inv (ix : list nat) (B N E C : nat) :
  Forall2 lt ix [B; N; E; C] ->
  exists b i e c, ix = [b; i; e; c] /\ b < B /\ i < N /\ e < E /\ c < C.
Proof.
  intros H. inversion H as [|b ? ix1 ? Hb H1]; subst.
  apply in_shape3_inv in H1. destruct H1 as (i & e & c & -> & Hi & He & Hc).
  exists b, i, e, c. auto.
Qed.

(** [batched_index_select] on dimension 1 of a rank-4 tensor, squeezed. *)
Lemma select_rows4 {A} (t : tensor A) (idx : tensor Z) (B L K C : nat) :
  shape t = [B; L; K; C] ->
  shape idx = [B; 1] ->
  (forall b, b < B -> in_range (data idx [b; 0]) L = true) ->
  exists sel,
    batched_index_select t 1 idx = Ok sel /\
    shape (squeeze sel 1) = [B; K; C] /\
    forall b k c, b < B -> k < K -> c < C ->
      data (squeeze sel 1) [b; k; c] =
      data t [b; Z.to_nat (data idx [b; 0]); k; c].
Proof.
  intros Ht Hi Hr. unfold batched_index_select, rank. rewrite Ht.
  cbn [length Nat.sub seq fold_left Nat.eqb map firstn skipn app].
  rewrite (expand_keep_1134 _ B 1 K C).
  2:{ unfold unsqueeze, insert_nth. cbn [shape]. now rewrite Hi. }
  cbn [bind]. rewrite gather_ok.
  - eexists. split; [reflexivity|]. unfold squeeze, rank, size.
    cbn -[bindex]. split; [reflexivity|].
    intros b k c Hb Hk Hc. unfold set_nth, insert_nth, drop_nth. cbn -[bindex].
    rewrite bindex_B111 by assumption. reflexivity.
  - unfold rank. rewrite Ht. simpl. lia.
  - rewrite Ht. cbn [shape dims_le Nat.eqb orb andb]. now rewrite !Nat.leb_refl.
  - intros ix Hix. cbn [shape] in Hix. apply in_shape4_inv in Hix.
    destruct Hix as (b & j & k & c & -> & Hb & Hj & Hk & Hc).
    unfold size, unsqueeze, drop_nth. rewrite Ht. cbn -[bindex in_range].
    rewrite bindex_B111 by assumption. cbn -[in_range]. now apply Hr.
Qed.

Lemma mapM_spec {A B} (P : A -> B -> Prop) (f : A -> result B) (l : list A) :
  (forall a, In a l -> exists b, f a = Ok b /\ P a b) ->
  exists r, mapM f l = Ok r /\ Forall2 P l r.
Proof.
  induction l as [|a l IH]; intros H; simpl.
  - exists []. split; [reflexivity | constructor].
  - destruct (H a (or_introl eq_refl)) as (b & -> & Hb).
    destruct IH as (r & -> & Hr); [intros; apply H; now right|].
    exists (b :: r). split; [reflexivity | now constructor].
Qed.

Lemma Forall2_map_eq {A B C} (P : A -> B -> Prop) (f : A -> C) (g : B -> C)
  (l : list A) (r : list B) :
  (forall a b, P a b -> g b = f a) -> Forall2 P l r -> map g r = map f l.
Proof.
  intros H. induction 1 as [|a b l r Hab _ IH]; simpl; [reflexivity|].
  now rewrite IH, (H a b Hab).
Qed.

Lemma map_nth_seq {A B} (f : A -> B) (l : list A) (d : A) :
  map (fun j => f (nth j l d)) (seq 0 (length l)) = map f l.
Proof.
  induction l as [|a l IH]; simpl; [reflexivity|].
  now rewrite <- seq_shift, map_map, IH.
Qed.

Lemma first_hit {T} (h : list nat -> bool) (f : nat -> bool) (l : list nat)
  (X : T) (Y : nat -> T) :
  (forall k, In k l -> h [0; k] = f k) ->
  match filter h (map (fun k => [0; k]) l) with
  | [] => X
  | ix :: _ => Y (nth 1 ix 0)
  end =
  match find f l with
  | Some k => Y k
  | None => X
  end.
Proof.
  induction l as [|k l IH]; intros H; simpl; [reflexivity|].
  rewrite (H k (or_introl eq_refl)). destruct (f k); [reflexivity|].
  apply IH. intros; apply H; now right.
Qed.

Lemma indices_1K (K : nat) : indices [1; K] = map (fun k => [0; k]) (seq 0 K).
Proof.
  change (indices [1; K]) with (map (cons 0) (indices [K]) ++ []).
  now rewrite app_nil_r, indices_1, map_map.
Qed.

Lemma expand_1_1K {A} (t : tensor A) (K : nat) :
  shape t = [1] ->
  expand t [1%Z; Z.of_nat K] =
  Ok (mkT [1; K] (fun ix => data t (bindex [1] ix))).
Proof.
  intros Hs. unfold expand. rewrite Hs. cbn [rev app expand_shape_rev].
  destruct (Z.eqb_spec (Z.of_nat K) (-1)); [lia|].
  destruct (Z.ltb_spec (Z.of_nat K) 0); [lia|].
  rewrite Nat2Z.id, orb_true_r. reflexivity.
Qed.

Lemma broadcast_shape_K_1K (K : nat) : broadcast_shape [K] [1; K] = Some [1; K].
Proof. unfold broadcast_shape. simpl. now rewrite Nat.eqb_refl. Qed.

Lemma find_some_lt (f : nat -> bool) (K k : nat) :
  find f (seq 0 K) = Some k -> k < K.
Proof. intros H. apply find_some in H. destruct H as [H _]. apply in_seq in H. lia. Qed.

Lemma select_first {A} (t : tensor A) (n b : nat) (rest : list nat) :
  shape t = n :: rest ->
  b < n ->
  select t 0 b = Ok (mkT rest (fun ix => data t (b :: ix))).
Proof.
  intros Hs Hb. unfold select, rank, size. rewrite Hs.
  apply Nat.ltb_lt in Hb. cbn [length nth]. rewrite Hb. reflexivity.
Qed.

Section SampleEdge.

Variables B N K K' C : nat.
Variables pos Et : tensor Z.
Variable mt : tensor float.
Hypothesis Hpos : shape pos = [B; N].
Hypothesis HEt : shape Et = [B; K].
Hypothesis Hmt : shape mt = [B; K'; C].
Variables b n : nat.
Hypothesis Hb : b < B.

(** The contribution of mutation [n_o] to channel [c]: the edge to its
    position when that is a neighbour, NaN otherwise. *)
Let contrib (c n_o : nat) : float :=
  match first_neighbour Et pos K b n_o with
  | Some k => data mt [b; k; c]
  | None => NaN
  end.

Lemma neighbour_edge (n_o : nat) :
  n_o < N ->
  (forall k, first_neighbour Et pos K b n_o = Some k -> k < K') ->
  exists edge,
    (nbrs <- select Et 0 b ;;
     prow <- select pos 0 b ;;
     p <- expand (slice prow 0 n_o (n_o + 1))
                 [1%Z; Z.of_nat (last_dim (shape Et))] ;;
     hit <- broadcast2 Z.eqb nbrs p ;;
     match where_true hit with
     | [] => Ok (full (last_dim (shape mt)) NaN)
     | ix :: _ => row <- select mt 0 b ;; select row 0 (nth 1 ix 0)
     end) = Ok edge /\
    shape edge = [C] /\
    forall c, data edge [c] = contrib c n_o.
Proof.
  intros Hn Hk.
  rewrite (select_first Et B b [K] HEt Hb), (select_first pos B b [N] Hpos Hb).
  rewrite HEt. cbn [bind last_dim last].
  rewrite expand_1_1K.
  2:{ unfold slice, size, set_nth. cbn [shape nth firstn skipn app].
      f_equal. lia. }
  cbn [bind]. unfold broadcast2. cbn [shape]. rewrite broadcast_shape_K_1K.
  cbn [bind]. unfold where_true. cbn [shape data]. rewrite indices_1K.
  rewrite (first_hit _
             (fun k => (data Et [b; k] =? data pos [b; n_o])%Z) _
             (Ok (full (last_dim (shape mt)) NaN))
             (fun k => row <- select mt 0 b ;; select row 0 k)).
  - fold (first_neighbour Et pos K b n_o). unfold contrib.
    destruct (first_neighbour Et pos K b n_o) as [k|] eqn:Hf.
    + specialize (Hk k eq_refl).
      rewrite (select_first mt B b [K'; C] Hmt Hb). cbn [bind].
      rewrite (select_first (mkT [K'; C] (fun ix => data mt (b :: ix)))
                 K' k [C] eq_refl Hk).
      eexists. split; [reflexivity|]. split; reflexivity.
    + rewrite Hmt. eexists. split; [reflexivity|]. split; reflexivity.
  - intros k Hk'. apply in_seq in Hk'. unfold bindex, slice, size, set_nth, insert_nth.
    cbn. destruct (Nat.eqb_spec K 1).
    + assert (k = 0) as -> by lia. replace (Nat.min n_o N) with n_o by lia.
      now rewrite Nat.add_0_r.
    + replace (Nat.min n_o N) with n_o by lia. now rewrite Nat.add_0_r.
Qed.

Hypothesis HN : 2 <= N.
Hypothesis Hn : n < N.
Hypothesis Hin :
  forall n_o k, In n_o (others N n) ->
                first_neighbour Et pos K b n_o = Some k -> k < K'.

Lemma others_nonempty : others N n <> [].
Proof.
  unfold others. intros H.
  assert (Hx : In (if n =? 0 then 1 else 0)
                  (filter (fun a => negb (a =? n)) (seq 0 N))).
  { apply filter_In. split.
    - apply in_seq. destruct (n =? 0); lia.
    - destruct (Nat.eqb_spec n 0) as [->|]; [reflexivity|].
      apply negb_true_iff, Nat.eqb_neq. lia. }
  rewrite H in Hx. destruct Hx.
Qed.

Lemma sample_edge_spec :
  exists edge,
    sample_edge pos Et mt (seq 0 N) n b = Ok edge /\
    shape edge = [C] /\
    forall c, c < C ->
      data edge [c] = nan_to_num (nanmean (map (contrib c) (others N n))).
Proof.
  unfold sample_edge. fold (others N n).
  destruct (mapM_spec
              (fun n_o edge => shape edge = [C] /\
                               forall c, data edge [c] = contrib c n_o)
              (fun n_o =>
                 nbrs <- select Et 0 b ;;
                 prow <- select pos 0 b ;;
                 p <- expand (slice prow 0 n_o (n_o + 1))
                             [1%Z; Z.of_nat (last_dim (shape Et))] ;;
                 hit <- broadcast2 Z.eqb nbrs p ;;
                 match where_true hit with
                 | [] => Ok (full (last_dim (shape mt)) NaN)
                 | ix :: _ => row <- select mt 0 b ;; select row 0 (nth 1 ix 0)
                 end)
              (others N n)) as (tmp & -> & Htmp).
  { intros n_o Hno. apply neighbour_edge.
    - unfold others in Hno. apply filter_In in Hno. destruct Hno as [Hno _].
      apply in_seq in Hno. lia.
    - intros k. now apply Hin. }
  cbn [bind].
  assert (Hlen : length tmp = length (others N n))
    by (symmetry; exact (Forall2_length Htmp)).
  assert (Hne : tmp <> []).
  { intros ->. apply others_nonempty. now apply length_zero_iff_nil. }
  assert (Hsh : Forall (fun t => shape t = [C]) tmp).
  { clear -Htmp. induction Htmp as [|? ? ? ? [Hs _] _ IH]; constructor; auto. }
  destruct (stack_last_spec tmp (full 0 NaN) [C] Hne Hsh) as (st & -> & Hst & Hd).
  cbn [bind]. eexists. split; [reflexivity|].
  unfold tmap, reduce_last. cbn [shape data]. rewrite Hst.
  split; [reflexivity|]. intros c Hc. f_equal. f_equal.
  cbn [app last_dim last].
  rewrite <- (Forall2_map_eq _ (contrib c) (fun t => data t [c]) _ _
                (fun a t H => proj2 H c) Htmp).
  rewrite <- (map_nth_seq (fun t => data t [c]) tmp (full 0 NaN)).
  apply map_ext_in. intros j Hj. apply in_seq in Hj.
  rewrite Hd by (cbn [last]; lia). reflexivity.
Qed.

End SampleEdge.

Lemma stack_first_spec (l : list (tensor float)) (d : tensor float)
  (sh : list nat) :
  l <> [] ->
  Forall (fun t => shape t = sh) l ->
  exists st,
    stack_first l = Ok st /\
    shape st = length l :: sh /\
    forall b ix, b < length l -> data st (b :: ix) = data (nth b l d) ix.
Proof.
  intros Hne Hall. destruct l as [|t1 l]; [congruence|].
  unfold stack_first.
  assert (Hs1 : shape t1 = sh) by now inversion Hall.
  assert (Hsame : same_shapes (shape t1) (t1 :: l) = true).
  { apply forallb_forall. intros t Ht. apply list_eqb_true.
    rewrite Forall_forall in Hall. rewrite (Hall t Ht). now symmetry. }
  rewrite Hsame. eexists. split; [reflexivity|]. cbn [shape data].
  split; [now rewrite Hs1|].
  intros b ix Hb. cbn [hd tl]. f_equal. now apply nth_indep.
Qed.

Lemma find_ext_in {A} (f g : A -> bool) (l : list A) :
  (forall a, In a l -> f a = g a) -> find f l = find g l.
Proof.
  induction l as [|a l IH]; intros H; simpl; [reflexivity|].
  rewrite (H a (or_introl eq_refl)). destruct (g a); [reflexivity|].
  apply IH. intros; apply H; now right.
Qed.

Section MultiEdges.

Variables B L N K K' C : nat.
Variables pos E_idx : tensor Z.
Variable edg : tensor float.
Hypothesis Hpos : shape pos = [B; N].
Hypothesis HE : shape E_idx = [B; L; K].
Hypothesis Hedg : shape edg = [B; L; K'; C].
Hypothesis HB : 1 <= B.
Hypothesis HN : 2 <= N.
Hypothesis Hrange :
  forall b n, b < B -> n < N -> in_range (data pos [b; n]) L = true.
Hypothesis Hfound :
  forall b n n_o k,
    b < B -> n < N -> In n_o (others N n) ->
    neighbour_slot E_idx pos K b n n_o = Some k -> k < K'.

Lemma edges_compiled_spec (n : nat) :
  n < N ->
  exists ec,
    edges_compiled pos E_idx edg (seq 0 N) n = Ok ec /\
    shape ec = [B; C] /\
    forall b c, b < B -> c < C ->
      data ec [b; c] = nan_to_num (nanmean (map (edge_to E_idx pos edg K b n c) (others N n))).
Proof.
  intros Hn. unfold edges_compiled.
  destruct (slice_column pos B N n Hpos Hn) as [Hsl Hsd].
  destruct (select_rows4 edg (slice pos 1 n (n + 1)) B L K' C Hedg Hsl)
    as (sel4 & -> & Hs4 & Hd4).
  { intros b Hb. rewrite Hsd. now apply Hrange. }
  cbn [bind].
  destruct (select_rows3 E_idx (slice pos 1 n (n + 1)) B L K HE Hsl)
    as (sel3 & -> & Hs3 & Hd3).
  { intros b Hb. rewrite Hsd. now apply Hrange. }
  cbn [bind]. unfold size at 1. rewrite Hs3. cbn [nth].
  set (Et := squeeze sel3 1) in *. set (mt := squeeze sel4 1) in *.
  assert (Hnb : forall b n_o, b < B ->
                  first_neighbour Et pos K b n_o =
                  neighbour_slot E_idx pos K b n n_o).
  { intros b n_o Hb. unfold first_neighbour, neighbour_slot.
    apply find_ext_in. intros k Hk. apply in_seq in Hk.
    rewrite Hd3, Hsd by lia. reflexivity. }
  destruct (mapM_spec
              (fun b edge => shape edge = [C] /\
                 forall c, c < C ->
                   data edge [c] =
                   nan_to_num (nanmean (map (edge_to E_idx pos edg K b n c) (others N n))))
              (sample_edge pos Et mt (seq 0 N) n) (seq 0 B))
    as (edges & -> & Hedges).
  { intros b Hb. apply in_seq in Hb. assert (Hb' : b < B) by lia.
    destruct (sample_edge_spec B N K K' C pos Et mt Hpos Hs3 Hs4 b n Hb' HN Hn)
      as (edge & He & Hsh & Hd).
    - intros n_o k Hno Hk. rewrite Hnb in Hk by assumption.
      now apply (Hfound b n n_o k).
    - exists edge. split; [exact He|]. split; [exact Hsh|].
      intros c Hc. rewrite Hd by assumption. f_equal. f_equal.
      apply map_ext_in. intros n_o Hno. unfold edge_to.
      rewrite Hnb by assumption.
      destruct (neighbour_slot E_idx pos K b n n_o) as [k|] eqn:Hk; [|reflexivity].
      rewrite Hd4, Hsd; [reflexivity | assumption | | assumption].
      now apply (Hfound b n n_o k). }
  cbn [bind].
  apply (Forall2_nth_seq _ 0 B edges) in Hedges. destruct Hedges as [Hlen Hnth].
  assert (Hne : edges <> []) by (intros ->; simpl in Hlen; lia).
  assert (Hsh : Forall (fun t => shape t = [C]) edges).
  { apply Forall_forall. intros t Ht.
    destruct (In_nth _ _ (full 0 NaN) Ht) as (j & Hj & <-).
    rewrite Hlen in Hj. exact (proj1 (Hnth j (full 0 NaN) Hj)). }
  destruct (stack_first_spec edges (full 0 NaN) [C] Hne Hsh)
    as (st & -> & Hst & Hd).
  exists st. split; [reflexivity|]. split; [now rewrite Hst, Hlen|].
  intros b c Hb Hc. rewrite Hd by lia.
  exact (proj2 (Hnth b (full 0 NaN) Hb) c Hc).
Qed.

Lemma multi_edges_stack (all : list (tensor float)) :
  Forall2 (fun n ec =>
             shape ec = [B; C] /\
             forall b c, b < B -> c < C ->
               data ec [b; c] =
               nan_to_num (nanmean (map (edge_to E_idx pos edg K b n c)
                                        (others N n))))
          (seq 0 N) all ->
  exists e,
    stack_last all = Ok e /\
    shape e = [B; C; N] /\
    forall b n c, b < B -> n < N -> c < C ->
      data e [b; c; n] =
      nan_to_num (nanmean (map (edge_to E_idx pos edg K b n c) (others N n))).
Proof.
  intros Hall.
  apply (Forall2_nth_seq _ 0 N all) in Hall. destruct Hall as [Hlen Hnth].
  assert (Hne : all <> []) by (intros ->; simpl in Hlen; lia).
  assert (Hsh : Forall (fun t => shape t = [B; C]) all).
  { apply Forall_forall. intros t Ht.
    destruct (In_nth _ _ (full 0 NaN) Ht) as (j & Hj & <-).
    rewrite Hlen in Hj. exact (proj1 (Hnth j (full 0 NaN) Hj)). }
  destruct (stack_last_spec all (full 0 NaN) [B; C] Hne Hsh)
    as (st & -> & Hst & Hd).
  exists st. split; [reflexivity|]. split; [now rewrite Hst, Hlen|].
  intros b n c Hb Hn Hc. rewrite Hd by (cbn [last]; lia). cbn [last removelast].
  exact (proj2 (Hnth n (full 0 NaN) Hn) b c Hb Hc).
Qed.

End MultiEdges.

Lemma multi_edges_spec (structure : Type) (M : Modules structure)
  (bo : backbone_out structure) (pos : tensor Z) (B L N K K' C : nat) :
  shape pos = [B; N] ->
  shape (_dist_E_idx M (b_X bo)) = [B; L; K] ->
  shape (mpnn_edges bo) = [B; L; K'; C] ->
  1 <= B ->
  2 <= N ->
  (forall b n, b < B -> n < N -> in_range (data pos [b; n]) L = true) ->
  (forall b n n_o k,
      b < B -> n < N -> In n_o (others N n) ->
      neighbour_slot (_dist_E_idx M (b_X bo)) pos K b n n_o = Some k -> k < K') ->
  exists e,
    multi_edges M bo pos = Ok e /\
    shape e = [B; C; N] /\
    forall b n c, b < B -> n < N -> c < C ->
      data e [b; c; n] =
      nan_to_num
        (nanmean (map (edge_to (_dist_E_idx M (b_X bo)) pos (mpnn_edges bo)
                               K b n c)
                      (others N n))).
Proof.
  intros Hpos HE Hedg HB HN Hrange Hfound.
  unfold multi_edges. rewrite Hpos. cbn [last_dim last].
  set (E_idx := _dist_E_idx M (b_X bo)) in *.
  destruct (mapM_spec
              (fun n ec =>
                 shape ec = [B; C] /\
                 forall b c, b < B -> c < C ->
                   data ec [b; c] =
                   nan_to_num
                     (nanmean (map (edge_to E_idx pos (mpnn_edges bo) K b n c)
                                   (others N n))))
              (edges_compiled pos E_idx (mpnn_edges bo) (seq 0 N)) (seq 0 N))
    as (all & -> & Hall).
  { intros n Hn. apply in_seq in Hn.
    apply (edges_compiled_spec B L N K K' C pos E_idx (mpnn_edges bo));
      (assumption || lia). }
  cbn [bind].
  exact (multi_edges_stack B N K C pos E_idx (mpnn_edges bo) HB HN all Hall).
Qed.

(** A loop whose body never raises. *)
Lemma mapM_map {A B} (f : A -> result B) (g : A -> B) (l : list A) :
  (forall a, In a l -> f a = Ok (g a)) ->
  mapM f l = Ok (map g l).
Proof.
  induction l as [|a l IH]; intros H; cbn [mapM map]; [reflexivity|].
  rewrite (H a (or_introl eq_refl)). cbn [bind].
  rewrite IH by (intros; apply H; now right). reflexivity.
Qed.

(* ================================================================== *)
(** * The claims *)

(** C1. In multi-mutation mode with the aggregation ['mean'], ['sum'],
    ['prod'] or ['max'] and with light attention, once the backbone has run
    and the gather loop has produced the slot embeddings [raw], [forward]
    passes each of them through [self.light_attention] (giving one [(B, E)]
    tensor per slot) and, when the first slot of every sample is visible,
    combines them into a [(B, E)] embedding whose entry for sample [b] and
    channel [e] is the chosen reduction ([nanmean], [sum], [prod], [max]) of
    the post-light-attention entries of the slots of [b] that are not
    masked; a slot is masked when its mutant, wild-type and position entries
    sum to zero.  For ['mean'] the result is the plain mean of the unmasked
    entries when none of them is NaN.  (Without [cfg.model.lightattn] line
    276 raises and nothing is returned.) *)
Theorem aggregation_over_unmasked_slots :
  forall (structure : Type) (M : Modules structure) (cfg : Cfg)
         (inp : batch structure) (name : string) (B N E : nat)
         (bo : backbone_out structure) (raw : list (tensor float))
         (d : tensor float),
    aggregation cfg = Some name ->
    simple_aggregation name = true ->
    lightattn cfg = true ->
    mutations_shaped inp B N ->
    0 < N ->
    (Z.of_nat B < 2 ^ 63)%Z ->
    run_backbone M cfg inp = Ok bo ->
    gathered_embeds M cfg bo inp = Ok raw ->
    Forall (fun g => shape (light_attention M (unsqueeze_last g)) = [B; E])
           raw ->
    (forall b, b < B -> slot_masked inp b 0 = false) ->
    exists out,
      combined_embedding M cfg inp = Ok out /\
      shape out = [B; E] /\
      forall b e, b < B -> e < E ->
        let unmasked :=
          map (fun i =>
                 data (light_attention M (unsqueeze_last (nth i raw d))) [b; e])
              (filter (fun i => negb (slot_masked inp b i)) (seq 0 N)) in
        data out [b; e] = reduction name unmasked /\
        (name = "mean"%string ->
         Forall (fun x => is_nan x = false) unmasked ->
         data out [b; e] = fmean unmasked).
Proof.
  intros structure M cfg inp name B N E bo raw d Hagg Hname Hla Hshape HN HB
         Hbo Hraw Hsh Hvis.
  set (la := fun g => light_attention M (unsqueeze_last g)).
  assert (Hembs : post_la_embeds M cfg inp = Ok (map la raw)).
  { unfold post_la_embeds, post_light_attention.
    rewrite Hbo. cbn [bind]. rewrite Hraw. cbn [bind]. rewrite Hla.
    now apply mapM_map. }
  rewrite (combined_multi_simple structure M cfg inp name Hagg (simple_not_mpnn name Hname)).
  rewrite Hembs. cbn [bind].
  assert (Hlen : length (map la raw) = N).
  { rewrite (post_la_embeds_length structure M cfg inp _ Hembs).
    destruct Hshape as (_ & _ & ->). reflexivity. }
  assert (Hsh' : Forall (fun t => shape t = [B; E]) (map la raw))
    by (apply Forall_map; exact Hsh).
  destruct (aggregate_simple_spec structure cfg inp B N E (map la raw) (la d)
              Hshape HN HB Hlen Hsh' name Hagg Hname Hvis)
    as (out & Hout & Hs & Hd).
  exists out. split; [exact Hout|]. split; [exact Hs|].
  intros b e Hb He. cbv zeta.
  assert (Heq : map (fun i => data (nth i (map la raw) (la d)) [b; e])
                    (filter (fun i => negb (slot_masked inp b i)) (seq 0 N)) =
                map (fun i =>
                       data (light_attention M (unsqueeze_last (nth i raw d)))
                            [b; e])
                    (filter (fun i => negb (slot_masked inp b i)) (seq 0 N))).
  { apply map_ext. intros i. now rewrite (map_nth la). }
  rewrite <- Heq. split; [now apply Hd|].
  intros -> Hnan. rewrite Hd by assumption.
  change (reduction "mean") with nanmean. now apply nanmean_no_nan.
Qed.

Lemma aggregation_over_unmasked_slots_witness :
  exists out,
    combined_embedding (toy_modules 21) (toy_cfg (Some "mean"%string)) toy_batch
    = Ok out /\
    shape out = [2; 4] /\
    forall b e, b < 2 -> e < 4 ->
      let unmasked :=
        map (fun i =>
               data (light_attention (toy_modules 21)
                       (unsqueeze_last
                          (nth i
                             (value []
                                (gathered_embeds (toy_modules 21)
                                   (toy_cfg (Some "mean"%string))
                                   (value toy_backbone_out
                                      (run_backbone (toy_modules 21)
                                         (toy_cfg (Some "mean"%string))
                                         toy_batch))
                                   toy_batch))
                             (full 0 NaN)))) [b; e])
            (filter (fun i => negb (slot_masked toy_batch b i)) (seq 0 2)) in
      data out [b; e] = reduction "mean" unmasked /\
      ("mean"%string = "mean"%string ->
       Forall (fun x => is_nan x = false) unmasked ->
       data out [b; e] = fmean unmasked).
Proof.
  apply (aggregation_over_unmasked_slots _ (toy_modules 21)
           (toy_cfg (Some "mean"%string)) toy_batch "mean" 2 2 4
           (value toy_backbone_out
              (run_backbone (toy_modules 21) (toy_cfg (Some "mean"%string))
                 toy_batch))).
  - reflexivity.
  - reflexivity.
  - reflexivity.
  - repeat split.
  - lia.
  - lia.
  - vm_compute. reflexivity.
  - vm_compute. reflexivity.
  - vm_compute. repeat constructor.
  - intros b Hb. destruct b as [|[|b]]; [reflexivity | reflexivity | lia].
Defined.

(** C9. In multi-mutation mode [forward] asserts that the first mutation
    slot of every sample is visible.  When the steps before the assertion
    have run and the first slot of some sample sums to zero, [forward] raises
    [AssertionError]; in particular a first mutation at position 0 with
    wild-type index 0 and mutant index 0 is rejected.  When the first slot of
    every sample has a nonzero sum, [forward] never raises
    [AssertionError]. *)
Theorem first_slot_assertion :
  forall (structure : Type) (M : Modules structure) (cfg : Cfg)
         (inp : batch structure) (name : string) (B N : nat),
    aggregation cfg = Some name ->
    mutations_shaped inp B N ->
    0 < N ->
    (Z.of_nat B < 2 ^ 63)%Z ->
    (forall embs,
        before_assertion M cfg inp = Ok embs ->
        (exists b, b < B /\ slot_masked inp b 0 = true) ->
        forward M cfg inp = Raise AssertionError) /\
    (forall embs b,
        before_assertion M cfg inp = Ok embs ->
        b < B ->
        data (mut_positions inp) [b; 0] = 0%Z ->
        data (mut_wildtype_AAs inp) [b; 0] = 0%Z ->
        data (mut_mutant_AAs inp) [b; 0] = 0%Z ->
        forward M cfg inp = Raise AssertionError) /\
    ((forall b, b < B -> slot_masked inp b 0 = false) ->
     forward M cfg inp <> Raise AssertionError).
Proof.
  intros structure M cfg inp name B N Hagg Hshape HN HB.
  assert (Hfire : forall embs,
             before_assertion M cfg inp = Ok embs ->
             (exists b, b < B /\ slot_masked inp b 0 = true) ->
             forward M cfg inp = Raise AssertionError).
  { intros embs Hbefore Hmasked. unfold forward.
    rewrite (combined_multi structure M cfg inp name Hagg), Hbefore. cbn [bind].
    destruct (String.eqb name "mpnn") eqn:Hn.
    - now rewrite (aggregate_mpnn_asserts structure M cfg inp B N Hshape HN HB).
    - unfold before_assertion, is_str in Hbefore. rewrite Hagg, Hn in Hbefore.
      apply bind_ok in Hbefore. destruct Hbefore as (bo & _ & Hbefore).
      apply bind_ok in Hbefore. destruct Hbefore as (raw & _ & Hbefore).
      apply bind_ok in Hbefore. destruct Hbefore as (embs' & _ & Hbefore).
      apply bind_ok in Hbefore. destruct Hbefore as (st & Hst & Hbefore).
      injection Hbefore as ->.
      now rewrite (aggregate_simple_asserts structure cfg inp B N Hshape HN HB
                     embs st Hst Hmasked). }
  split; [exact Hfire|]. split.
  - intros embs b Hbefore Hb Hp Hw Hm. apply (Hfire embs Hbefore).
    exists b. split; [exact Hb|]. unfold slot_masked. now rewrite Hp, Hw, Hm.
  - intros Hvis Habs.
    assert (H : raises_only (fun e => e <> AssertionError) (forward M cfg inp)).
    { unfold forward. apply raises_bind; [|intros; raises_lib].
      unfold combined_embedding, multi_mutations. rewrite Hagg.
      apply raises_bind; [raises_lib|]. intros bo.
      unfold forward_multi.
      apply raises_bind; [raises_lib|]. intros raw.
      destruct (is_str (aggregation cfg) "mpnn").
      - now apply (aggregate_mpnn_passes structure M cfg inp B N).
      - apply raises_bind; [raises_lib|]. intros embs.
        now apply (aggregate_simple_passes structure cfg inp B N). }
    rewrite Habs in H. now apply H.
Qed.

Lemma first_slot_assertion_witness :
  forward (toy_modules 21) (toy_cfg (Some "sum"%string)) toy_zero_first_batch
  = Raise AssertionError /\
  forward (toy_modules 21) (toy_cfg (Some "sum"%string)) toy_batch
  <> Raise AssertionError.
Proof.
  split.
  - apply (proj1 (proj2
             (first_slot_assertion _ (toy_modules 21)
                (toy_cfg (Some "sum"%string)) toy_zero_first_batch "sum" 2 2
                eq_refl (conj eq_refl (conj eq_refl eq_refl))
                Nat.lt_0_2 eq_refl))
           (value [] (before_assertion (toy_modules 21)
                        (toy_cfg (Some "sum"%string)) toy_zero_first_batch))
           0).
    + vm_compute. reflexivity.
    + lia.
    + reflexivity.
    + reflexivity.
    + reflexivity.
  - apply (proj2 (proj2
             (first_slot_assertion _ (toy_modules 21)
                (toy_cfg (Some "sum"%string)) toy_batch "sum" 2 2
                eq_refl (conj eq_refl (conj eq_refl eq_refl))
                Nat.lt_0_2 eq_refl))).
    intros b Hb. destruct b as [|[|b]]; [reflexivity | reflexivity | lia].
Defined.

Section NeverReturns.

Variable structure : Type.
Variable cfg : Cfg.
Variable inp : batch structure.

Lemma aggregate_simple_never_returns (name : string) (embs : list (tensor float)) :
  aggregation cfg = Some name ->
  known_aggregation name = false ->
  exists e, aggregate_simple cfg inp embs = Raise e.
Proof.
  intros Hagg Hname. unfold aggregate_simple, is_str. rewrite Hagg.
  unfold known_aggregation, simple_aggregation in Hname.
  apply orb_false_iff in Hname. destruct Hname as [_ Hname].
  apply orb_false_iff in Hname. destruct Hname as [Hname Hmax].
  apply orb_false_iff in Hname. destruct Hname as [Hname Hprod].
  apply orb_false_iff in Hname. destruct Hname as [Hmean Hsum].
  rewrite Hmean, Hsum, Hprod, Hmax.
  destruct (stack_last embs); cbn [bind]; [|eauto].
  destruct (padding_mask _ _ _); cbn [bind]; [|eauto].
  destruct (assert_first_visible _); cbn [bind]; [|eauto].
  destruct (expand_mask _ _); cbn [bind]; eauto.
Qed.

End NeverReturns.

(** C4 (amended).  In multi-mutation mode with an aggregation name outside
    ['mpnn'], ['mean'], ['sum'], ['prod'], ['max'], [forward] never returns.
    It raises [ValueError "Invalid aggregation function selected"] once the
    steps before the first-slot assertion have run and the first slot of
    every sample is visible; otherwise an earlier exception is raised.
    Conversely [forward] raises a [ValueError] only with that message and
    only for such an aggregation name. *)
Theorem invalid_aggregation_rejected :
  forall (structure : Type) (M : Modules structure) (cfg : Cfg)
         (inp : batch structure),
    (forall name,
        aggregation cfg = Some name ->
        known_aggregation name = false ->
        (exists e, forward M cfg inp = Raise e) /\
        (forall B N embs,
            mutations_shaped inp B N ->
            0 < N ->
            (Z.of_nat B < 2 ^ 63)%Z ->
            before_assertion M cfg inp = Ok embs ->
            (forall b, b < B -> slot_masked inp b 0 = false) ->
            forward M cfg inp = Raise (ValueError invalid_aggregation))) /\
    (forall msg,
        forward M cfg inp = Raise (ValueError msg) ->
        msg = invalid_aggregation /\
        exists name,
          aggregation cfg = Some name /\ known_aggregation name = false).
Proof.
  intros structure M cfg inp. split.
  - intros name Hagg Hname.
    assert (Hn : String.eqb name "mpnn" = false).
    { unfold known_aggregation in Hname.
      apply orb_false_iff in Hname. tauto. }
    assert (Hfwd : forward M cfg inp =
                   (embs <- before_assertion M cfg inp ;;
                    emb <- aggregate_simple cfg inp embs ;;
                    index_ddg cfg (ddg_out M emb) inp)).
    { unfold forward.
      rewrite (combined_multi structure M cfg inp name Hagg), Hn.
      now destruct (before_assertion M cfg inp). }
    rewrite Hfwd. split.
    + destruct (before_assertion M cfg inp) as [embs|e]; cbn [bind]; [|eauto].
      destruct (aggregate_simple_never_returns structure cfg inp name embs
                  Hagg Hname) as (e & ->).
      cbn [bind]. eauto.
    + intros B N embs Hshape HN HB Hbefore Hvis. rewrite Hbefore. cbn [bind].
      unfold before_assertion, is_str in Hbefore. rewrite Hagg, Hn in Hbefore.
      apply bind_ok in Hbefore. destruct Hbefore as (bo & _ & Hbefore).
      apply bind_ok in Hbefore. destruct Hbefore as (raw & _ & Hbefore).
      apply bind_ok in Hbefore. destruct Hbefore as (embs' & _ & Hbefore).
      apply bind_ok in Hbefore. destruct Hbefore as (st & Hst & Hbefore).
      injection Hbefore as ->.
      now rewrite (aggregate_simple_rejects structure cfg inp B N Hshape HN HB
                     Hvis name embs st Hagg Hname Hst).
  - intros msg Hraise.
    pose proof (forward_raises structure M cfg inp) as H.
    rewrite Hraise in H. exact H.
Qed.

Lemma invalid_aggregation_rejected_witness :
  (exists e,
      forward (toy_modules 21) (toy_cfg (Some "median"%string)) toy_batch
      = Raise e) /\
  forward (toy_modules 21) (toy_cfg (Some "median"%string)) toy_batch
  = Raise (ValueError invalid_aggregation).
Proof.
  pose proof (proj1 (invalid_aggregation_rejected _ (toy_modules 21)
                       (toy_cfg (Some "median"%string)) toy_batch)
                "median"%string eq_refl eq_refl) as [Hnever Hvalue].
  split; [exact Hnever|].
  apply (Hvalue 2 2
           (value [] (before_assertion (toy_modules 21)
                        (toy_cfg (Some "median"%string)) toy_batch))).
  - repeat split.
  - lia.
  - reflexivity.
  - vm_compute. reflexivity.
  - intros b Hb. destruct b as [|[|b]]; [reflexivity | reflexivity | lia].
Defined.

(** C4 as stated fails: with an unknown aggregation name and a first slot
    made of zeros the assertion fires before the name is looked at, so the
    exception is an [AssertionError] and not the [ValueError]. *)
Lemma invalid_aggregation_counterexample :
  aggregation (toy_cfg (Some "median"%string)) = Some "median"%string /\
  known_aggregation "median" = false /\
  forward (toy_modules 21) (toy_cfg (Some "median"%string)) toy_zero_first_batch
  = Raise AssertionError /\
  forward (toy_modules 21) (toy_cfg (Some "median"%string)) toy_zero_first_batch
  <> Raise (ValueError invalid_aggregation).
Proof.
  split; [reflexivity|]. split; [reflexivity|].
  assert (H : forward (toy_modules 21) (toy_cfg (Some "median"%string))
                toy_zero_first_batch = Raise AssertionError)
    by (vm_compute; reflexivity).
  split; [exact H|]. rewrite H. discriminate.
Qed.

(** C5. [self.multi_mutations] is true exactly when [cfg.model.aggregation]
    is not [None], and [forward] takes the multi-mutation branch (with the
    sequence check before the backbone) exactly then; otherwise it takes the
    single-mutation indexing branch on the sequence as given. *)
Theorem dispatch_on_aggregation :
  forall (structure : Type) (M : Modules structure) (cfg : Cfg)
         (inp : batch structure),
    (multi_mutations cfg = true <-> aggregation cfg <> None) /\
    combined_embedding M cfg inp =
      (bo <- run_backbone M cfg inp ;;
       match aggregation cfg with
       | Some _ => forward_multi M cfg bo inp
       | None => forward_single M cfg bo inp
       end) /\
    (forall bo,
        run_backbone M cfg inp = Ok bo ->
        match aggregation cfg with
        | Some _ =>
            _check_sequence_match (S inp) (mut_wildtype_AAs inp)
                                  (mut_mutant_AAs inp) (mut_positions inp)
            = Ok (b_S bo)
        | None => b_S bo = S inp
        end).
Proof.
  intros structure M cfg inp.
  unfold combined_embedding, run_backbone, multi_mutations.
  destruct (aggregation cfg) as [name|].
  - split; [split; [discriminate | reflexivity]|]. split; [reflexivity|].
    intros bo H. apply bind_ok in H. destruct H as (S' & HS & H).
    destruct (prot_mpnn M _ S') as [[hid emb] edg].
    injection H as <-. exact HS.
  - split; [split; [discriminate | congruence]|]. split; [reflexivity|].
    intros bo H. cbn [bind] in H.
    destruct (prot_mpnn M _ (S inp)) as [[hid emb] edg].
    injection H as <-. reflexivity.
Qed.

Lemma final_linear (dropout : option Qc) (V : Z) (hidden : list Z) (h0 : Z) :
  exists front n_in,
    flat_map
      (fun '(sz1, sz2) =>
         (match dropout with
          | Some drop => [Dropout drop]
          | None => []
          end) ++ [ReLU; Linear sz1 sz2])
      (combine (h0 :: hidden ++ [V]) (hidden ++ [V]))
    = front ++ [Linear n_in V].
Proof.
  set (F := fun p : Z * Z =>
              let '(sz1, sz2) := p in
              (match dropout with
               | Some drop => [Dropout drop]
               | None => []
               end) ++ [ReLU; Linear sz1 sz2]).
  revert h0. induction hidden as [|h hidden IH]; intros h0.
  - exists (match dropout with
            | Some drop => [Dropout drop]
            | None => []
            end ++ [ReLU]), h0.
    simpl. rewrite app_nil_r, <- app_assoc. reflexivity.
  - destruct (IH h) as (front & n_in & Hfront).
    exists (F (h0, h) ++ front), n_in.
    change (flat_map F (combine (h0 :: (h :: hidden) ++ [V])
                                ((h :: hidden) ++ [V])))
      with (F (h0, h) ++
            flat_map F (combine (h :: hidden ++ [V]) (hidden ++ [V]))).
    now rewrite Hfront, app_assoc.
Qed.

(** C6. [_set_model_dims] returns a vocabulary dimension of 21 exactly when
    [single_target] is unset and of 1 otherwise, and the last layer of the
    head [ddg_out] is a linear layer with that output size. *)
Theorem head_output_dimension :
  forall cfg : Cfg,
    (VOCAB_DIM cfg = 21%Z <-> single_target cfg = false) /\
    (VOCAB_DIM cfg = 1%Z <-> single_target cfg = true) /\
    exists front n_in,
      ddg_out_layers cfg = front ++ [Linear n_in (VOCAB_DIM cfg)].
Proof.
  intros cfg. split; [|split].
  - unfold VOCAB_DIM, _set_model_dims. cbn [snd].
    destruct (single_target cfg); simpl; split; congruence || discriminate.
  - unfold VOCAB_DIM, _set_model_dims. cbn [snd].
    destruct (single_target cfg); simpl; split; congruence || discriminate.
  - unfold ddg_out_layers, hid_sizes. cbn [app tl].
    destruct (final_linear (dropout cfg) (VOCAB_DIM cfg) (hidden_dims cfg)
                (HIDDEN_DIM cfg * num_final_layers cfg + EMBED_DIM cfg)%Z)
      as (front & n_in & ->).
    eexists (_ ++ front), n_in. now rewrite <- app_assoc.
Qed.

(** C2. The embedding gathered for mutation slot [i] is, for every sample
    [b], the row of the concatenated per-residue embedding tensor at index
    [mut_positions[b, i]].  The gather of lines 217-219 succeeds when the
    positions are inside the sequence and returns those rows; the entry that
    the loop appends to [all_mpnn_embed] starts with them.  In the
    single-mutation branch the gather of lines 329-330 returns the rows at
    [mut_positions[b, 0]], and these rows are what the branch goes on with:
    whatever it returns is the embedding that starts with them, after light
    attention when that is enabled, and without an auxiliary embedding it is
    those rows themselves. *)
Theorem gather_reads_mutated_row :
  forall (structure : Type) (M : Modules structure) (cfg : Cfg),
    (forall (f : feats) (pos : tensor Z) (i B L E N : nat),
        shape (f_embed f) = [B; L; E] ->
        shape pos = [B; N] ->
        i < N ->
        (forall b, b < B -> in_range (data pos [b; i]) L = true) ->
        exists gathered_embed,
          gather_rows (f_embed f) (slice pos 1 i (i + 1)) = Ok gathered_embed /\
          shape gathered_embed = [B; E] /\
          forall b e, b < B -> e < E ->
            data gathered_embed [b; e] =
            data (f_embed f) [b; Z.to_nat (data pos [b; i]); e]) /\
    (forall (bo : backbone_out structure) (inp : batch structure) (f : feats)
            (embs : list (tensor float)) (d : tensor float) (B L E N : nat),
        multi_features M cfg bo inp = Ok f ->
        gathered_embeds M cfg bo inp = Ok embs ->
        shape (f_embed f) = [B; L; E] ->
        mutations_shaped inp B N ->
        forall i b e, i < N -> b < B -> e < E ->
          data (nth i embs d) [b; e] =
          data (f_embed f) [b; Z.to_nat (data (mut_positions inp) [b; i]); e]) /\
    (forall (bo : backbone_out structure) (inp : batch structure)
            (emb : tensor float) (hid : option (tensor float)) (B L E : nat),
        single_embeds M cfg bo inp = Ok (emb, hid) ->
        shape emb = [B; L; E] ->
        shape (mut_positions inp) = [B; 1] ->
        (forall b, b < B ->
                   in_range (data (mut_positions inp) [b; 0]) L = true) ->
        exists gathered,
          gather_rows emb (mut_positions inp) = Ok gathered /\
          shape gathered = [B; E] /\
          (forall b e, b < B -> e < E ->
             data gathered [b; e] =
             data emb [b; Z.to_nat (data (mut_positions inp) [b; 0]); e]) /\
          (forall out,
             forward_single M cfg bo inp = Ok out ->
             exists last_embed,
               starts_with B E gathered last_embed /\
               out = if lightattn cfg
                     then light_attention M (unsqueeze_last last_embed)
                     else last_embed) /\
          (auxiliary_embedding cfg = None ->
           forward_single M cfg bo inp =
           Ok (if lightattn cfg
               then light_attention M (unsqueeze_last gathered)
               else gathered))).
Proof.
  intros structure M cfg. split; [|split].
  - intros f pos i B L E N Hf Hp Hi Hr.
    destruct (slice_column pos B N i Hp Hi) as [Hsl Hsd].
    destruct (gather_rows_spec (f_embed f) (slice pos 1 i (i + 1)) B L E Hf Hsl)
      as (g & Hg & Hs & Hd).
    { intros b Hb. rewrite Hsd. now apply Hr. }
    exists g. split; [exact Hg|]. split; [exact Hs|].
    intros b e Hb He. now rewrite Hd, Hsd.
  - intros bo inp f embs d B L E N Hfeat Hembs Hf (Hp & Hw & Hm) i b e Hi Hb He.
    unfold gathered_embeds in Hembs. rewrite Hfeat, Hm in Hembs.
    cbn [bind last_dim last] in Hembs.
    destruct (mapM_seq _ _ _ Hembs) as [_ Hnth].
    specialize (Hnth i d Hi).
    destruct (slot_embed_starts_with structure M cfg f (mut_positions inp)
                i B L E N _ Hf Hp Hi Hnth) as (g0 & Hg0 & (E' & _ & _ & Hpre)).
    destruct (slice_column (mut_positions inp) B N i Hp Hi) as [Hsl Hsd].
    destruct (gather_rows_inv (f_embed f) _ B L E g0 Hf Hsl Hg0) as [_ Hrow].
    rewrite Hpre by assumption.
    destruct (Hrow b e Hb He) as [_ ->]. now rewrite Hsd.
  - intros bo inp emb hid B L E Hse Hs Hp Hr.
    destruct (gather_rows_spec emb (mut_positions inp) B L E Hs Hp Hr)
      as (g & Hg & Hsg & Hd).
    exists g. split; [exact Hg|]. split; [exact Hsg|]. split; [exact Hd|].
    unfold forward_single. rewrite Hse. cbn [bind]. rewrite Hg. cbn [bind].
    split.
    + intros out Hout.
      apply bind_ok in Hout. destruct Hout as (g1 & Hg1 & Hout).
      apply bind_ok in Hout. destruct Hout as (g2 & Hg2 & Hout).
      assert (H1 : starts_with B E g g1).
      { destruct (is_str (auxiliary_embedding cfg) "globalMPNN").
        - destruct hid as [h|]; [|discriminate].
          eapply starts_with_cat; [|exact Hg1]. now apply starts_with_refl.
        - injection Hg1 as <-. now apply starts_with_refl. }
      assert (H2 : starts_with B E g g2).
      { destruct (is_str (auxiliary_embedding cfg) "localESM").
        - destruct (esm_emb inp) as [esm|]; [|discriminate].
          apply bind_ok in Hg2. destruct Hg2 as (e & _ & Hg2).
          eapply starts_with_cat; eassumption.
        - now injection Hg2 as <-. }
      exists g2. split; [exact H2|].
      destruct (lightattn cfg); now injection Hout as <-.
    + intros Haux. unfold is_str. rewrite Haux. cbn [bind].
      now destruct (lightattn cfg).
Qed.

Lemma gather_reads_mutated_row_witness :
  (exists gathered_embed,
      gather_rows (mkT [2; 4; 2] tag)
                  (slice (mut_positions toy_batch) 1 1 (1 + 1))
      = Ok gathered_embed /\
      shape gathered_embed = [2; 2] /\
      forall b e, b < 2 -> e < 2 ->
        data gathered_embed [b; e] =
        data (mkT [2; 4; 2] tag)
             [b; Z.to_nat (data (mut_positions toy_batch) [b; 1]); e]) /\
  (let emb :=
     fst (value (full 0 NaN, None)
            (single_embeds (toy_modules 21) (toy_head_cfg false false)
               toy_backbone_out toy_single_batch)) in
   exists gathered,
     gather_rows emb (mut_positions toy_single_batch) = Ok gathered /\
     shape gathered = [2; 4] /\
     (forall b e, b < 2 -> e < 4 ->
        data gathered [b; e] =
        data emb [b; Z.to_nat (data (mut_positions toy_single_batch) [b; 0]); e])
     /\
     (forall out,
        forward_single (toy_modules 21) (toy_head_cfg false false)
          toy_backbone_out toy_single_batch = Ok out ->
        exists last_embed,
          starts_with 2 4 gathered last_embed /\
          out = light_attention (toy_modules 21) (unsqueeze_last last_embed)) /\
     (@None string = None ->
      forward_single (toy_modules 21) (toy_head_cfg false false)
        toy_backbone_out toy_single_batch =
      Ok (light_attention (toy_modules 21) (unsqueeze_last gathered)))).
Proof.
  split.
  - apply (proj1 (gather_reads_mutated_row _ (toy_modules 21) (toy_cfg None))
             {| f_embed := mkT [2; 4; 2] tag; f_mut_embed := None;
                f_edges := full 0 NaN; f_dist := None; f_side := None |}
             (mut_positions toy_batch) 1 2 4 2 2).
    + reflexivity.
    + reflexivity.
    + lia.
    + intros b Hb. destruct b as [|[|b]]; [reflexivity | reflexivity | lia].
  - cbv zeta.
    apply (proj2 (proj2 (gather_reads_mutated_row _ (toy_modules 21)
                           (toy_head_cfg false false)))
             toy_backbone_out toy_single_batch _
             (snd (value (full 0 NaN, None)
                     (single_embeds (toy_modules 21) (toy_head_cfg false false)
                        toy_backbone_out toy_single_batch)))
             2 4 4).
    + vm_compute. reflexivity.
    + reflexivity.
    + reflexivity.
    + intros b Hb. destruct b as [|[|b]]; [reflexivity | reflexivity | lia].
Defined.

Lemma gather_columns (ddg : tensor float) (index : tensor Z) (B V N : nat) :
  shape ddg = [B; V] ->
  shape index = [B; N] ->
  (forall b i, b < B -> i < N -> in_range (data index [b; i]) V = true) ->
  exists g,
    gather ddg 1 index = Ok g /\ shape g = [B; N] /\
    forall b i, data g [b; i] = data ddg [b; Z.to_nat (data index [b; i])].
Proof.
  intros Hd Hi Hr. rewrite gather_ok.
  - eexists. split; [reflexivity|]. split; [exact Hi|]. reflexivity.
  - unfold rank. rewrite Hd. simpl. lia.
  - rewrite Hd, Hi. simpl. now rewrite Nat.leb_refl.
  - intros ix Hix. rewrite Hi in Hix. apply in_shape2_inv in Hix.
    destruct Hix as (b & i & -> & Hb & Hi').
    unfold size. rewrite Hd. simpl nth. now apply Hr.
Qed.

(** C3 (amended).  The head's output [ddg] of shape [(B, V)] is indexed by
    amino-acid identity.  With [subtract_mut] the result is, per sample and
    slot, the score at the mutant index minus the score at the wild-type
    index; with neither [subtract_mut] nor [single_target] it is the score at
    the mutant index; with [single_target] and without [subtract_mut] the
    head's output is returned as it is. *)
Theorem ddg_indexed_by_amino_acid :
  forall (structure : Type) (M : Modules structure) (cfg : Cfg)
         (inp : batch structure) (emb : tensor float) (B N V : nat),
    combined_embedding M cfg inp = Ok emb ->
    shape (ddg_out M emb) = [B; V] ->
    mutations_shaped inp B N ->
    (subtract_mut cfg = true ->
     (forall b i, b < B -> i < N ->
        in_range (data (mut_mutant_AAs inp) [b; i]) V = true /\
        in_range (data (mut_wildtype_AAs inp) [b; i]) V = true) ->
     exists out,
       forward M cfg inp = Ok out /\ shape out = [B; N] /\
       forall b i, b < B -> i < N ->
         data out [b; i] =
         fsub (data (ddg_out M emb)
                    [b; Z.to_nat (data (mut_mutant_AAs inp) [b; i])])
              (data (ddg_out M emb)
                    [b; Z.to_nat (data (mut_wildtype_AAs inp) [b; i])])) /\
    (subtract_mut cfg = false -> single_target cfg = false ->
     (forall b i, b < B -> i < N ->
        in_range (data (mut_mutant_AAs inp) [b; i]) V = true) ->
     exists out,
       forward M cfg inp = Ok out /\ shape out = [B; N] /\
       forall b i, b < B -> i < N ->
         data out [b; i] =
         data (ddg_out M emb)
              [b; Z.to_nat (data (mut_mutant_AAs inp) [b; i])]) /\
    (subtract_mut cfg = false -> single_target cfg = true ->
     forward M cfg inp = Ok (ddg_out M emb)).
Proof.
  intros structure M cfg inp emb B N V Hemb Hddg (Hp & Hw & Hm).
  unfold forward. rewrite Hemb. cbn [bind]. unfold index_ddg.
  split; [|split].
  - intros -> Hr.
    destruct (gather_columns (ddg_out M emb) (mut_mutant_AAs inp) B V N Hddg Hm)
      as (gm & -> & Hgm & Hdm); [intros; now apply Hr|].
    destruct (gather_columns (ddg_out M emb) (mut_wildtype_AAs inp) B V N Hddg Hw)
      as (gw & -> & Hgw & Hdw); [intros; now apply Hr|].
    cbn [bind]. unfold broadcast2. rewrite Hgm, Hgw, broadcast_shape_same.
    eexists. split; [reflexivity|]. split; [reflexivity|].
    intros b i Hb Hi. cbn [data].
    now rewrite (bindex_in_shape _ _ (in_shape2 _ _ _ _ Hb Hi)), Hdm, Hdw.
  - intros -> -> Hr.
    destruct (gather_columns (ddg_out M emb) (mut_mutant_AAs inp) B V N Hddg Hm Hr)
      as (gm & -> & Hgm & Hdm).
    exists gm. split; [reflexivity|]. split; [exact Hgm|].
    intros b i _ _. apply Hdm.
  - intros -> ->. reflexivity.
Qed.

Lemma ddg_indexed_by_amino_acid_witness :
  exists out,
    forward (toy_modules 21) (toy_head_cfg true false) toy_single_batch = Ok out /\
    shape out = [2; 1] /\
    forall b i, b < 2 -> i < 1 ->
      data out [b; i] =
      fsub (data (ddg_out (toy_modules 21)
                    (value (full 0 NaN)
                       (combined_embedding (toy_modules 21)
                          (toy_head_cfg true false) toy_single_batch)))
                 [b; Z.to_nat (data (mut_mutant_AAs toy_single_batch) [b; i])])
           (data (ddg_out (toy_modules 21)
                    (value (full 0 NaN)
                       (combined_embedding (toy_modules 21)
                          (toy_head_cfg true false) toy_single_batch)))
                 [b; Z.to_nat (data (mut_wildtype_AAs toy_single_batch) [b; i])]).
Proof.
  apply (proj1 (ddg_indexed_by_amino_acid _ (toy_modules 21)
                  (toy_head_cfg true false) toy_single_batch _ 2 1 21
                  eq_refl eq_refl (conj eq_refl (conj eq_refl eq_refl)))).
  - reflexivity.
  - intros b i Hb Hi. assert (i = 0) as -> by lia.
    destruct b as [|[|b]]; [split; reflexivity | split; reflexivity | lia].
Defined.

(** C3 as stated fails in its last clause: when [single_target] and
    [subtract_mut] are both set the one-column output of the head is still
    indexed.  An ordinary mutation (mutant index 5) is then out of range and
    [forward] raises; a mutation with both indices 0 returns the difference
    of the score with itself, not the score. *)
Lemma ddg_indexing_counterexample :
  single_target (toy_head_cfg true true) = true /\
  forward (toy_modules 1) (toy_head_cfg true true) toy_single_batch
  = Raise RuntimeError /\
  let emb := combined_embedding (toy_modules 1) (toy_head_cfg true true)
                                toy_alanine_batch in
  let out := forward (toy_modules 1) (toy_head_cfg true true)
                     toy_alanine_batch in
  is_ok emb = true /\
  is_ok out = true /\
  rational (data (ddg_out (toy_modules 1) (value (full 0 NaN) emb)) [0; 0])
  = Some (1020 # 1)%Q /\
  rational (data (value (full 0 NaN) out) [0; 0]) = Some (0 # 1)%Q.
Proof.
  split; [reflexivity|]. split; [vm_compute; reflexivity|].
  cbv zeta. repeat split; vm_compute; reflexivity.
Qed.

(** C8 fails on the code.  [_check_sequence_match] compares the sequence
    with the wild-type entries through the sum of their differences, so a
    batch whose differences cancel is returned unchanged although it
    disagrees with the wild type at the mutated positions. *)
Theorem check_sequence_match_misses_cancelling_mismatch :
  let S' := _check_sequence_match cancelling_S cancelling_wt cancelling_mut
                                  cancelling_pos in
  is_ok S' = true /\
  to_rows (value cancelling_S S') = [[3; 7; 5]; [4; 9; 2]]%Z /\
  data cancelling_pos [0; 0] = 1%Z /\
  data (value cancelling_S S') [0; 1] = 7%Z /\
  data cancelling_wt [0; 0] = 6%Z /\
  data (value cancelling_S S') [0; 1] <> data cancelling_wt [0; 0].
Proof.
  cbv zeta. repeat split; try (vm_compute; reflexivity).
  vm_compute. discriminate.
Qed.

(** C10. In the edges path the feature that is concatenated for mutation [n]
    of sample [b] is, in every channel, [nan_to_num] of the [nanmean] over
    the other mutations of the edge to their position, where a position that
    is not among the neighbours [E_idx] of the current position gives NaN.
    It therefore equals the same mean taken over the neighbouring mutations
    only, and it is zero in every channel when none of the other mutated
    positions is a neighbour. *)
Theorem edges_only_between_neighbours :
  forall (structure : Type) (M : Modules structure)
         (bo : backbone_out structure) (pos : tensor Z) (B L N K K' C : nat),
    let E_idx := _dist_E_idx M (b_X bo) in
    shape pos = [B; N] ->
    shape E_idx = [B; L; K] ->
    shape (mpnn_edges bo) = [B; L; K'; C] ->
    1 <= B ->
    2 <= N ->
    (forall b n, b < B -> n < N -> in_range (data pos [b; n]) L = true) ->
    (forall b n n_o k,
        b < B -> n < N -> In n_o (others N n) ->
        neighbour_slot E_idx pos K b n n_o = Some k -> k < K') ->
    exists e,
      multi_edges M bo pos = Ok e /\
      shape e = [B; C; N] /\
      forall b n c, b < B -> n < N -> c < C ->
        let edge := edge_to E_idx pos (mpnn_edges bo) K b n c in
        let neighbour n_o := is_some (neighbour_slot E_idx pos K b n n_o) in
        data e [b; c; n] = nan_to_num (nanmean (map edge (others N n))) /\
        data e [b; c; n] =
          nan_to_num (nanmean (map edge (filter neighbour (others N n)))) /\
        ((forall n_o, In n_o (others N n) -> neighbour n_o = false) ->
         data e [b; c; n] = Fin 0%Qc).
Proof.
  intros structure M bo pos B L N K K' C E_idx Hpos HE Hedg HB HN Hrange Hfound.
  destruct (multi_edges_spec structure M bo pos B L N K K' C Hpos HE Hedg HB HN
              Hrange Hfound) as (e & -> & Hs & Hd).
  fold E_idx in Hd.
  exists e. split; [reflexivity|]. split; [exact Hs|].
  intros b n c Hb Hn Hc. cbv zeta.
  set (edge := edge_to E_idx pos (mpnn_edges bo) K b n c).
  set (neighbour := fun n_o => is_some (neighbour_slot E_idx pos K b n n_o)).
  assert (Hfilter :
            nanmean (map edge (others N n)) =
            nanmean (map edge (filter neighbour (others N n)))).
  { rewrite <- (filter_ext (fun n_o => negb (negb (neighbour n_o))) neighbour)
      by (intros; apply negb_involutive).
    rewrite <- (nanmean_masked (fun n_o => negb (neighbour n_o)) edge).
    f_equal. apply map_ext. intros n_o. unfold neighbour, edge, edge_to.
    now destruct (neighbour_slot E_idx pos K b n n_o). }
  rewrite Hd by assumption. fold edge. split; [reflexivity|].
  split; [now rewrite Hfilter|].
  intros Hnone. rewrite Hfilter.
  replace (filter neighbour (others N n)) with (@nil nat).
  - reflexivity.
  - symmetry. now apply filter_nil_iff.
Qed.

Lemma edges_only_between_neighbours_witness :
  exists e,
    multi_edges (toy_modules 21) toy_backbone_out (mut_positions toy_batch)
    = Ok e /\
    shape e = [2; 2; 2] /\
    forall b n c, b < 2 -> n < 2 -> c < 2 ->
      let E_idx := _dist_E_idx (toy_modules 21) (b_X toy_backbone_out) in
      let edge := edge_to E_idx (mut_positions toy_batch)
                          (mpnn_edges toy_backbone_out) 3 b n c in
      let neighbour n_o :=
        is_some (neighbour_slot E_idx (mut_positions toy_batch) 3 b n n_o) in
      data e [b; c; n] = nan_to_num (nanmean (map edge (others 2 n))) /\
      data e [b; c; n] =
        nan_to_num (nanmean (map edge (filter neighbour (others 2 n)))) /\
      ((forall n_o, In n_o (others 2 n) -> neighbour n_o = false) ->
       data e [b; c; n] = Fin 0%Qc).
Proof.
  apply (edges_only_between_neighbours _ (toy_modules 21) toy_backbone_out
           (mut_positions toy_batch) 2 4 2 3 3 2).
  - reflexivity.
  - reflexivity.
  - reflexivity.
  - lia.
  - lia.
  - intros b n Hb Hn.
    destruct b as [|[|b]]; [| |lia];
      (destruct n as [|[|n]]; [reflexivity | reflexivity | lia]).
  - intros b n n_o k _ _ _ Hk. exact (find_some_lt _ 3 k Hk).
Defined.

(** C7. With [cfg.model.edges] and [cfg.model.dist] both enabled the edges
    win.  The input dimension counts 128 for them and nothing for the
    distances; the multi-mutation branch computes the edge features and
    leaves the distance features unbound; every gathered embedding gets its
    column of the edge features concatenated and no distance block, so the
    result of [forward] does not depend on the distance computations at all;
    and with a backbone whose edges have 128 channels each concatenated
    block is [(B, 128)]. *)
Theorem edges_take_precedence_over_distances :
  forall (structure : Type) (M : Modules structure) (cfg : Cfg),
    edges cfg = true ->
    dist cfg = true ->
    EMBED_DIM cfg = (EMBED_DIM (no_pair_features cfg) + 128)%Z /\
    (forall bo inp f,
        multi_features M cfg bo inp = Ok f ->
        f_dist f = None /\
        ((0 < num_final_layers cfg)%Z ->
         multi_edges M bo (mut_positions inp) = Ok (f_edges f))) /\
    (forall f pos i,
        slot_embed M cfg f pos i =
        (gathered_embed <- gather_rows (f_embed f) (slice pos 1 i (i + 1)) ;;
         gathered_embed <-
           (if mutant_embedding cfg then
              match f_mut_embed f with
              | None => Raise UnboundLocalError
              | Some mut_embed =>
                  m <- select mut_embed 2 i ;; cat_last [gathered_embed; m]
              end
            else Ok gathered_embed) ;;
         gathered_embed <-
           (e <- select (f_edges f) 2 i ;; cat_last [gathered_embed; e]) ;;
         if side_chain_module cfg then
           match f_side f with
           | None => Raise UnboundLocalError
           | Some side =>
               side_chain_gathered <-
                 gather_rows side (slice pos 1 i (i + 1)) ;;
               cat_last [gathered_embed; side_chain_gathered]
           end
         else Ok gathered_embed)) /\
    (forall inp pd dn,
        forward (with_distances M pd dn) cfg inp = forward M cfg inp) /\
    (forall bo pos B L N K K',
        shape pos = [B; N] ->
        shape (_dist_E_idx M (b_X bo)) = [B; L; K] ->
        shape (mpnn_edges bo) = [B; L; K'; 128] ->
        1 <= B ->
        2 <= N ->
        (forall b n, b < B -> n < N -> in_range (data pos [b; n]) L = true) ->
        (forall b n n_o k,
            b < B -> n < N -> In n_o (others N n) ->
            neighbour_slot (_dist_E_idx M (b_X bo)) pos K b n n_o = Some k ->
            k < K') ->
        exists e,
          multi_edges M bo pos = Ok e /\
          forall i, i < N ->
            exists e_i, select e 2 i = Ok e_i /\ shape e_i = [B; 128]).
Proof.
  intros structure M cfg He Hd. split; [|split; [|split; [|split]]].
  - unfold EMBED_DIM, _set_model_dims, no_pair_features. cbn [fst snd edges dist
      mutant_embedding side_chain_module auxiliary_embedding].
    rewrite He.
    destruct (mutant_embedding cfg), (side_chain_module cfg),
      (is_str (auxiliary_embedding cfg) "globalMPNN"),
      (is_str (auxiliary_embedding cfg) "localESM"); reflexivity.
  - intros bo inp f H. unfold multi_features in H. rewrite He in H.
    apply bind_ok in H. destruct H as (side & _ & H).
    destruct (0 <? num_final_layers cfg)%Z eqn:Hnfl.
    + apply bind_ok in H. destruct H as (hid & _ & H).
      apply bind_ok in H. destruct H as (emb & _ & H).
      apply bind_ok in H. destruct H as (mut_embed & _ & H).
      apply bind_ok in H. destruct H as (e & Hedges & H).
      injection H as <-. cbn [f_dist f_edges]. split; [reflexivity|].
      intros _. exact Hedges.
    + injection H as <-. cbn [f_dist]. split; [reflexivity|].
      intros Hpos. apply Z.ltb_ge in Hnfl. lia.
  - intros f pos i. unfold slot_embed. now rewrite He.
  - intros inp pd dn. destruct cfg. cbn in He, Hd. subst. reflexivity.
  - intros bo pos B L N K K' Hpos HE Hedg HB HN Hrange Hfound.
    destruct (multi_edges_spec structure M bo pos B L N K K' 128 Hpos HE Hedg
                HB HN Hrange Hfound) as (e & -> & Hs & _).
    exists e. split; [reflexivity|]. intros i Hi.
    unfold select, rank, size. rewrite Hs. cbn [length nth].
    apply Nat.ltb_lt in Hi. rewrite Hi.
    eexists. split; reflexivity.
Qed.

Lemma edges_take_precedence_over_distances_witness :
  EMBED_DIM toy_pair_cfg = (EMBED_DIM (no_pair_features toy_pair_cfg) + 128)%Z /\
  (forall pd dn,
      forward (with_distances (toy_modules 21) pd dn) toy_pair_cfg toy_batch
      = forward (toy_modules 21) toy_pair_cfg toy_batch) /\
  exists e,
    multi_edges (toy_modules 21) toy_backbone_out_128 (mut_positions toy_batch)
    = Ok e /\
    forall i, i < 2 -> exists e_i, select e 2 i = Ok e_i /\ shape e_i = [2; 128].
Proof.
  destruct (edges_take_precedence_over_distances _ (toy_modules 21)
              toy_pair_cfg eq_refl eq_refl) as (Hdim & _ & _ & Hind & Hshape).
  split; [exact Hdim|]. split; [exact (Hind toy_batch)|].
  apply (Hshape toy_backbone_out_128 (mut_positions toy_batch) 2 4 2 3 3).
  - reflexivity.
  - reflexivity.
  - reflexivity.
  - lia.
  - lia.
  - intros b n Hb Hn.
    destruct b as [|[|b]]; [| |lia];
      (destruct n as [|[|n]]; [reflexivity | reflexivity | lia]).
  - intros b n n_o k _ _ _ Hk. exact (find_some_lt _ 3 k Hk).
Defined.

(* ================================================================== *)
(** * Further properties *)

(** ** [_check_sequence_match] *)

Lemma index_last_column {A} (t : tensor A) (B N k : nat) :
  shape t = [B; N] ->
  k < N ->
  index_last t k = Ok (mkT [B] (fun ix => data t (ix ++ [k]))).
Proof.
  intros Hs Hk. unfold index_last. rewrite Hs. cbn [last_dim last removelast].
  apply Nat.ltb_lt in Hk. now rewrite Hk.
Qed.

Lemma broadcast_shape_B1_B (B : nat) : broadcast_shape [B; 1] [B] = Some [B; B].
Proof.
  destruct B as [|[|B]]; reflexivity.
Qed.

(** Sums of wrapped integers are wrapped sums. *)
Lemma wrap64_add_l (a b : Z) : wrap64 (wrap64 a + b) = wrap64 (a + b).
Proof.
  unfold wrap64. f_equal.
  replace ((a + 2 ^ 63) mod 2 ^ 64 - 2 ^ 63 + b + 2 ^ 63)%Z
    with ((a + 2 ^ 63) mod 2 ^ 64 + b)%Z by lia.
  rewrite Zplus_mod_idemp_l. f_equal. lia.
Qed.

Lemma wrap64_add_r (a b : Z) : wrap64 (a + wrap64 b) = wrap64 (a + b).
Proof. rewrite Z.add_comm, wrap64_add_l. f_equal. lia. Qed.

Lemma wrap64_idem (a : Z) : wrap64 (wrap64 a) = wrap64 a.
Proof.
  replace (wrap64 a) with (wrap64 a + 0)%Z at 1 by lia.
  rewrite wrap64_add_l. f_equal. lia.
Qed.

Lemma fold_add64 {A} (f g : A -> Z) (l : list A) (acc acc' : Z) :
  (forall a, In a l -> wrap64 (f a) = wrap64 (g a)) ->
  wrap64 acc = wrap64 acc' ->
  wrap64 (fold_left (fun s a => add64 s (f a)) l acc) =
  wrap64 (fold_left (fun s a => (s + g a)%Z) l acc').
Proof.
  revert acc acc'. induction l as [|a l IH]; intros acc acc' Hfg Hacc; simpl.
  - exact Hacc.
  - apply IH; [intros; apply Hfg; now right|].
    unfold add64. rewrite wrap64_idem.
    rewrite <- wrap64_add_l, Hacc, wrap64_add_l.
    rewrite <- wrap64_add_r, (Hfg a (or_introl eq_refl)), wrap64_add_r.
    reflexivity.
Qed.

Lemma sum64_wrapped (t : tensor Z) : wrap64 (sum64 t) = sum64 t.
Proof.
  unfold sum64. generalize (indices (shape t)). intros l.
  assert (H : forall acc, wrap64 acc = acc ->
                wrap64 (fold_left (fun s ix => add64 s (data t ix)) l acc) =
                fold_left (fun s ix => add64 s (data t ix)) l acc).
  { induction l as [|ix l IH]; intros acc Hacc; simpl; [exact Hacc|].
    apply IH. unfold add64. apply wrap64_idem. }
  apply H. reflexivity.
Qed.

(** [sum64] is the wrapped sum of any integers congruent to the entries. *)
Lemma sum64_spec (t : tensor Z) (g : list nat -> Z) :
  (forall ix, In ix (indices (shape t)) -> wrap64 (data t ix) = wrap64 (g ix)) ->
  sum64 t = wrap64 (fold_left (fun s ix => (s + g ix)%Z) (indices (shape t)) 0%Z).
Proof.
  intros H. rewrite <- sum64_wrapped. unfold sum64.
  now apply fold_add64.
Qed.

Lemma indices_B1 (B : nat) : indices [B; 1] = map (fun b => [b; 0]) (seq 0 B).
Proof.
  simpl. induction (seq 0 B) as [|b l IH]; simpl; [reflexivity|].
  now rewrite IH.
Qed.

Lemma forallb_map_seq {A} (P : A -> bool) (f : nat -> A) (l : list nat) :
  forallb P (map f l) = forallb (fun b => P (f b)) l.
Proof. induction l as [|b l IH]; simpl; [reflexivity|]. now rewrite IH. Qed.

Lemma fold_left_map {A B C} (f : A -> B -> A) (g : C -> B) (l : list C) (a : A) :
  fold_left f (map g l) a = fold_left (fun a x => f a (g x)) l a.
Proof. revert a. induction l as [|x l IH]; intros a; simpl; [reflexivity | apply IH]. Qed.

(** What a sequence of writes [S[b, p b] = v b] leaves behind. *)
Lemma fold_update (p : nat -> nat) (v : nat -> Z) (l : list nat) (acc : tensor Z) :
  let written :=
    fold_left (fun acc b => update acc [b; p b] (v b)) l acc in
  shape written = shape acc /\
  forall b j,
    data written [b; j] =
    if existsb (Nat.eqb b) l && (j =? p b) then v b else data acc [b; j].
Proof.
  revert acc. induction l as [|a l IH]; intros acc; cbn zeta.
  - split; reflexivity.
  - cbn [fold_left].
    destruct (IH (update acc [a; p a] (v a))) as [Hs Hd].
    split; [now rewrite Hs|]. intros b j. rewrite Hd.
    cbn [existsb update data]. unfold list_eqb.
    destruct (existsb (Nat.eqb b) l && (j =? p b)) eqn:Hl.
    + apply andb_true_iff in Hl. destruct Hl as [Hl Hj].
      now rewrite Hl, Hj, orb_true_r.
    + destruct (list_eq_dec Nat.eq_dec [b; j] [a; p a]) as [He|He].
      * injection He as -> ->. now rewrite !Nat.eqb_refl.
      * destruct (Nat.eqb_spec b a) as [->|Hba]; cbn [orb andb].
        -- destruct (Nat.eqb_spec j (p a)) as [->|]; [congruence | reflexivity].
        -- apply andb_false_iff in Hl. destruct Hl as [->| ->];
             [reflexivity | now rewrite andb_false_r].
Qed.

Section CheckStep.

Variables B L N : nat.
Variables S0 wt pos : tensor Z.
Hypothesis HS : shape S0 = [B; L].
Hypothesis Hwt : shape wt = [B; N].
Hypothesis Hpos : shape pos = [B; N].
Variable k : nat.
Hypothesis Hk : k < N.

Lemma check_step_out_of_range :
  positions_ok pos L B k = false ->
  check_step S0 wt pos k = Raise RuntimeError.
Proof.
  intros Hr. unfold check_step.
  rewrite (index_last_column pos B N k Hpos Hk),
          (index_last_column wt B N k Hwt Hk).
  cbn [bind]. unfold gather, rank, size. rewrite HS.
  cbn [length Nat.sub shape unsqueeze_last app nth].
  cbn [dims_le Nat.eqb orb andb]. rewrite Nat.leb_refl. cbn [Nat.ltb Nat.leb negb andb].
  rewrite indices_B1, forallb_map_seq. cbn [data removelast app].
  change (forallb _ (seq 0 B)) with (positions_ok pos L B k).
  now rewrite Hr.
Qed.

(** The sum that line 48 tests. *)
Lemma check_step_sum (S_check w : tensor Z) :
  shape S_check = [B; 1] ->
  shape w = [B] ->
  (forall b, data S_check [b; 0] = data S0 [b; Z.to_nat (data pos [b; k])]) ->
  (forall b, data w [b] = data wt [b; k]) ->
  exists diff, broadcast2 sub64 S_check w = Ok diff /\
               sum64 diff = difference_sum S0 wt pos B k.
Proof.
  intros Hs Hw Hd Hdw. unfold broadcast2. rewrite Hs, Hw, broadcast_shape_B1_B.
  eexists. split; [reflexivity|].
  unfold difference_sum, Zsum. cbn [shape].
  apply sum64_spec. cbn [shape data]. intros ix Hix.
  apply indices_spec, in_shape2_inv in Hix. destruct Hix as (i & j & -> & Hi & Hj).
  unfold sub64. rewrite wrap64_idem. f_equal. cbn [nth].
  assert (Hbi : bindex [B; 1] [i; j] = [i; 0]).
  { unfold bindex. simpl. destruct (Nat.eqb_spec B 1); [f_equal; lia | reflexivity]. }
  assert (Hbj : bindex [B] [i; j] = [j]).
  { unfold bindex. simpl. destruct (Nat.eqb_spec B 1); [f_equal; lia | reflexivity]. }
  now rewrite Hbi, Hbj, Hd, Hdw.
Qed.

(** The step once its gather has succeeded. *)
Lemma check_step_test :
  positions_ok pos L B k = true ->
  check_step S0 wt pos k =
  if (difference_sum S0 wt pos B k =? 0)%Z then Ok S0
  else scatter S0 1
         (unsqueeze_last (mkT [B] (fun ix => data pos (ix ++ [k]))))
         (unsqueeze_last (mkT [B] (fun ix => data wt (ix ++ [k])))).
Proof.
  intros Hr. unfold check_step.
  rewrite (index_last_column pos B N k Hpos Hk),
          (index_last_column wt B N k Hwt Hk).
  cbn [bind]. unfold gather, rank, size. rewrite HS.
  cbn [length Nat.sub shape unsqueeze_last app nth].
  cbn [dims_le Nat.eqb orb andb]. rewrite Nat.leb_refl. cbn [Nat.ltb Nat.leb negb andb].
  rewrite indices_B1, forallb_map_seq. cbn [data removelast app].
  change (forallb _ (seq 0 B)) with (positions_ok pos L B k).
  rewrite Hr. cbn [bind].
  edestruct check_step_sum as (diff & Hdiff & Hsum);
    [| | | | rewrite Hdiff; cbn [bind]; rewrite Hsum]; cycle 4.
  - reflexivity.
  - reflexivity.
  - reflexivity.
  - intros b. reflexivity.
  - intros b. reflexivity.
Qed.

Lemma check_step_in_range :
  positions_ok pos L B k = true ->
  exists S',
    check_step S0 wt pos k = Ok S' /\ shape S' = [B; L] /\
    forall b j,
      data S' [b; j] =
      if negb (difference_sum S0 wt pos B k =? 0)%Z
         && (b <? B) && (j =? Z.to_nat (data pos [b; k]))
      then data wt [b; k] else data S0 [b; j].
Proof.
  intros Hr. rewrite (check_step_test Hr).
  { destruct (difference_sum S0 wt pos B k =? 0)%Z eqn:Hz; cbn [negb andb].
    + exists S0. split; [reflexivity|]. split; [exact HS | reflexivity].
    + unfold scatter, rank, size. rewrite HS.
      cbn [length shape unsqueeze_last app nth dims_le Nat.eqb orb andb].
      rewrite !Nat.leb_refl. cbn [Nat.ltb Nat.leb negb andb].
      rewrite indices_B1, forallb_map_seq. cbn [data removelast app].
      change (forallb _ (seq 0 B)) with (positions_ok pos L B k).
      rewrite Hr, fold_left_map. cbn [data removelast app set_nth firstn skipn].
      pose proof (fold_update (fun b => Z.to_nat (data pos [b; k]))
                              (fun b => data wt [b; k]) (seq 0 B) S0) as Hf.
      cbv zeta in Hf. destruct Hf as [Hfs Hfd].
      eexists. split; [reflexivity|]. split.
      * etransitivity; [|exact HS]. exact Hfs.
      * intros b j. etransitivity; [apply Hfd|].
        replace (existsb (Nat.eqb b) (seq 0 B)) with (b <? B); [reflexivity|].
        symmetry. destruct (Nat.ltb_spec b B) as [Hb|Hb].
        -- apply existsb_exists. exists b. split; [apply in_seq; lia | apply Nat.eqb_refl].
        -- apply not_true_is_false. intros He. apply existsb_exists in He.
           destruct He as (x & Hx & He). apply in_seq in Hx.
           apply Nat.eqb_eq in He. lia. }
Qed.

End CheckStep.

Section CheckLoop.

Variables B L N : nat.
Variables wt pos : tensor Z.
Hypothesis Hwt : shape wt = [B; N].
Hypothesis Hpos : shape pos = [B; N].

Lemma check_loop_in_range (ks : list nat) :
  Forall (fun k => k < N) ks ->
  forallb (positions_ok pos L B) ks = true ->
  forall S0, shape S0 = [B; L] ->
  exists S',
    check_loop ks S0 wt pos = Ok S' /\ shape S' = [B; L] /\
    forall b j,
      data S' [b; j] = data S0 [b; j] \/
      exists k, In k ks /\ b < B /\ j = Z.to_nat (data pos [b; k]) /\
                data S' [b; j] = data wt [b; k].
Proof.
  induction ks as [|k ks IH]; intros Hks Hr S0 HS; cbn [check_loop].
  - exists S0. split; [reflexivity|]. split; [exact HS|]. now left.
  - inversion Hks as [|? ? Hk Hks']; subst.
    cbn [forallb] in Hr. apply andb_true_iff in Hr. destruct Hr as [Hr Hrs].
    destruct (check_step_in_range B L N S0 wt pos HS Hwt Hpos k Hk Hr)
      as (S1 & -> & HS1 & Hd1).
    cbn [bind].
    destruct (IH Hks' Hrs S1 HS1) as (S' & -> & HS' & Hd').
    exists S'. split; [reflexivity|]. split; [exact HS'|].
    intros b j. destruct (Hd' b j) as [He|(k' & Hin & Hb & Hj & He)].
    + rewrite He, Hd1.
      destruct (negb _ && (b <? B) && (j =? _)) eqn:Hc; [|now left].
      right. exists k. apply andb_true_iff in Hc. destruct Hc as [Hc Hj].
      apply andb_true_iff in Hc. destruct Hc as [_ Hb].
      apply Nat.ltb_lt in Hb. apply Nat.eqb_eq in Hj.
      repeat split; [now left | exact Hb | exact Hj].
    + right. exists k'. repeat split; [now right | exact Hb | exact Hj | exact He].
Qed.

Lemma check_loop_out_of_range (ks : list nat) :
  Forall (fun k => k < N) ks ->
  forallb (positions_ok pos L B) ks = false ->
  forall S0, shape S0 = [B; L] ->
  check_loop ks S0 wt pos = Raise RuntimeError.
Proof.
  induction ks as [|k ks IH]; intros Hks Hr S0 HS; cbn [check_loop].
  - discriminate.
  - inversion Hks as [|? ? Hk Hks']; subst.
    cbn [forallb] in Hr.
    destruct (positions_ok pos L B k) eqn:Hrk.
    + destruct (check_step_in_range B L N S0 wt pos HS Hwt Hpos k Hk Hrk)
        as (S1 & -> & HS1 & _).
      cbn [bind]. now apply IH.
    + now rewrite (check_step_out_of_range B L N S0 wt pos HS Hwt Hpos k Hk Hrk).
Qed.

End CheckLoop.

Lemma Forall_seq_lt (N : nat) : Forall (fun k => k < N) (seq 0 N).
Proof. apply Forall_forall. intros k Hk. apply in_seq in Hk. lia. Qed.

(** X1. On a [(B, L)] sequence tensor with [(B, N)] wild-type and position
    tensors, [_check_sequence_match] returns a tensor of the shape of [S]
    when every position of every mutation lies in [0, L), and raises the
    [RuntimeError] of [torch.gather] as soon as one does not. *)
Theorem check_sequence_match_returns (S0 wt mut pos : tensor Z) (B L N : nat) :
  shape S0 = [B; L] ->
  shape wt = [B; N] ->
  shape pos = [B; N] ->
  if all_positions_ok pos L B N
  then exists S', _check_sequence_match S0 wt mut pos = Ok S' /\
                  shape S' = [B; L]
  else _check_sequence_match S0 wt mut pos = Raise RuntimeError.
Proof.
  intros HS Hwt Hpos. unfold _check_sequence_match, all_positions_ok.
  rewrite Hwt. cbn [last_dim last].
  destruct (forallb _ _) eqn:Hr.
  - destruct (check_loop_in_range B L N wt pos Hwt Hpos (seq 0 N)
                (Forall_seq_lt N) Hr S0 HS) as (S' & HS' & Hsh & _).
    now exists S'.
  - apply (check_loop_out_of_range B L N wt pos Hwt Hpos (seq 0 N)
             (Forall_seq_lt N) Hr S0 HS).
Qed.

(** X2. [_check_sequence_match] only ever writes wild-type entries at
    mutated positions: every entry [(b, j)] of its result is the entry of
    the input [S], or it is [wt[b, k]] for a mutation [k] of sample [b]
    whose position is [j]. *)
Theorem check_sequence_match_provenance (S0 wt mut pos S' : tensor Z)
  (B L N : nat) :
  shape S0 = [B; L] ->
  shape wt = [B; N] ->
  shape pos = [B; N] ->
  _check_sequence_match S0 wt mut pos = Ok S' ->
  forall b j,
    data S' [b; j] = data S0 [b; j] \/
    exists k, k < N /\ b < B /\ j = Z.to_nat (data pos [b; k]) /\
              data S' [b; j] = data wt [b; k].
Proof.
  intros HS Hwt Hpos Hok b j. unfold _check_sequence_match in Hok.
  rewrite Hwt in Hok. cbn [last_dim last] in Hok.
  destruct (forallb (positions_ok pos L B) (seq 0 N)) eqn:Hr.
  - destruct (check_loop_in_range B L N wt pos Hwt Hpos (seq 0 N)
                (Forall_seq_lt N) Hr S0 HS) as (S1 & HS1 & _ & Hd).
    rewrite HS1 in Hok. injection Hok as <-.
    destruct (Hd b j) as [He|(k & Hin & Hb & Hj & He)]; [now left|].
    right. exists k. apply in_seq in Hin. repeat split; try assumption; lia.
  - rewrite (check_loop_out_of_range B L N wt pos Hwt Hpos (seq 0 N)
               (Forall_seq_lt N) Hr S0 HS) in Hok. discriminate.
Qed.

(** ** Sums *)

Lemma Zsum_acc {A} (f : A -> Z) (l : list A) (acc : Z) :
  fold_left (fun s a => (s + f a)%Z) l acc = (acc + Zsum f l)%Z.
Proof.
  unfold Zsum. revert acc. induction l as [|a l IH]; intros acc; simpl.
  - lia.
  - rewrite IH, (IH (f a)). lia.
Qed.

Lemma Zsum_cons {A} (f : A -> Z) (a : A) (l : list A) :
  Zsum f (a :: l) = (f a + Zsum f l)%Z.
Proof. unfold Zsum at 1. simpl. apply Zsum_acc. Qed.

Lemma Zsum_app {A} (f : A -> Z) (l1 l2 : list A) :
  Zsum f (l1 ++ l2) = (Zsum f l1 + Zsum f l2)%Z.
Proof.
  induction l1 as [|a l1 IH]; [reflexivity|].
  cbn [app]. rewrite !Zsum_cons, IH. lia.
Qed.

Lemma Zsum_map {A C} (f : A -> Z) (g : C -> A) (l : list C) :
  Zsum f (map g l) = Zsum (fun c => f (g c)) l.
Proof.
  induction l as [|a l IH]; [reflexivity|].
  cbn [map]. now rewrite !Zsum_cons, IH.
Qed.

Lemma Zsum_flat_map {A C} (f : A -> Z) (g : C -> list A) (l : list C) :
  Zsum f (flat_map g l) = Zsum (fun c => Zsum f (g c)) l.
Proof.
  induction l as [|a l IH]; [reflexivity|].
  cbn [flat_map]. now rewrite Zsum_app, Zsum_cons, IH.
Qed.

Lemma Zsum_ext {A} (f g : A -> Z) (l : list A) :
  (forall a, In a l -> f a = g a) -> Zsum f l = Zsum g l.
Proof.
  induction l as [|a l IH]; intros H; [reflexivity|].
  rewrite !Zsum_cons, IH, (H a); [reflexivity | now left |].
  intros; apply H; now right.
Qed.

(** The sum of all pairwise differences [s i - w j]. *)
Lemma Zsum_differences {A} (s w : A -> Z) (l l' : list A) :
  Zsum (fun i => Zsum (fun j => (s i - w j)%Z) l') l =
  (Z.of_nat (length l') * Zsum s l - Z.of_nat (length l) * Zsum w l')%Z.
Proof.
  assert (Hin : forall x, Zsum (fun j => (x - w j)%Z) l' =
                          (Z.of_nat (length l') * x - Zsum w l')%Z).
  { intros x. induction l' as [|j l' IH]; [cbn; lia|].
    rewrite !Zsum_cons, IH. cbn [length]. lia. }
  induction l as [|i l IH]; [cbn; lia|].
  rewrite !Zsum_cons, IH, Hin. cbn [length]. lia.
Qed.

Lemma difference_sum_pairs (S0 wt pos : tensor Z) (B k : nat) :
  difference_sum S0 wt pos B k =
  wrap64 (Z.of_nat B *
          (Zsum (fun b => data S0 [b; Z.to_nat (data pos [b; k])]) (seq 0 B) -
           Zsum (fun b => data wt [b; k]) (seq 0 B)))%Z.
Proof.
  unfold difference_sum. f_equal. cbn [indices].
  rewrite Zsum_flat_map.
  erewrite Zsum_ext.
  2:{ intros i _. rewrite Zsum_map, Zsum_flat_map.
      erewrite Zsum_ext; [reflexivity|].
      intros j _. cbn [map Zsum_cons nth]. unfold Zsum. cbn [fold_left nth].
      rewrite Z.add_0_l. reflexivity. }
  rewrite (Zsum_differences
             (fun b => data S0 [b; Z.to_nat (data pos [b; k])])
             (fun b => data wt [b; k])).
  rewrite length_seq. lia.
Qed.

Lemma difference_sum_matching (S0 wt pos : tensor Z) (B k : nat) :
  (forall b, b < B -> data S0 [b; Z.to_nat (data pos [b; k])] = data wt [b; k]) ->
  difference_sum S0 wt pos B k = 0%Z.
Proof.
  intros H. rewrite difference_sum_pairs.
  rewrite (Zsum_ext (fun b => data S0 [b; Z.to_nat (data pos [b; k])])
                    (fun b => data wt [b; k])).
  - rewrite Z.sub_diag, Z.mul_0_r. reflexivity.
  - intros b Hb. apply in_seq in Hb. apply H. lia.
Qed.

Lemma check_loop_matching (B L N : nat) (S0 wt pos : tensor Z) (ks : list nat) :
  shape S0 = [B; L] ->
  shape wt = [B; N] ->
  shape pos = [B; N] ->
  Forall (fun k => k < N) ks ->
  forallb (positions_ok pos L B) ks = true ->
  matches_wildtype S0 wt pos B N ->
  check_loop ks S0 wt pos = Ok S0.
Proof.
  intros HS Hwt Hpos Hks Hr Hm.
  induction ks as [|k ks IH]; cbn [check_loop]; [reflexivity|].
  inversion Hks as [|? ? Hk Hks']; subst.
  cbn [forallb] in Hr. apply andb_true_iff in Hr. destruct Hr as [Hr Hrs].
  assert (Hstep : check_step S0 wt pos k = Ok S0).
  { rewrite (check_step_test B L N S0 wt pos HS Hwt Hpos k Hk Hr).
    rewrite difference_sum_matching; [reflexivity|].
    intros b Hb. now apply Hm. }
  rewrite Hstep. cbn [bind]. now apply IH.
Qed.

(** X3. When [S] already holds the wild type at every mutated position (and
    the positions are inside the sequence), [_check_sequence_match] returns
    [S] itself: no test of line 48 fires, whatever the batch size. *)
Theorem check_sequence_match_keeps_matching (S0 wt mut pos : tensor Z)
  (B L N : nat) :
  shape S0 = [B; L] ->
  shape wt = [B; N] ->
  shape pos = [B; N] ->
  all_positions_ok pos L B N = true ->
  matches_wildtype S0 wt pos B N ->
  _check_sequence_match S0 wt mut pos = Ok S0.
Proof.
  intros HS Hwt Hpos Hr Hm. unfold _check_sequence_match.
  rewrite Hwt. cbn [last_dim last].
  apply (check_loop_matching B L N); auto using Forall_seq_lt.
Qed.

(** ** A batch of one sample *)

Lemma wrap64_difference (a b : Z) :
  int64 a -> int64 b -> wrap64 (a - b) = 0%Z -> a = b.
Proof.
  unfold int64, wrap64. intros Ha Hb H.
  assert (H' : ((a - b + 2 ^ 63) mod 2 ^ 64 = 2 ^ 63)%Z) by lia.
  clear H. revert H'.
  change (2 ^ 63)%Z with 9223372036854775808%Z in *.
  change (2 ^ 64)%Z with 18446744073709551616%Z in *.
  intros H'. 
  pose proof (Z.div_mod (a - b + 9223372036854775808) 18446744073709551616
                ltac:(lia)) as Hdm.
  rewrite H' in Hdm.
  assert (Hq : ((a - b + 9223372036854775808) / 18446744073709551616 = 0)%Z) by lia.
  lia.
Qed.

Lemma difference_sum_single (S0 wt pos : tensor Z) (k : nat) :
  difference_sum S0 wt pos 1 k =
  wrap64 (data S0 [0; Z.to_nat (data pos [0; k])] - data wt [0; k]).
Proof. unfold difference_sum, Zsum. cbn. reflexivity. Qed.

Lemma positions_ok_single (pos : tensor Z) (L k : nat) :
  positions_ok pos L 1 k = true ->
  Z.to_nat (data pos [0; k]) < L.
Proof.
  unfold positions_ok, in_range. cbn [seq forallb].
  rewrite andb_true_r. intros H. apply andb_true_iff in H.
  destruct H as [H0 H1]. apply Z.leb_le in H0. apply Z.ltb_lt in H1. lia.
Qed.

Lemma check_loop_single (L N : nat) (wt pos : tensor Z) (ks : list nat) :
  shape wt = [1; N] ->
  shape pos = [1; N] ->
  int64_entries wt 1 N ->
  Forall (fun k => k < N) ks ->
  forallb (positions_ok pos L 1) ks = true ->
  forall S0, shape S0 = [1; L] ->
  int64_entries S0 1 L ->
  exists S',
    check_loop ks S0 wt pos = Ok S' /\ shape S' = [1; L] /\
    forall j, data S' [0; j] = wildtype_written wt pos ks 0 j (data S0 [0; j]).
Proof.
  intros Hwt Hpos Hiw.
  induction ks as [|k ks IH]; intros Hks Hr S0 HS HiS; cbn [check_loop].
  - exists S0. split; [reflexivity|]. split; [exact HS|]. reflexivity.
  - inversion Hks as [|? ? Hk Hks']; subst.
    cbn [forallb] in Hr. apply andb_true_iff in Hr. destruct Hr as [Hr Hrs].
    destruct (check_step_in_range 1 L N S0 wt pos HS Hwt Hpos k Hk Hr)
      as (S1 & -> & HS1 & Hd1).
    cbn [bind].
    assert (Hd : forall j, data S1 [0; j] =
                           if j =? Z.to_nat (data pos [0; k])
                           then data wt [0; k] else data S0 [0; j]).
    { intros j. rewrite Hd1. cbn [Nat.ltb Nat.leb andb].
      rewrite andb_true_r.
      destruct (difference_sum S0 wt pos 1 k =? 0)%Z eqn:Hz;
        cbn [negb andb]; [|reflexivity].
      destruct (Nat.eqb_spec j (Z.to_nat (data pos [0; k]))) as [->|];
        [|reflexivity].
      apply Z.eqb_eq in Hz. rewrite difference_sum_single in Hz.
      apply wrap64_difference in Hz; [exact Hz | | apply Hiw; lia].
      apply HiS; [lia | now apply positions_ok_single]. }
    destruct (IH Hks' Hrs S1 HS1) as (S' & -> & HS' & Hd').
    { intros b j Hb Hj. assert (b = 0) as -> by lia. rewrite Hd.
      destruct (j =? _); [apply Hiw; lia | now apply HiS]. }
    exists S'. split; [reflexivity|]. split; [exact HS'|].
    intros j. rewrite Hd'. cbn [wildtype_written fold_left].
    unfold wildtype_written. now rewrite Hd.
Qed.

(** X4. For a batch of one sample with 64-bit entries the test of line 48
    is exact, and [_check_sequence_match] returns the sequence in which the
    wild type of every mutation has been written at its position, in the
    order of the mutations. *)
Theorem check_sequence_match_single_sample (S0 wt mut pos : tensor Z)
  (L N : nat) :
  shape S0 = [1; L] ->
  shape wt = [1; N] ->
  shape pos = [1; N] ->
  all_positions_ok pos L 1 N = true ->
  int64_entries S0 1 L ->
  int64_entries wt 1 N ->
  exists S',
    _check_sequence_match S0 wt mut pos = Ok S' /\ shape S' = [1; L] /\
    forall j,
      data S' [0; j] = wildtype_written wt pos (seq 0 N) 0 j (data S0 [0; j]).
Proof.
  intros HS Hwt Hpos Hr HiS Hiw. unfold _check_sequence_match.
  rewrite Hwt. cbn [last_dim last].
  now apply (check_loop_single L N wt pos (seq 0 N) Hwt Hpos Hiw
               (Forall_seq_lt N) Hr S0 HS).
Qed.

Lemma wildtype_written_skip (wt pos : tensor Z) (ks : list nat) (b j : nat)
  (s : Z) :
  (forall k, In k ks -> Z.to_nat (data pos [b; k]) <> j) ->
  wildtype_written wt pos ks b j s = s.
Proof.
  unfold wildtype_written. revert s.
  induction ks as [|k ks IH]; intros s H; cbn [fold_left]; [reflexivity|].
  destruct (Nat.eqb_spec j (Z.to_nat (data pos [b; k]))) as [He|_].
  - exfalso. apply (H k); [now left | now symmetry].
  - apply IH. intros k' Hk'. apply H. now right.
Qed.

Lemma wildtype_written_last (wt pos : tensor Z) (b k N : nat) (s : Z) :
  k < N ->
  (forall k', k < k' < N -> data pos [b; k'] <> data pos [b; k]) ->
  (forall k', k' < N -> (0 <= data pos [b; k'])%Z) ->
  wildtype_written wt pos (seq 0 N) b (Z.to_nat (data pos [b; k])) s =
  data wt [b; k].
Proof.
  intros Hk Hlast Hnn.
  replace N with (k + Datatypes.S (N - k - 1)) at 1 by lia.
  rewrite seq_app. cbn [seq Nat.add].
  unfold wildtype_written. rewrite fold_left_app. cbn [fold_left].
  rewrite Nat.eqb_refl.
  apply wildtype_written_skip. intros k' Hk' He.
  apply in_seq in Hk'. apply (Hlast k'); [lia|].
  apply Z2Nat.inj in He; [exact He | apply Hnn; lia | apply Hnn; lia].
Qed.

Lemma positions_nonneg (pos : tensor Z) (L N k : nat) :
  all_positions_ok pos L 1 N = true ->
  k < N ->
  Z.le 0 (data pos [0; k]).
Proof.
  unfold all_positions_ok. intros H Hk.
  rewrite forallb_forall in H. specialize (H k).
  unfold positions_ok, in_range in H. cbn [seq forallb] in H.
  rewrite andb_true_r in H. 
  assert (Hin : In k (seq 0 N)) by (apply in_seq; lia).
  apply H in Hin. apply andb_true_iff in Hin. destruct Hin as [H0 _].
  now apply Z.leb_le.
Qed.

(** X5. For a batch of one sample whose mutations sit on different
    positions, the sequence returned by [_check_sequence_match] holds the
    wild type at every mutated position. *)
Theorem check_sequence_match_single_sample_matches (S0 wt mut pos : tensor Z)
  (L N : nat) :
  shape S0 = [1; L] ->
  shape wt = [1; N] ->
  shape pos = [1; N] ->
  all_positions_ok pos L 1 N = true ->
  int64_entries S0 1 L ->
  int64_entries wt 1 N ->
  (forall k k', k < k' < N -> data pos [0; k'] <> data pos [0; k]) ->
  exists S',
    _check_sequence_match S0 wt mut pos = Ok S' /\
    matches_wildtype S' wt pos 1 N.
Proof.
  intros HS Hwt Hpos Hr HiS Hiw Hd. unfold _check_sequence_match.
  rewrite Hwt. cbn [last_dim last].
  destruct (check_loop_single L N wt pos (seq 0 N) Hwt Hpos Hiw
              (Forall_seq_lt N) Hr S0 HS HiS) as (S' & -> & _ & Hdata).
  exists S'. split; [reflexivity|].
  intros b k Hb Hk. assert (b = 0) as -> by lia.
  rewrite Hdata. apply wildtype_written_last; [exact Hk | |].
  - intros k' Hk'. now apply Hd.
  - intros k' Hk'. now apply (positions_nonneg pos L N).
Qed.

Lemma check_sequence_match_returns_witness :
  exists S',
    _check_sequence_match (S toy_batch) (mut_wildtype_AAs toy_batch)
      (mut_mutant_AAs toy_batch) (mut_positions toy_batch) = Ok S' /\
    shape S' = [2; 4].
Proof.
  exact (check_sequence_match_returns (S toy_batch) (mut_wildtype_AAs toy_batch)
           (mut_mutant_AAs toy_batch) (mut_positions toy_batch) 2 4 2
           eq_refl eq_refl eq_refl).
Defined.

Lemma check_sequence_match_provenance_witness :
  data (value (S toy_batch)
          (_check_sequence_match (S toy_batch) (mut_wildtype_AAs toy_batch)
             (mut_mutant_AAs toy_batch) (mut_positions toy_batch))) [1; 0]
  = data (S toy_batch) [1; 0] \/
  exists k, k < 2 /\ 1 < 2 /\
            0 = Z.to_nat (data (mut_positions toy_batch) [1; k]) /\
            data (value (S toy_batch)
                    (_check_sequence_match (S toy_batch)
                       (mut_wildtype_AAs toy_batch)
                       (mut_mutant_AAs toy_batch) (mut_positions toy_batch)))
                 [1; 0]
            = data (mut_wildtype_AAs toy_batch) [1; k].
Proof.
  apply (check_sequence_match_provenance (S toy_batch)
           (mut_wildtype_AAs toy_batch) (mut_mutant_AAs toy_batch)
           (mut_positions toy_batch) _ 2 4 2 eq_refl eq_refl eq_refl).
  vm_compute. reflexivity.
Defined.

Lemma check_sequence_match_keeps_matching_witness :
  _check_sequence_match (S toy_single_batch) (mut_wildtype_AAs toy_single_batch)
    (mut_mutant_AAs toy_single_batch) (mut_positions toy_single_batch)
  = Ok (S toy_single_batch).
Proof.
  apply (check_sequence_match_keeps_matching (S toy_single_batch)
           (mut_wildtype_AAs toy_single_batch)
           (mut_mutant_AAs toy_single_batch)
           (mut_positions toy_single_batch) 2 4 1 eq_refl eq_refl eq_refl
           eq_refl).
  intros b k Hb Hk.
  destruct b as [|[|b]]; destruct k as [|k]; try lia; reflexivity.
Defined.

Lemma lone_S_int64 : int64_entries lone_S 1 3.
Proof.
  intros b j Hb Hj. unfold int64.
  destruct b as [|b]; [|lia].
  destruct j as [|[|[|j]]]; try lia; cbn; lia.
Qed.

Lemma lone_wt_int64 : int64_entries lone_wt 1 2.
Proof.
  intros b j Hb Hj. unfold int64.
  destruct b as [|b]; [|lia].
  destruct j as [|[|j]]; try lia; cbn; lia.
Qed.

Lemma check_sequence_match_single_sample_witness :
  exists S',
    _check_sequence_match lone_S lone_wt lone_mut lone_pos = Ok S' /\
    shape S' = [1; 3] /\
    forall j,
      data S' [0; j] =
      wildtype_written lone_wt lone_pos (seq 0 2) 0 j (data lone_S [0; j]).
Proof.
  apply (check_sequence_match_single_sample lone_S lone_wt lone_mut lone_pos
           3 2 eq_refl eq_refl eq_refl eq_refl lone_S_int64 lone_wt_int64).
Defined.

Lemma check_sequence_match_single_sample_matches_witness :
  exists S',
    _check_sequence_match lone_S lone_wt lone_mut lone_pos = Ok S' /\
    matches_wildtype S' lone_wt lone_pos 1 2.
Proof.
  apply (check_sequence_match_single_sample_matches lone_S lone_wt lone_mut
           lone_pos 3 2 eq_refl eq_refl eq_refl eq_refl lone_S_int64
           lone_wt_int64).
  intros k k' Hk.
  destruct k as [|[|k]]; destruct k' as [|[|k']]; try lia.
  cbn. discriminate.
Defined.

(** ** [batched_index_select] *)

Lemma bindex_BM1 (B M b m k : nat) :
  b < B -> m < M -> bindex [B; M; 1] [b; m; k] = [b; m; 0].
Proof.
  intros Hb Hm. unfold bindex. simpl.
  destruct (Nat.eqb_spec B 1), (Nat.eqb_spec M 1); f_equal; try lia;
    f_equal; lia.
Qed.

(** X6. [batched_index_select(t, 1, idx)] on a [(B, L, K)] tensor with a
    [(B, M)] index: when every index lies in [0, L) the result has shape
    [(B, M, K)] and its row [(b, m)] is row [idx[b, m]] of sample [b];
    otherwise the call raises the [RuntimeError] of [torch.gather]. *)
Theorem batched_index_select_rows {A} (t : tensor A) (idx : tensor Z)
  (B L K M : nat) :
  shape t = [B; L; K] ->
  shape idx = [B; M] ->
  0 < K ->
  if forallb (fun ix => in_range (data idx ix) L) (indices [B; M])
  then exists sel,
         batched_index_select t 1 idx = Ok sel /\
         shape sel = [B; M; K] /\
         forall b m k, b < B -> m < M -> k < K ->
           data sel [b; m; k] = data t [b; Z.to_nat (data idx [b; m]); k]
  else batched_index_select t 1 idx = Raise RuntimeError.
Proof.
  intros Ht Hi HK. unfold batched_index_select, rank. rewrite Ht.
  cbn [length Nat.sub seq fold_left Nat.eqb map firstn skipn app].
  rewrite (expand_keep_113 _ B M K).
  2:{ unfold unsqueeze, insert_nth. cbn [shape]. now rewrite Hi. }
  cbn [bind].
  destruct (forallb _ (indices [B; M])) eqn:Hr.
  - rewrite gather_ok.
    + eexists. split; [reflexivity|]. split; [reflexivity|].
      intros b m k Hb Hm Hk. unfold set_nth. cbn -[bindex].
      rewrite bindex_BM1 by assumption. reflexivity.
    + unfold rank. rewrite Ht. simpl. lia.
    + rewrite Ht. cbn [shape dims_le Nat.eqb orb andb]. now rewrite !Nat.leb_refl.
    + intros ix Hix. cbn [shape] in Hix. apply in_shape3_inv in Hix.
      destruct Hix as (b & m & k & -> & Hb & Hm & Hk).
      unfold size, unsqueeze, drop_nth. rewrite Ht. cbn -[bindex in_range].
      rewrite bindex_BM1 by assumption. cbn -[in_range].
      apply (proj1 (forallb_indices _ _) Hr). now apply in_shape2.
  - unfold gather, rank, size. rewrite Ht.
    cbn [shape length nth dims_le Nat.eqb orb andb]. rewrite !Nat.leb_refl.
    cbn [Nat.ltb Nat.leb negb andb].
    destruct (forallb _ (indices [B; M; K])) eqn:Hr'; [|reflexivity].
    exfalso. rewrite <- not_true_iff_false in Hr. apply Hr.
    apply forallb_indices. intros ix Hix.
    apply in_shape2_inv in Hix. destruct Hix as (b & m & -> & Hb & Hm).
    pose proof (proj1 (forallb_indices _ _) Hr' [b; m; 0]
                  (in_shape3 b m 0 B M K Hb Hm HK)) as H.
    cbn -[bindex in_range] in H.
    rewrite bindex_BM1 in H by assumption. exact H.
Qed.

Lemma batched_index_select_rows_witness :
  exists sel,
    batched_index_select (mpnn_embed toy_backbone_out) 1
      (mut_positions toy_batch) = Ok sel /\
    shape sel = [2; 2; 2] /\
    forall b m k, b < 2 -> m < 2 -> k < 2 ->
      data sel [b; m; k] =
      data (mpnn_embed toy_backbone_out)
           [b; Z.to_nat (data (mut_positions toy_batch) [b; m]); k].
Proof.
  exact (batched_index_select_rows (mpnn_embed toy_backbone_out)
           (mut_positions toy_batch) 2 4 2 2 eq_refl eq_refl Nat.lt_0_2).
Defined.

(** ** The prediction head built by [__init__] *)

Lemma sequential_width_app (l1 l2 : list layer) (w : Z) :
  sequential_width (l1 ++ l2) w =
  match sequential_width l1 w with
  | Some w' => sequential_width l2 w'
  | None => None
  end.
Proof.
  revert w. induction l1 as [|l l1 IH]; intros w; cbn; [reflexivity|].
  destruct (layer_width w l); [apply IH | reflexivity].
Qed.

Lemma linear_stack_width (drop : option Qc) (l : list Z) (w v : Z) :
  sequential_width
    (flat_map (fun '(sz1, sz2) =>
                 (match drop with
                  | Some p => [Dropout p]
                  | None => []
                  end) ++ [ReLU; Linear sz1 sz2])
              (combine (w :: l ++ [v]) (l ++ [v]))) w = Some v.
Proof.
  revert w. induction l as [|x l IH]; intros w.
  - cbn [app combine flat_map]. rewrite app_nil_r.
    destruct drop; cbn; now rewrite Z.eqb_refl.
  - cbn [app combine flat_map]. rewrite sequential_width_app.
    replace (sequential_width _ w) with (Some x).
    + apply IH.
    + destruct drop; cbn; now rewrite Z.eqb_refl.
Qed.

(** X7. The layers that [__init__] puts into [ddg_out] fit together for
    every configuration: fed with rows of width
    [HIDDEN_DIM * num_final_layers + EMBED_DIM], the layer norm (when
    present) and every linear layer receive the width they were built for,
    and the rows that leave the head have width [VOCAB_DIM]. *)
Theorem head_layers_fit (cfg : Cfg) :
  sequential_width (ddg_out_layers cfg)
    (HIDDEN_DIM cfg * num_final_layers cfg + EMBED_DIM cfg)%Z
  = Some (VOCAB_DIM cfg).
Proof.
  unfold ddg_out_layers. rewrite sequential_width_app.
  replace (sequential_width (if multi_mutations cfg then _ else _) _)
    with (Some (HIDDEN_DIM cfg * num_final_layers cfg + EMBED_DIM cfg)%Z).
  - unfold hid_sizes. cbn [app tl]. apply linear_stack_width.
  - destruct (multi_mutations cfg); cbn; [now rewrite Z.eqb_refl | reflexivity].
Qed.

(** ** Configurations on which [forward] cannot return *)

Lemma raised {A} (P : exn -> Prop) (r : result A) (e : exn) :
  raises_only P r -> r = Raise e -> P e.
Proof. intros H ->. exact H. Qed.

(** X8. In multi-mutation mode with an aggregation other than ['mpnn'] and
    [cfg.model.lightattn] unset, [forward] never returns: [__init__] has not
    created [self.light_attention], and once the backbone and the gather
    loop have produced at least one slot embedding, line 276 raises
    [AttributeError]. *)
Theorem simple_aggregation_requires_light_attention :
  forall (structure : Type) (M : Modules structure) (cfg : Cfg)
         (inp : batch structure) (name : string),
    aggregation cfg = Some name ->
    String.eqb name "mpnn" = false ->
    lightattn cfg = false ->
    (exists e, forward M cfg inp = Raise e /\ library_error e) /\
    (forall bo embs,
        run_backbone M cfg inp = Ok bo ->
        gathered_embeds M cfg bo inp = Ok embs ->
        embs <> [] ->
        forward M cfg inp = Raise AttributeError).
Proof.
  intros structure M cfg inp name Hagg Hn Hla.
  unfold forward, combined_embedding, multi_mutations, forward_multi, is_str.
  rewrite Hagg, Hn.
  destruct (run_backbone M cfg inp) as [bo|e] eqn:Hbo; cbn [bind].
  2:{ split; [|discriminate]. exists e. split; [reflexivity|].
      exact (raised _ _ e (raises_run_backbone _ M cfg inp) Hbo). }
  destruct (gathered_embeds M cfg bo inp) as [embs|e] eqn:Hg; cbn [bind].
  2:{ split; [|intros ? ? [= <-] Hg'; rewrite Hg in Hg'; discriminate].
      exists e.
      split; [reflexivity|].
      exact (raised _ _ e (raises_gathered_embeds _ M cfg bo inp) Hg). }
  unfold post_light_attention. rewrite Hla.
  destruct embs as [|e0 embs]; cbn [mapM bind].
  - split.
    + exists RuntimeError. split; [reflexivity | exact I].
    + intros ? ? [= <-] Hg' Hne. rewrite Hg in Hg'. injection Hg' as <-.
      now destruct Hne.
  - split.
    + exists AttributeError. split; [reflexivity | exact I].
    + reflexivity.
Qed.

Lemma not_ok_bind {A B} (r : result A) (k : A -> result B) :
  (forall a, is_ok (k a) = false) -> is_ok (bind r k) = false.
Proof. intros H. destruct r; cbn; [apply H | reflexivity]. Qed.

Lemma not_ok_bind_l {A B} (r : result A) (k : A -> result B) :
  is_ok r = false -> is_ok (bind r k) = false.
Proof. destruct r; cbn; [discriminate | reflexivity]. Qed.

(** When the gather loop cannot finish, [forward] stops with the exception
    of a library call. *)
Lemma forward_stops_gathering {structure} (M : Modules structure) (cfg : Cfg)
  (inp : batch structure) (name : string) :
  aggregation cfg = Some name ->
  (forall bo, is_ok (gathered_embeds M cfg bo inp) = false) ->
  exists e, forward M cfg inp = Raise e /\ library_error e.
Proof.
  intros Hagg Hno.
  unfold forward, combined_embedding, multi_mutations, forward_multi.
  rewrite Hagg.
  destruct (run_backbone M cfg inp) as [bo|e] eqn:Hbo; cbn [bind].
  2:{ exists e. split; [reflexivity|].
      exact (raised _ _ e (raises_run_backbone _ M cfg inp) Hbo). }
  specialize (Hno bo).
  destruct (gathered_embeds M cfg bo inp) as [embs|e] eqn:Hg; cbn [bind].
  - discriminate.
  - exists e. split; [reflexivity|].
    exact (raised _ _ e (raises_gathered_embeds _ M cfg bo inp) Hg).
Qed.

Lemma others_alone : filter (fun a => negb (a =? 0)) (seq 0 1) = [].
Proof. reflexivity. Qed.

Lemma sample_edge_alone (pos Et : tensor Z) (mt : tensor float) (b : nat) :
  sample_edge pos Et mt (seq 0 1) 0 b = Raise RuntimeError.
Proof. unfold sample_edge. rewrite others_alone. reflexivity. Qed.

Lemma edges_compiled_alone (pos E_idx : tensor Z) (edg : tensor float) :
  is_ok (edges_compiled pos E_idx edg (seq 0 1) 0) = false.
Proof.
  unfold edges_compiled.
  apply not_ok_bind. intros sel. apply not_ok_bind. intros sel'.
  destruct (size (squeeze sel' 1) 0) as [|n]; [reflexivity|].
  cbn [seq mapM]. now rewrite sample_edge_alone.
Qed.

Lemma multi_edges_few {structure} (M : Modules structure)
  (bo : backbone_out structure) (pos : tensor Z) :
  last_dim (shape pos) <= 1 ->
  is_ok (multi_edges M bo pos) = false.
Proof.
  intros HN. unfold multi_edges.
  destruct (last_dim (shape pos)) as [|[|n]]; [reflexivity | | lia].
  cbn [mapM]. apply not_ok_bind_l, not_ok_bind_l, edges_compiled_alone.
Qed.

Lemma multi_dist_few {structure} (M : Modules structure)
  (bo : backbone_out structure) (pos : tensor Z) :
  last_dim (shape pos) <= 1 ->
  is_ok (multi_dist M bo pos) = false.
Proof.
  intros HN. unfold multi_dist.
  destruct (last_dim (shape pos)) as [|[|n]]; [reflexivity | reflexivity | lia].
Qed.

(** X9. In multi-mutation mode with final layers and with the edge or the
    distance features enabled, a batch with fewer than two mutation slots
    cannot be processed: the list of pair features is empty when it is
    stacked, and [forward] raises an exception of the library. *)
Theorem pair_features_need_two_mutations :
  forall (structure : Type) (M : Modules structure) (cfg : Cfg)
         (inp : batch structure) (name : string),
    aggregation cfg = Some name ->
    (0 < num_final_layers cfg)%Z ->
    edges cfg || dist cfg = true ->
    last_dim (shape (mut_positions inp)) <= 1 ->
    exists e, forward M cfg inp = Raise e /\ library_error e.
Proof.
  intros structure M cfg inp name Hagg Hnfl Hpair HN.
  apply forward_stops_gathering with name; [exact Hagg|].
  intros bo. unfold gathered_embeds. apply not_ok_bind_l.
  unfold multi_features. apply not_ok_bind. intros side.
  apply Z.ltb_lt in Hnfl. rewrite Hnfl.
  apply not_ok_bind. intros hid. apply not_ok_bind. intros emb.
  apply not_ok_bind. intros mut_embed.
  destruct (edges cfg).
  - apply not_ok_bind_l. now apply multi_edges_few.
  - cbn [orb] in Hpair. rewrite Hpair.
    apply not_ok_bind_l. now apply multi_dist_few.
Qed.

Lemma slot_embed_unbound {structure} (M : Modules structure) (cfg : Cfg)
  (f : feats) (pos : tensor Z) (i : nat) :
  f_mut_embed f = None ->
  f_dist f = None ->
  mutant_embedding cfg || (negb (edges cfg) && dist cfg) = true ->
  slot_embed M cfg f pos i =
  (_ <- gather_rows (f_embed f) (slice pos 1 i (i + 1)) ;;
   Raise UnboundLocalError).
Proof.
  intros Hm Hd Hc. unfold slot_embed. rewrite Hm, Hd.
  destruct (gather_rows _ _) as [g|e]; [|reflexivity]. cbn [bind].
  destruct (mutant_embedding cfg); [reflexivity|]. cbn [bind].
  cbn [orb] in Hc. apply andb_true_iff in Hc. destruct Hc as [He Hdist].
  apply negb_true_iff in He. rewrite He, Hdist. reflexivity.
Qed.

Lemma multi_features_without_layers {structure} (M : Modules structure)
  (cfg : Cfg) (bo : backbone_out structure) (inp : batch structure) :
  (num_final_layers cfg <= 0)%Z ->
  multi_features M cfg bo inp =
  (side <- side_chain_embeds M cfg bo ;;
   Ok {| f_embed := mpnn_embed bo; f_mut_embed := None;
         f_edges := mpnn_edges bo; f_dist := None; f_side := side |}).
Proof.
  intros H. unfold multi_features.
  destruct (Z.ltb_spec 0 (num_final_layers cfg)); [lia | reflexivity].
Qed.

(** X10. In multi-mutation mode with [num_final_layers <= 0] the mutant
    embeddings and the pairwise distances are never computed, yet the gather
    loop reads them: with [mutant_embedding], or with [dist] and without
    [edges], [forward] never returns, and it raises [UnboundLocalError] once
    the backbone has run and the first slot has been gathered. *)
Theorem features_unbound_without_final_layers :
  forall (structure : Type) (M : Modules structure) (cfg : Cfg)
         (inp : batch structure) (name : string),
    aggregation cfg = Some name ->
    (num_final_layers cfg <= 0)%Z ->
    mutant_embedding cfg || (negb (edges cfg) && dist cfg) = true ->
    0 < last_dim (shape (mut_mutant_AAs inp)) ->
    (exists e, forward M cfg inp = Raise e /\ library_error e) /\
    (forall bo side g,
        run_backbone M cfg inp = Ok bo ->
        side_chain_embeds M cfg bo = Ok side ->
        gather_rows (mpnn_embed bo) (slice (mut_positions inp) 1 0 1) = Ok g ->
        forward M cfg inp = Raise UnboundLocalError).
Proof.
  intros structure M cfg inp name Hagg Hnfl Hc HN.
  assert (Hslots : exists n, seq 0 (last_dim (shape (mut_mutant_AAs inp)))
                             = 0 :: seq 1 n).
  { destruct (last_dim (shape (mut_mutant_AAs inp))) as [|n]; [lia|].
    now exists n. }
  destruct Hslots as (n & Hslots).
  split.
  - apply forward_stops_gathering with name; [exact Hagg|].
    intros bo. unfold gathered_embeds.
    rewrite multi_features_without_layers by assumption.
    destruct (side_chain_embeds M cfg bo) as [side|e]; [|reflexivity].
    cbn [bind]. rewrite Hslots. cbn [mapM].
    rewrite slot_embed_unbound by (assumption || reflexivity).
    cbn [f_embed]. now destruct (gather_rows _ _).
  - intros bo side g Hbo Hside Hg.
    unfold forward, combined_embedding, multi_mutations, forward_multi.
    rewrite Hagg, Hbo. cbn [bind]. unfold gathered_embeds.
    rewrite multi_features_without_layers by assumption.
    rewrite Hside. cbn [bind]. rewrite Hslots. cbn [mapM].
    rewrite slot_embed_unbound by (assumption || reflexivity).
    cbn [f_embed Nat.add]. now rewrite Hg.
Qed.

Lemma length_removelast' {A} (l : list A) :
  length (removelast l) = length l - 1.
Proof.
  induction l as [|a [|b l] IH]; [reflexivity | reflexivity |].
  change (removelast (a :: b :: l)) with (a :: removelast (b :: l)).
  cbn [length] in *. lia.
Qed.

(** The backbone state holds the embedding returned by the backbone. *)
Lemma run_backbone_embed {structure} (M : Modules structure) (cfg : Cfg)
  (inp : batch structure) (bo : backbone_out structure) :
  run_backbone M cfg inp = Ok bo ->
  exists x s, mpnn_embed bo = snd (fst (prot_mpnn M x s)).
Proof.
  unfold run_backbone. intros H. apply bind_ok in H.
  destruct H as (S' & _ & H).
  destruct (prot_mpnn M _ S') as [[hid emb] edg] eqn:Hp.
  injection H as <-. cbn [mpnn_embed]. eexists _, _. now rewrite Hp.
Qed.

Lemma cat_last_ranks {A} (t0 t1 t2 : tensor A) (rest : list (tensor A)) :
  rank t1 = 3 ->
  rank t2 = 2 ->
  cat_last (t0 :: t1 :: t2 :: rest) = Raise RuntimeError.
Proof.
  intros Hr1 Hr2. unfold cat_last.
  destruct (negb (rank t0 =? 0)); [|reflexivity]. cbn [andb forallb].
  destruct (list_eqb (removelast (shape t0)) (removelast (shape t0)));
    [|reflexivity].
  destruct (list_eqb (removelast (shape t1)) _) eqn:H1; [|reflexivity].
  destruct (list_eqb (removelast (shape t2)) _) eqn:H2; [|reflexivity].
  exfalso. apply list_eqb_true in H1, H2. unfold rank in *.
  assert (H : length (removelast (shape t1)) = length (removelast (shape t2)))
    by congruence.
  rewrite !length_removelast' in H. lia.
Qed.

(** In single-mutation mode no step of [forward] is one of its own two
    checks. *)
Lemma forward_single_mode_raises {structure} (M : Modules structure)
  (cfg : Cfg) (inp : batch structure) :
  aggregation cfg = None ->
  raises_only library_error (forward M cfg inp).
Proof.
  intros Hagg. unfold forward, combined_embedding, multi_mutations.
  rewrite Hagg. raises.
Qed.

(** X11. In single-mutation mode with final layers and
    [mutant_embedding], [forward] never returns: the embedding [W_s] of a
    column of mutant indices has one dimension more than the column, that
    is two, and cannot be concatenated with the per-residue embeddings of
    the backbone, which have three. *)
Theorem single_mode_rejects_mutant_embedding :
  forall (structure : Type) (M : Modules structure) (cfg : Cfg)
         (inp : batch structure) (B N : nat),
    aggregation cfg = None ->
    (0 < num_final_layers cfg)%Z ->
    mutant_embedding cfg = true ->
    shape (mut_mutant_AAs inp) = [B; N] ->
    (forall c, rank (W_s M c) = Datatypes.S (rank c)) ->
    (forall x s, rank (snd (fst (prot_mpnn M x s))) = 3) ->
    exists e, forward M cfg inp = Raise e /\ library_error e.
Proof.
  intros structure M cfg inp B N Hagg Hnfl Hmut Hshape HW Hemb.
  assert (Hno : is_ok (forward M cfg inp) = false).
  { unfold forward, combined_embedding, multi_mutations. rewrite Hagg.
    apply not_ok_bind_l.
    destruct (run_backbone M cfg inp) as [bo|e] eqn:Hbo; [|reflexivity].
    cbn [bind]. unfold forward_single. apply not_ok_bind_l.
    unfold single_embeds. apply not_ok_bind. intros side.
    apply Z.ltb_lt in Hnfl. rewrite Hnfl, Hmut.
    apply not_ok_bind. intros hid.
    destruct (select (mut_mutant_AAs inp) 1 0) as [col|e] eqn:Hcol;
      [|reflexivity].
    cbn [bind app].
    apply not_ok_bind. intros self_edges.
    rewrite cat_last_ranks; [reflexivity | |].
    - destruct (run_backbone_embed M cfg inp bo Hbo) as (x & s & ->).
      apply Hemb.
    - rewrite HW. f_equal. unfold select in Hcol.
      destruct (_ && _); [|discriminate]. injection Hcol as <-.
      unfold rank. cbn [shape]. now rewrite Hshape. }
  pose proof (forward_single_mode_raises M cfg inp Hagg) as Hr.
  destruct (forward M cfg inp) as [y|e]; [discriminate|].
  exists e. split; [reflexivity | exact Hr].
Qed.

(** X12. In single-mutation mode [forward] makes none of its own checks:
    whatever it raises is neither [AssertionError] nor [ValueError]. *)
Theorem single_mode_makes_no_check :
  forall (structure : Type) (M : Modules structure) (cfg : Cfg)
         (inp : batch structure) (e : exn),
    aggregation cfg = None ->
    forward M cfg inp = Raise e ->
    e <> AssertionError /\ forall msg, e <> ValueError msg.
Proof.
  intros structure M cfg inp e Hagg He.
  pose proof (raised _ _ e (forward_single_mode_raises M cfg inp Hagg) He) as H.
  destruct e; cbn in H; try contradiction; split; try intros msg; discriminate.
Qed.

Lemma single_embeds_without_layers {structure} (M : Modules structure)
  (cfg : Cfg) (bo : backbone_out structure) (inp : batch structure) emb hid :
  (num_final_layers cfg <= 0)%Z ->
  single_embeds M cfg bo inp = Ok (emb, hid) ->
  hid = None.
Proof.
  intros Hnfl H. unfold single_embeds in H.
  apply bind_ok in H. destruct H as (side & _ & H).
  destruct (Z.ltb_spec 0 (num_final_layers cfg)); [lia|].
  apply bind_ok in H. destruct H as (emb' & _ & H). now injection H.
Qed.

(** X13. In single-mutation mode with [auxiliary_embedding == 'globalMPNN']
    and [num_final_layers <= 0], [forward] never returns: [all_mpnn_hid] is
    still the list returned by the backbone when line 332 indexes it, which
    raises [TypeError] once the embeddings have been gathered. *)
Theorem global_embedding_requires_final_layers :
  forall (structure : Type) (M : Modules structure) (cfg : Cfg)
         (inp : batch structure),
    aggregation cfg = None ->
    (num_final_layers cfg <= 0)%Z ->
    auxiliary_embedding cfg = Some "globalMPNN"%string ->
    (exists e, forward M cfg inp = Raise e /\ library_error e) /\
    (forall bo emb hid g,
        run_backbone M cfg inp = Ok bo ->
        single_embeds M cfg bo inp = Ok (emb, hid) ->
        gather_rows emb (mut_positions inp) = Ok g ->
        forward M cfg inp = Raise TypeError).
Proof.
  intros structure M cfg inp Hagg Hnfl Haux.
  assert (Hsingle : forall bo emb hid g,
             single_embeds M cfg bo inp = Ok (emb, hid) ->
             gather_rows emb (mut_positions inp) = Ok g ->
             forward_single M cfg bo inp = Raise TypeError).
  { intros bo emb hid g Hse Hg. unfold forward_single.
    rewrite (single_embeds_without_layers M cfg bo inp emb hid Hnfl Hse) in Hse.
    rewrite Hse. cbn [bind]. rewrite Hg. cbn [bind].
    unfold is_str. rewrite Haux. reflexivity. }
  split.
  - assert (Hno : is_ok (forward M cfg inp) = false).
    { unfold forward, combined_embedding, multi_mutations. rewrite Hagg.
      apply not_ok_bind_l, not_ok_bind. intros bo.
      destruct (single_embeds M cfg bo inp) as [[emb hid]|e] eqn:Hse.
      - destruct (gather_rows emb (mut_positions inp)) as [g|e] eqn:Hg.
        + now rewrite (Hsingle bo emb hid g Hse Hg).
        + unfold forward_single. rewrite Hse. cbn [bind]. now rewrite Hg.
      - unfold forward_single. now rewrite Hse. }
    pose proof (forward_single_mode_raises M cfg inp Hagg) as Hr.
    destruct (forward M cfg inp) as [y|e]; [discriminate|].
    exists e. split; [reflexivity | exact Hr].
  - intros bo emb hid g Hbo Hse Hg.
    unfold forward, combined_embedding, multi_mutations.
    rewrite Hagg, Hbo. cbn [bind].
    now rewrite (Hsingle bo emb hid g Hse Hg).
Qed.

Lemma simple_aggregation_requires_light_attention_witness :
  (exists e,
      forward (toy_modules 21)
        (toy_flags_cfg (Some "sum"%string) 1 false false false false None)
        toy_batch = Raise e /\ library_error e) /\
  forward (toy_modules 21)
    (toy_flags_cfg (Some "sum"%string) 1 false false false false None)
    toy_batch = Raise AttributeError.
Proof.
  destruct (simple_aggregation_requires_light_attention _ (toy_modules 21)
              (toy_flags_cfg (Some "sum"%string) 1 false false false false None)
              toy_batch "sum" eq_refl eq_refl eq_refl) as [Hnever Hattr].
  split; [exact Hnever|].
  apply (Hattr
           (value toy_backbone_out
              (run_backbone (toy_modules 21)
                 (toy_flags_cfg (Some "sum"%string) 1 false false false false
                    None) toy_batch))
           (value []
              (gathered_embeds (toy_modules 21)
                 (toy_flags_cfg (Some "sum"%string) 1 false false false false
                    None)
                 (value toy_backbone_out
                    (run_backbone (toy_modules 21)
                       (toy_flags_cfg (Some "sum"%string) 1 false false false
                          false None) toy_batch))
                 toy_batch))).
  - vm_compute. reflexivity.
  - vm_compute. reflexivity.
  - vm_compute. discriminate.
Defined.

Lemma pair_features_need_two_mutations_witness :
  exists e,
    forward (toy_modules 21)
      (toy_flags_cfg (Some "sum"%string) 1 true false true false None)
      toy_single_batch = Raise e /\ library_error e.
Proof.
  exact (pair_features_need_two_mutations _ (toy_modules 21)
           (toy_flags_cfg (Some "sum"%string) 1 true false true false None)
           toy_single_batch "sum" eq_refl eq_refl eq_refl (le_n 1)).
Defined.

Lemma features_unbound_without_final_layers_witness :
  (exists e,
      forward (toy_modules 21)
        (toy_flags_cfg (Some "sum"%string) 0 true true false false None)
        toy_batch = Raise e /\ library_error e) /\
  forward (toy_modules 21)
    (toy_flags_cfg (Some "sum"%string) 0 true true false false None)
    toy_batch = Raise UnboundLocalError.
Proof.
  destruct (features_unbound_without_final_layers _ (toy_modules 21)
              (toy_flags_cfg (Some "sum"%string) 0 true true false false None)
              toy_batch "sum" eq_refl (Z.le_refl 0) eq_refl Nat.lt_0_2)
    as [Hnever Hunbound].
  split; [exact Hnever|].
  apply (Hunbound
           (value toy_backbone_out
              (run_backbone (toy_modules 21)
                 (toy_flags_cfg (Some "sum"%string) 0 true true false false
                    None) toy_batch))
           None
           (value (full 0 NaN)
              (gather_rows (mpnn_embed toy_backbone_out)
                 (slice (mut_positions toy_batch) 1 0 1)))).
  - vm_compute. reflexivity.
  - reflexivity.
  - vm_compute. reflexivity.
Defined.

Lemma toy_W_s_rank (vocab : nat) (c : tensor Z) :
  rank (W_s (toy_modules vocab) c) = Datatypes.S (rank c).
Proof. unfold rank. cbn. rewrite length_app. cbn. lia. Qed.

Lemma toy_embed_rank (vocab : nat) (x : nat * nat) (s : tensor Z) :
  rank (snd (fst (prot_mpnn (toy_modules vocab) x s))) = 3.
Proof. destruct x. reflexivity. Qed.

Lemma single_mode_rejects_mutant_embedding_witness :
  exists e,
    forward (toy_modules 21)
      (toy_flags_cfg None 1 true true false false None)
      toy_single_batch = Raise e /\ library_error e.
Proof.
  exact (single_mode_rejects_mutant_embedding _ (toy_modules 21)
           (toy_flags_cfg None 1 true true false false None)
           toy_single_batch 2 1 eq_refl eq_refl eq_refl eq_refl
           (toy_W_s_rank 21) (toy_embed_rank 21)).
Defined.

Lemma single_mode_makes_no_check_witness :
  RuntimeError <> AssertionError /\ forall msg, RuntimeError <> ValueError msg.
Proof.
  apply (single_mode_makes_no_check _ (toy_modules 1) (toy_head_cfg true true)
           toy_single_batch RuntimeError eq_refl).
  vm_compute. reflexivity.
Defined.

Lemma global_embedding_requires_final_layers_witness :
  (exists e,
      forward (toy_modules 21)
        (toy_flags_cfg None 0 true false false false (Some "globalMPNN"%string))
        toy_single_batch = Raise e /\ library_error e) /\
  forward (toy_modules 21)
    (toy_flags_cfg None 0 true false false false (Some "globalMPNN"%string))
    toy_single_batch = Raise TypeError.
Proof.
  destruct (global_embedding_requires_final_layers _ (toy_modules 21)
              (toy_flags_cfg None 0 true false false false
                 (Some "globalMPNN"%string))
              toy_single_batch eq_refl (Z.le_refl 0) eq_refl)
    as [Hnever Htype].
  split; [exact Hnever|].
  set (cfg := toy_flags_cfg None 0 true false false false
                (Some "globalMPNN"%string)) in *.
  set (bo := value toy_backbone_out
               (run_backbone (toy_modules 21) cfg toy_single_batch)).
  set (emb := fst (value (full 0 NaN, None)
                     (single_embeds (toy_modules 21) cfg bo toy_single_batch))).
  apply (Htype bo emb None
           (value (full 0 NaN)
              (gather_rows emb (mut_positions toy_single_batch)))).
  - vm_compute. reflexivity.
  - vm_compute. reflexivity.
  - vm_compute. reflexivity.
Defined.

(** ** [_get_cbeta] *)

Lemma atom_rows (X : tensor float) (B L A k : nat) :
  shape X = [B; L; A; 3] ->
  Geometry.atom X k =
  if k <? A then Ok (mkT [B; L; 3] (fun ix => data X (insert_nth 2 ix k)))
  else Raise IndexError.
Proof.
  intros HX. unfold Geometry.atom, select, rank, size. rewrite HX.
  cbn [length Nat.leb nth Nat.ltb andb drop_nth firstn skipn app].
  reflexivity.
Qed.

Lemma broadcast2_same {A B C} (f : A -> B -> C) (a : tensor A) (b : tensor B)
  (sh : list nat) :
  shape a = sh -> shape b = sh ->
  broadcast2 f a b =
  Ok (mkT sh (fun ix => f (data a (bindex sh ix)) (data b (bindex sh ix)))).
Proof.
  intros Ha Hb. unfold broadcast2. now rewrite Ha, Hb, broadcast_shape_same.
Qed.

Lemma bindex_BL3 (B L b l c : nat) :
  b < B -> l < L -> c < 3 -> bindex [B; L; 3] [b; l; c] = [b; l; c].
Proof. intros. apply bindex_in_shape. now apply in_shape3. Qed.

Lemma get_cbeta_spec (X : tensor float) (B L A : nat) :
  shape X = [B; L; A; 3] ->
  if 3 <=? A
  then exists Y,
         Geometry._get_cbeta X = Ok Y /\
         shape Y = [B; L; Datatypes.S A; 3] /\
         (forall b l a c,
             data Y [b; l; Datatypes.S a; c] = data X [b; l; a; c]) /\
         (forall b l c, b < B -> l < L -> c < 3 ->
             data Y [b; l; 0; c] =
             virtual_cbeta (fun k => data X [b; l; 0; k])
                           (fun k => data X [b; l; 1; k])
                           (fun k => data X [b; l; 2; k]) c)
  else Geometry._get_cbeta X = Raise IndexError.
Proof.
  intros HX. unfold Geometry._get_cbeta.
  rewrite !(atom_rows X B L A _ HX).
  destruct A as [|[|[|A]]]; cbn [Nat.leb Nat.ltb bind]; try reflexivity.
  - rewrite (broadcast2_same _ _ _ [B; L; 3]) by reflexivity. reflexivity.
  - rewrite (broadcast2_same _ _ _ [B; L; 3]) by reflexivity. cbn [bind].
    rewrite (broadcast2_same _ _ _ [B; L; 3]) by reflexivity. cbn [bind].
    unfold Geometry.cross. cbn [shape]. rewrite broadcast_shape_same.
    cbn [last_dim last Nat.eqb andb bind].
    unfold Geometry.scale, tmap. cbn [shape data].
    rewrite (broadcast2_same _ _ _ [B; L; 3]) by reflexivity. cbn [bind].
    rewrite (broadcast2_same _ _ _ [B; L; 3]) by reflexivity. cbn [bind].
    rewrite (broadcast2_same _ _ _ [B; L; 3]) by reflexivity. cbn [bind].
    unfold Geometry.cat_pair, unsqueeze, rank, size. rewrite HX.
    cbn [shape insert_nth drop_nth firstn skipn app length Nat.ltb Nat.leb
         negb Nat.eqb andb nth].
    rewrite list_eqb_refl. cbn [set_nth firstn skipn app Nat.add].
    eexists. split; [reflexivity|]. split; [reflexivity|]. split.
    + intros b l a c. cbn [data nth Nat.ltb Nat.leb set_nth firstn skipn app
                           Nat.sub].
      now rewrite Nat.sub_0_r.
    + intros b l c Hb Hl Hc.
      cbn [data nth Nat.ltb Nat.leb drop_nth firstn skipn app].
      rewrite !(bindex_BL3 B L b l c Hb Hl Hc).
      cbn [data removelast last app].
      rewrite !bindex_BL3 by (assumption || lia).
      cbn [data insert_nth firstn skipn app].
      unfold virtual_cbeta.
      destruct c as [|[|[|c]]]; [reflexivity | reflexivity | reflexivity | lia].
Qed.

(** X15. On coordinates of shape [(B, L, A, 3)], [_get_cbeta] raises
    [IndexError] when a residue has fewer than three atoms; otherwise it
    returns a tensor of shape [(B, L, A + 1, 3)] in which atom [a + 1] is
    atom [a] of the input (so that atom 1 of the result is atom 0 of the
    input) and atom 0 of residue [(b, l)] is the virtual C-beta computed
    from the first three atoms of that residue alone. *)
Theorem get_cbeta_prepends (X : tensor float) (B L A : nat) :
  shape X = [B; L; A; 3] ->
  if 3 <=? A
  then exists Y,
         Geometry._get_cbeta X = Ok Y /\
         shape Y = [B; L; Datatypes.S A; 3] /\
         (forall b l a c,
             data Y [b; l; Datatypes.S a; c] = data X [b; l; a; c]) /\
         (forall b l c, b < B -> l < L -> c < 3 ->
             data Y [b; l; 0; c] =
             virtual_cbeta (fun k => data X [b; l; 0; k])
                           (fun k => data X [b; l; 1; k])
                           (fun k => data X [b; l; 2; k]) c)
  else Geometry._get_cbeta X = Raise IndexError.
Proof. exact (get_cbeta_spec X B L A). Qed.

Lemma get_cbeta_prepends_witness :
  exists Y,
    Geometry._get_cbeta toy_residue = Ok Y /\
    shape Y = [1; 1; 5; 3] /\
    (forall b l a c, data Y [b; l; Datatypes.S a; c] = data toy_residue [b; l; a; c]) /\
    (forall b l c, b < 1 -> l < 1 -> c < 3 ->
        data Y [b; l; 0; c] =
        virtual_cbeta (fun k => data toy_residue [b; l; 0; k])
                      (fun k => data toy_residue [b; l; 1; k])
                      (fun k => data toy_residue [b; l; 2; k]) c).
Proof. exact (get_cbeta_prepends toy_residue 1 1 4 eq_refl). Defined.

(** ** The pairwise distances *)












(** ** The width of a slot embedding *)

Lemma cat_last_two (a b : tensor float) (B E1 E2 : nat) :
  shape a = [B; E1] ->
  shape b = [B; E2] ->
  exists r, cat_last [a; b] = Ok r /\ shape r = [B; E1 + E2].
Proof.
  intros Ha Hb. unfold cat_last, rank. cbn [forallb map].
  rewrite Ha, Hb.
  cbn [length Nat.eqb negb andb removelast].
  rewrite !list_eqb_refl. cbn [andb].
  eexists. split; [reflexivity|]. cbn [shape last_dim last list_sum app].
  unfold list_sum. cbn [fold_right]. now rewrite Nat.add_0_r.
Qed.

Lemma select_column (t : tensor float) (B C K i : nat) :
  shape t = [B; C; K] ->
  i < K ->
  exists c, select t 2 i = Ok c /\ shape c = [B; C].
Proof.
  intros Ht Hi. unfold select, rank, size. rewrite Ht.
  cbn [length nth]. change (2 <? 3) with true.
  apply Nat.ltb_lt in Hi. rewrite Hi. cbn [andb].
  eexists. split; reflexivity.
Qed.

(** X18. The slot embedding built by the gather loop has the width that
    [_set_model_dims] counts: the gathered row of width [E0] followed by 128
    columns of mutant embedding, 128 of edges or else 25 of distances, and
    128 of side-chain features, each when enabled, which is
    [E0 - 128 + EMBED_DIM] when there is no auxiliary embedding.  With
    [E0 = 128 * num_final_layers + 128] this is the input width of the
    head. *)
Theorem slot_width_matches_model_dims :
  forall (structure : Type) (M : Modules structure) (cfg : Cfg) (f : feats)
         (pos : tensor Z) (i B L E0 N : nat),
    shape pos = [B; N] ->
    i < N ->
    (forall b, b < B -> in_range (data pos [b; i]) L = true) ->
    shape (f_embed f) = [B; L; E0] ->
    auxiliary_embedding cfg = None ->
    (mutant_embedding cfg = true ->
     exists me K, f_mut_embed f = Some me /\ shape me = [B; 128; K] /\ i < K) ->
    (edges cfg = true ->
     exists K, shape (f_edges f) = [B; 128; K] /\ i < K) ->
    (edges cfg = false -> dist cfg = true ->
     exists d K, f_dist f = Some d /\ shape d = [B; 25; K] /\ i < K) ->
    (forall t, shape (dist_norm M t) = shape t) ->
    (side_chain_module cfg = true ->
     exists s, f_side f = Some s /\ shape s = [B; L; 128]) ->
    exists g E,
      slot_embed M cfg f pos i = Ok g /\
      shape g = [B; E] /\
      (Z.of_nat E = Z.of_nat E0 - 128 + EMBED_DIM cfg)%Z.
Proof.
  intros structure M cfg f pos i B L E0 N Hpos Hi Hr Hf Haux Hmut Hedg Hdist
    Hnorm Hside.
  destruct (slice_column pos B N i Hpos Hi) as [Hsl Hsd].
  unfold slot_embed, EMBED_DIM, _set_model_dims, is_str. rewrite Haux.
  cbn [fst snd].
  destruct (gather_rows_spec (f_embed f) (slice pos 1 i (i + 1)) B L E0 Hf Hsl)
    as (g0 & -> & Hg0 & _).
  { intros b Hb. rewrite Hsd. now apply Hr. }
  cbn [bind].
  (* the mutant embedding *)
  assert (H1 : exists g1 E1,
             (if mutant_embedding cfg
              then match f_mut_embed f with
                   | None => Raise UnboundLocalError
                   | Some mut_embed =>
                       m <- select mut_embed 2 i ;; cat_last [g0; m]
                   end
              else Ok g0) = Ok g1 /\
             shape g1 = [B; E1] /\
             Z.of_nat E1 =
             (Z.of_nat E0 + if mutant_embedding cfg then 128 else 0)%Z).
  { destruct (mutant_embedding cfg).
    - destruct (Hmut eq_refl) as (me & K & -> & Hme & HK).
      destruct (select_column me B 128 K i Hme HK) as (m & -> & Hm).
      cbn [bind].
      destruct (cat_last_two g0 m B E0 128 Hg0 Hm) as (r & -> & Hr1).
      exists r, (E0 + 128). split; [reflexivity|]. split; [exact Hr1 | lia].
    - exists g0, E0. split; [reflexivity|]. split; [exact Hg0 | lia]. }
  destruct H1 as (g1 & E1 & -> & Hg1 & HE1). cbn [bind].
  (* the pair features *)
  assert (H2 : exists g2 E2,
             (if edges cfg
              then e <- select (f_edges f) 2 i ;; cat_last [g1; e]
              else if dist cfg
                   then match f_dist f with
                        | None => Raise UnboundLocalError
                        | Some dX_all_agg =>
                            d <- select dX_all_agg 2 i ;;
                            cat_last [g1; dist_norm M d]
                        end
                   else Ok g1) = Ok g2 /\
             shape g2 = [B; E2] /\
             Z.of_nat E2 =
             (Z.of_nat E1 + if edges cfg then 128
                            else if dist cfg then 25 else 0)%Z).
  { destruct (edges cfg).
    - destruct (Hedg eq_refl) as (K & Hfe & HK).
      destruct (select_column (f_edges f) B 128 K i Hfe HK) as (e & -> & He).
      cbn [bind].
      destruct (cat_last_two g1 e B E1 128 Hg1 He) as (r & -> & Hr2).
      exists r, (E1 + 128). split; [reflexivity|]. split; [exact Hr2 | lia].
    - destruct (dist cfg).
      + destruct (Hdist eq_refl eq_refl) as (d & K & -> & Hd & HK).
        destruct (select_column d B 25 K i Hd HK) as (c & -> & Hc).
        cbn [bind].
        destruct (cat_last_two g1 (dist_norm M c) B E1 25 Hg1)
          as (r & -> & Hr2); [now rewrite Hnorm|].
        exists r, (E1 + 25). split; [reflexivity|]. split; [exact Hr2 | lia].
      + exists g1, E1. split; [reflexivity|]. split; [exact Hg1 | lia]. }
  destruct H2 as (g2 & E2 & -> & Hg2 & HE2). cbn [bind].
  (* the side chains *)
  destruct (side_chain_module cfg).
  - destruct (Hside eq_refl) as (s & -> & Hs).
    destruct (gather_rows_spec s (slice pos 1 i (i + 1)) B L 128 Hs Hsl)
      as (sg & -> & Hsg & _).
    { intros b Hb. rewrite Hsd. now apply Hr. }
    cbn [bind].
    destruct (cat_last_two g2 sg B E2 128 Hg2 Hsg) as (r & -> & Hr3).
    exists r, (E2 + 128). split; [reflexivity|]. split; [exact Hr3|].
    destruct (mutant_embedding cfg), (edges cfg), (dist cfg); lia.
  - exists g2, E2. split; [reflexivity|]. split; [exact Hg2|].
    destruct (mutant_embedding cfg), (edges cfg), (dist cfg); lia.
Qed.

Lemma slot_width_matches_model_dims_witness :
  exists g E,
    slot_embed (toy_modules 21)
      (toy_flags_cfg (Some "sum"%string) 1 true true false false None)
      toy_feats (mut_positions toy_batch) 1 = Ok g /\
    shape g = [2; E] /\
    (Z.of_nat E =
     Z.of_nat 4 - 128 +
     EMBED_DIM (toy_flags_cfg (Some "sum"%string) 1 true true false false None))%Z.
Proof.
  apply (slot_width_matches_model_dims _ (toy_modules 21)
           (toy_flags_cfg (Some "sum"%string) 1 true true false false None)
           toy_feats (mut_positions toy_batch) 1 2 4 4 2).
  - reflexivity.
  - lia.
  - intros b Hb. destruct b as [|[|b]]; [reflexivity | reflexivity | lia].
  - reflexivity.
  - reflexivity.
  - intros _. exists (mkT [2; 128; 2] (fun ix => tag (2 :: ix))), 2.
    split; [reflexivity|]. split; [reflexivity | lia].
  - discriminate.
  - discriminate.
  - reflexivity.
  - discriminate.
Defined.

(** ** Concatenations *)

(** Tensors that agree on all dimensions but the last can be concatenated,
    and the widths add up. *)
Lemma cat_last_shape {A} (t0 : tensor A) (rest : list (tensor A))
  (sh : list nat) :
  Forall (fun t => exists w, shape t = sh ++ [w]) (t0 :: rest) ->
  let ws := map (fun t => last_dim (shape t)) (t0 :: rest) in
  cat_last (t0 :: rest) =
  Ok (mkT (sh ++ [list_sum ws])
          (fun ix =>
             let '(k, o) := locate ws (last ix 0) in
             data (nth k (t0 :: rest) t0) (removelast ix ++ [o]))).
Proof.
  intros Hall ws. unfold cat_last.
  assert (Hrm : forall t, In t (t0 :: rest) -> removelast (shape t) = sh).
  { intros t Ht. rewrite Forall_forall in Hall.
    destruct (Hall t Ht) as (w & ->). apply removelast_last. }
  assert (Hr0 : negb (rank t0 =? 0) = true).
  { rewrite Forall_forall in Hall.
    destruct (Hall t0 (or_introl eq_refl)) as (w & H0).
    unfold rank. rewrite H0, length_app. cbn [length].
    apply negb_true_iff, Nat.eqb_neq. lia. }
  rewrite Hr0. cbn [andb].
  replace (forallb _ (t0 :: rest)) with true.
  - fold ws. now rewrite (Hrm t0 (or_introl eq_refl)).
  - symmetry. apply forallb_forall. intros t Ht.
    apply list_eqb_true.
    now rewrite (Hrm t Ht), (Hrm t0 (or_introl eq_refl)).
Qed.

Lemma list_sum_const (l : list nat) (w : nat) :
  Forall (fun x => x = w) l -> list_sum l = length l * w.
Proof.
  induction 1 as [|x l -> _ IH]; [reflexivity|].
  cbn [list_sum fold_right length Nat.mul].
  unfold list_sum in IH. now rewrite IH.
Qed.






(** ** The width of the single-mutation embedding *)

Lemma select_self_edges (t : tensor float) (B L K C : nat) :
  shape t = [B; L; K; C] ->
  0 < K ->
  exists e, select t 2 0 = Ok e /\ shape e = [B; L; C].
Proof.
  intros Ht HK. unfold select, rank, size. rewrite Ht.
  cbn [length nth]. change (2 <? 4) with true.
  apply Nat.ltb_lt in HK. rewrite HK. eexists. split; reflexivity.
Qed.

Lemma Forall_firstn' {A} (P : A -> Prop) (n : nat) (l : list A) :
  Forall P l -> Forall P (firstn n l).
Proof.
  intros H. revert n. induction H as [|a l Ha _ IH]; intros [|n]; cbn;
    constructor; auto.
Qed.

Lemma list_sum_cons (a : nat) (l : list nat) :
  list_sum (a :: l) = a + list_sum l.
Proof. reflexivity. Qed.

(** X20. In single-mutation mode with final layers, without
    [mutant_embedding] and with backbone tensors of 128 channels, the
    embedding handed to the head has width
    [HIDDEN_DIM * num_final_layers + EMBED_DIM], the input width of the
    head, except that with [dist] set and [edges] unset it is 25 columns
    short: [_set_model_dims] counts the distances, which the
    single-mutation branch never concatenates. *)
Theorem single_mode_width :
  forall (structure : Type) (M : Modules structure) (cfg : Cfg)
         (bo : backbone_out structure) (inp : batch structure) (B L : nat),
    (0 < num_final_layers cfg)%Z ->
    Z.to_nat (num_final_layers cfg) <= length (all_mpnn_hid bo) ->
    Forall (fun t => shape t = [B; L; 128]) (all_mpnn_hid bo) ->
    shape (mpnn_embed bo) = [B; L; 128] ->
    mutant_embedding cfg = false ->
    (edges cfg = true ->
     exists K, 0 < K /\ shape (mpnn_edges bo) = [B; L; K; 128]) ->
    (side_chain_module cfg = true ->
     forall x s h, shape (side_chain_features M x s h) = [B; L; 128]) ->
    shape (mut_positions inp) = [B; 1] ->
    (forall b, b < B -> in_range (data (mut_positions inp) [b; 0]) L = true) ->
    (is_str (auxiliary_embedding cfg) "globalMPNN" = true ->
     forall h, shape (global_embed M h) = [B; 128]) ->
    (is_str (auxiliary_embedding cfg) "localESM" = true ->
     exists esm, esm_emb inp = Some esm /\ shape esm = [B; L; 320]) ->
    (lightattn cfg = true ->
     forall t E, shape t = [B; E; 1] -> shape (light_attention M t) = [B; E]) ->
    exists emb E,
      forward_single M cfg bo inp = Ok emb /\
      shape emb = [B; E] /\
      (Z.of_nat E =
       HIDDEN_DIM cfg * num_final_layers cfg + EMBED_DIM cfg
       - (if negb (edges cfg) && dist cfg then 25 else 0))%Z.
Proof.
  intros structure M cfg bo inp B L Hnfl Hk Hhid Hemb Hmut Hedg Hside Hpos Hr
    Hglob Hesm Hla.
  unfold forward_single, single_embeds, side_chain_embeds.
  set (n := Z.to_nat (num_final_layers cfg)) in *.
  assert (Hn : 0 < n) by (unfold n; lia).
  (* the side chains *)
  assert (Hs : exists side,
             (if side_chain_module cfg
              then match all_mpnn_hid bo with
                   | [] => Raise IndexError
                   | h0 :: _ =>
                       Ok (Some (side_chain_features M (b_X bo) (b_S bo) h0))
                   end
              else Ok None) = Ok side /\
             Forall (fun t => shape t = [B; L; 128])
                    (match side with Some s => [s] | None => [] end) /\
             length (match side with Some s => [s] | None => [] end) =
             if side_chain_module cfg then 1 else 0).
  { destruct (side_chain_module cfg).
    - destruct (all_mpnn_hid bo) as [|h0 ?]; [cbn in Hk; lia|].
      eexists. split; [reflexivity|]. split; [|reflexivity].
      repeat constructor. now apply Hside.
    - exists None. repeat split. constructor. }
  destruct Hs as (side & -> & Hsd & Hsl). cbn [bind].
  apply Z.ltb_lt in Hnfl. rewrite Hnfl, Hmut. apply Z.ltb_lt in Hnfl.
  (* the hidden layers *)
  assert (Hfn : Forall (fun t => shape t = [B; L; 128])
                       (firstn n (all_mpnn_hid bo)))
    by (apply Forall_firstn'; exact Hhid).
  assert (Hfl : length (firstn n (all_mpnn_hid bo)) = n)
    by (rewrite length_firstn; lia).
  destruct (firstn n (all_mpnn_hid bo)) as [|h0 hs] eqn:Hfirst;
    [cbn in Hfl; lia|].
  rewrite (cat_last_shape h0 hs [B; L]).
  2:{ eapply Forall_impl; [|exact Hfn]. intros t Ht. now exists 128. }
  cbv zeta. cbn [bind].
  rewrite (list_sum_const _ 128).
  2:{ apply Forall_map. eapply Forall_impl; [|exact Hfn].
      intros t Ht. cbv beta in Ht. now rewrite Ht. }
  rewrite length_map, Hfl. set (hid := mkT ([B; L] ++ [n * 128]) _).
  (* the self edges *)
  assert (He : exists se,
             (if edges cfg
              then e <- select (mpnn_edges bo) 2 0 ;; Ok [e]
              else Ok []) = Ok se /\
             Forall (fun t => shape t = [B; L; 128]) se /\
             length se = if edges cfg then 1 else 0).
  { destruct (edges cfg).
    - destruct (Hedg eq_refl) as (K & HK & Hsh).
      destruct (select_self_edges _ B L K 128 Hsh HK) as (e & -> & Hse).
      cbn [bind]. eexists. split; [reflexivity|]. split; [|reflexivity].
      now repeat constructor.
    - exists []. repeat split. constructor. }
  destruct He as (se & -> & Hse & Hsel). cbn [bind app].
  set (side_l := match side with Some s => [s] | None => [] end) in *.
  rewrite (cat_last_shape hid (mpnn_embed bo :: se ++ side_l) [B; L]).
  2:{ constructor; [now exists (n * 128)|].
      constructor; [now exists 128|].
      apply Forall_app. split.
      - eapply Forall_impl; [|exact Hse]. intros t Ht. now exists 128.
      - eapply Forall_impl; [|exact Hsd]. intros t Ht. now exists 128. }
  cbv zeta. cbn [bind].
  match goal with |- context [gather_rows ?t _] => set (emb := t) end.
  set (E1 := n * 128 + (128 + ((if edges cfg then 1 else 0) * 128
                               + (if side_chain_module cfg then 1 else 0) * 128))).
  assert (Hsh : shape emb = [B; L; E1]).
  { unfold emb. cbn [shape app map]. rewrite !list_sum_cons.
    unfold hid at 1. cbn [shape app]. rewrite Hemb.
    cbn [last_dim last].
    rewrite map_app, list_sum_app, !(list_sum_const _ 128).
    - now rewrite !length_map, Hsel, Hsl.
    - apply Forall_map. eapply Forall_impl; [|exact Hsd].
      intros t Ht. cbv beta in Ht. now rewrite Ht.
    - apply Forall_map. eapply Forall_impl; [|exact Hse].
      intros t Ht. cbv beta in Ht. now rewrite Ht. }
  destruct (gather_rows_spec emb (mut_positions inp) B L E1 Hsh Hpos Hr)
    as (g & -> & Hg & _).
  cbn [bind].
  (* the auxiliary embeddings *)
  assert (HE1 : (Z.of_nat E1 =
                 128 * num_final_layers cfg + 128
                 + (if edges cfg then 128 else 0)
                 + (if side_chain_module cfg then 128 else 0))%Z).
  { unfold E1, n. destruct (edges cfg), (side_chain_module cfg); lia. }
  clearbody E1 emb.
  assert (Hg1 : exists g1 E2,
             (if is_str (auxiliary_embedding cfg) "globalMPNN"
              then cat_last [g; global_embed M hid]
              else Ok g) = Ok g1 /\
             shape g1 = [B; E2] /\
             Z.of_nat E2 =
             (Z.of_nat E1 +
              if is_str (auxiliary_embedding cfg) "globalMPNN"
              then 128 else 0)%Z).
  { destruct (is_str (auxiliary_embedding cfg) "globalMPNN").
    - destruct (cat_last_two g (global_embed M hid) B E1 128 Hg
                  (Hglob eq_refl hid)) as (r & -> & Hr1).
      exists r, (E1 + 128). split; [reflexivity|]. split; [exact Hr1 | lia].
    - exists g, E1. split; [reflexivity|]. split; [exact Hg | lia]. }
  destruct Hg1 as (g1 & E2 & -> & Hg1 & HE2). cbn [bind].
  assert (Hg2 : exists g2 E3,
             (if is_str (auxiliary_embedding cfg) "localESM"
              then match esm_emb inp with
                   | None => Raise AttributeError
                   | Some esm =>
                       e <- gather_rows esm (mut_positions inp) ;;
                       cat_last [g1; e]
                   end
              else Ok g1) = Ok g2 /\
             shape g2 = [B; E3] /\
             Z.of_nat E3 =
             (Z.of_nat E2 +
              if is_str (auxiliary_embedding cfg) "localESM"
              then 320 else 0)%Z).
  { destruct (is_str (auxiliary_embedding cfg) "localESM").
    - destruct (Hesm eq_refl) as (esm & -> & Hsm).
      destruct (gather_rows_spec esm (mut_positions inp) B L 320 Hsm Hpos Hr)
        as (e & -> & He & _).
      cbn [bind].
      destruct (cat_last_two g1 e B E2 320 Hg1 He) as (r & -> & Hr1).
      exists r, (E2 + 320). split; [reflexivity|]. split; [exact Hr1 | lia].
    - exists g1, E2. split; [reflexivity|]. split; [exact Hg1 | lia]. }
  destruct Hg2 as (g2 & E3 & -> & Hg2 & HE3). cbn [bind].
  assert (HE : (Z.of_nat E3 =
                HIDDEN_DIM cfg * num_final_layers cfg + EMBED_DIM cfg
                - (if negb (edges cfg) && dist cfg then 25 else 0))%Z).
  { rewrite HE3, HE2, HE1.
    unfold HIDDEN_DIM, EMBED_DIM, _set_model_dims. cbn [fst snd].
    rewrite Hmut.
    assert (Hex : is_str (auxiliary_embedding cfg) "globalMPNN" = true ->
                  is_str (auxiliary_embedding cfg) "localESM" = false).
    { unfold is_str. destruct (auxiliary_embedding cfg) as [s|]; [|reflexivity].
      intros H. apply String.eqb_eq in H. now subst. }
    destruct (is_str (auxiliary_embedding cfg) "globalMPNN");
      [rewrite (Hex eq_refl)|];
      destruct (is_str (auxiliary_embedding cfg) "localESM");
      destruct (edges cfg), (dist cfg), (side_chain_module cfg);
      cbn [negb andb]; lia. }
  destruct (lightattn cfg).
  - eexists _, E3. split; [reflexivity|]. split; [|exact HE].
    apply (Hla eq_refl). unfold unsqueeze_last. cbn [shape].
    now rewrite Hg2.
  - exists g2, E3. split; [reflexivity|]. split; [exact Hg2 | exact HE].
Qed.

Lemma single_mode_width_witness :
  exists emb E,
    forward_single (toy_modules 21)
      (toy_flags_cfg None 1 true false false true None)
      toy_backbone_out_wide toy_single_batch = Ok emb /\
    shape emb = [2; E] /\
    (Z.of_nat E =
     HIDDEN_DIM (toy_flags_cfg None 1 true false false true None)
     * num_final_layers (toy_flags_cfg None 1 true false false true None)
     + EMBED_DIM (toy_flags_cfg None 1 true false false true None)
     - (if negb (edges (toy_flags_cfg None 1 true false false true None))
           && dist (toy_flags_cfg None 1 true false false true None)
        then 25 else 0))%Z.
Proof.
  apply (single_mode_width _ (toy_modules 21)
           (toy_flags_cfg None 1 true false false true None)
           toy_backbone_out_wide toy_single_batch 2 4).
  - reflexivity.
  - apply le_n.
  - repeat constructor.
  - reflexivity.
  - reflexivity.
  - discriminate.
  - discriminate.
  - reflexivity.
  - intros b Hb. destruct b as [|[|b]]; [reflexivity | reflexivity | lia].
  - discriminate.
  - discriminate.
  - intros _ t E Ht. cbn. now rewrite Ht.
Defined.
